(** * earthstar-data: a schema layer over a path-addressed document store

    Shallow embedding of [src/lib/type.ts], [src/lib/live.ts],
    [src/lib/atoms.ts], [src/lib/object.ts], [src/lib/types/collection.ts],
    [src/lib/types/app-format.ts], [src/lib/types/attachment.ts],
    [src/lib/types/metadata.ts] and [src/lib/util.ts], the properties of
    the specification stated over it, and further properties of the
    code.

    JavaScript values are dynamically typed, so the embedding uses one
    universal value type [JsVal]; plain objects are finite maps from
    property names to values.  The Earthstar replica is an external
    collaborator: it is modelled by the interface the code consumes.
    The blob type, which needs the byte streams of the platform, is not
    part of the embedding. *)

From Stdlib Require Import ZArith String Ascii List Lia.
From Stdlib Require Import Decimal DecimalString DecimalZ.
From stdpp Require Import gmap strings list fin_maps.
Import ListNotations.

#[local] Set Warnings "-register-all".
#[local] Open Scope string_scope.

(** ** Results of computations that may throw *)

(** A JavaScript exception: the constructor name and the message. *)
Inductive Error : Type :=
| MkError (name : string) (message : string).

Inductive Res (A : Type) : Type :=
| Ok (a : A)
| Fail (e : Error).
Arguments Ok {A} a.
Arguments Fail {A} e.

#[global] Instance Res_ret : MRet Res := λ A a, Ok a.

#[global] Instance Res_bind : MBind Res := λ A B k m,
  match m with
  | Ok a => k a
  | Fail e => Fail e
  end.

(** ** Strings (JavaScript [String.prototype] members used by the code) *)

Module Str.

(** [s.substring(n)] for [0 <= n]. *)
Fixpoint substringFrom (n : nat) (s : string) : string :=
  match n, s with
  | O, _ => s
  | S _, EmptyString => EmptyString
  | S n', String _ s' => substringFrom n' s'
  end.

(** [s.slice(0, n)] for [0 <= n]. *)
Fixpoint sliceTo (n : nat) (s : string) : string :=
  match n, s with
  | O, _ => EmptyString
  | S _, EmptyString => EmptyString
  | S n', String c s' => String c (sliceTo n' s')
  end.

(** [s.startsWith(p)] *)
Definition startsWith (s p : string) : bool := String.prefix p s.

(** [s.endsWith(p)] *)
Definition endsWith (s p : string) : bool :=
  (String.length p <=? String.length s)%nat &&
  String.eqb (substringFrom (String.length s - String.length p) s) p.

(** [s.replace(/\/$/, '')]: drop one trailing slash, if there is one. *)
Definition stripTrailingSlash (s : string) : string :=
  if endsWith s "/" then sliceTo (String.length s - 1) s else s.

(** [s.split('/')] *)
Fixpoint split (s : string) : list string :=
  match s with
  | EmptyString => [EmptyString]
  | String c s' =>
      if Ascii.eqb c "/"%char then EmptyString :: split s'
      else match split s' with
           | [] => [String c EmptyString]
           | seg :: segs => String c seg :: segs
           end
  end.

(** The truthiness of a string: only [''] is falsy. *)
Definition nonEmpty (s : string) : bool :=
  match s with EmptyString => false | _ => true end.

(** [c] does not occur in [s]. *)
Fixpoint lacks (c : ascii) (s : string) : bool :=
  match s with
  | EmptyString => true
  | String c' s' => negb (Ascii.eqb c' c) && lacks c s'
  end.

End Str.

(** [splitPath] of util.ts: [path.split('/').filter(Boolean)]. *)
Definition splitPath (path : string) : list string :=
  List.filter Str.nonEmpty (Str.split path).

(** ** Percent-encoding of path segments

    [encodeURIComponent] and [decodeURIComponent] of the platform, over
    strings taken as sequences of UTF-8 bytes.  The escapes of the bytes
    above 127 are decoded where they form well-formed UTF-8, as the
    platform checks it, and are malformed otherwise. *)

Module Uri.

Definition inRange (lo hi c : ascii) : bool :=
  (nat_of_ascii lo <=? nat_of_ascii c)%nat && (nat_of_ascii c <=? nat_of_ascii hi)%nat.

Definition unreserved (c : ascii) : bool :=
  inRange "a" "z" c || inRange "A" "Z" c || inRange "0" "9" c ||
  existsb (Ascii.eqb c) ["-"; "_"; "."; "!"; "~"; "*"; "'"; "("; ")"]%char.

Definition hexDigit (n : nat) : ascii :=
  if (n <? 10)%nat then ascii_of_nat (48 + n) else ascii_of_nat (55 + n).

Definition hexValue (c : ascii) : option nat :=
  if inRange "0" "9" c then Some (nat_of_ascii c - 48)
  else if inRange "A" "F" c then Some (nat_of_ascii c - 55)
  else if inRange "a" "f" c then Some (nat_of_ascii c - 87)
  else None.

Fixpoint encodeURIComponent (s : string) : string :=
  match s with
  | EmptyString => EmptyString
  | String c s' =>
      if unreserved c then String c (encodeURIComponent s')
      else
        let n := nat_of_ascii c in
        String "%" (String (hexDigit (n / 16)) (String (hexDigit (n mod 16))
          (encodeURIComponent s')))
  end.

Definition URIError : Error := MkError "URIError" "URI malformed".

(** The escapes that have to follow the escape of a first byte, each by
    the range in which its byte has to lie for the bytes to be
    well-formed UTF-8 (The Unicode Standard, table 3-7); [None] for a
    byte that begins no well-formed sequence. *)
Definition continuation (byte : nat) : option (list (nat * nat)) :=
  if (byte <? 128)%nat then Some []
  else if (byte <? 194)%nat then None
  else if (byte <? 224)%nat then Some [(128, 191)]
  else if (byte =? 224)%nat then Some [(160, 191); (128, 191)]
  else if (byte =? 237)%nat then Some [(128, 159); (128, 191)]
  else if (byte <? 240)%nat then Some [(128, 191); (128, 191)]
  else if (byte =? 240)%nat then Some [(144, 191); (128, 191); (128, 191)]
  else if (byte <? 244)%nat then Some [(128, 191); (128, 191); (128, 191)]
  else if (byte =? 244)%nat then Some [(128, 143); (128, 191); (128, 191)]
  else None.

(** The decoding, with the ranges of the escapes still due for the
    sequence begun.  While one is due, the next characters have to be
    its escape; a character that is not part of an escape is kept. *)
Fixpoint decodeFrom (pending : list (nat * nat)) (s : string) : Res string :=
  match s with
  | EmptyString =>
      match pending with
      | [] => Ok EmptyString
      | _ :: _ => Fail URIError
      end
  | String c s' =>
      if Ascii.eqb c "%" then
        match s' with
        | String h (String l rest) =>
            match hexValue h, hexValue l with
            | Some a, Some b =>
                let byte := (16 * a + b)%nat in
                let due :=
                  match pending with
                  | [] => continuation byte
                  | (lo, hi) :: more =>
                      if (lo <=? byte)%nat && (byte <=? hi)%nat then Some more else None
                  end in
                match due with
                | Some more =>
                    match decodeFrom more rest with
                    | Ok t => Ok (String (ascii_of_nat byte) t)
                    | Fail e => Fail e
                    end
                | None => Fail URIError
                end
            | _, _ => Fail URIError
            end
        | _ => Fail URIError
        end
      else
        match pending with
        | [] =>
            match decodeFrom [] s' with
            | Ok t => Ok (String c t)
            | Fail e => Fail e
            end
        | _ :: _ => Fail URIError
        end
  end.

Definition decode (s : string) : Res string := decodeFrom [] s.

(** [decodeURIComponent(x)] where [x] may be [undefined]: the argument
    is first converted to a string, and [undefined] becomes
    ["undefined"]. *)
Definition decodeURIComponent (x : option string) : Res string :=
  match x with
  | Some s => decode s
  | None => Ok "undefined"
  end.

End Uri.

(** ** JavaScript values *)

Inductive JsVal : Type :=
| VUndefined
| VNull
| VBool (b : bool)
| VNum (z : Z)               (* a number that is an integer *)
| VBigInt (z : Z)
| VStr (s : string)
| VDate (t : option Z)       (* a Date, by its time value; [None] is NaN *)
| VBlob (bytes : string)     (* a DocAttachment handle, by its content *)
| VNative (name : string)    (* a member of Object.prototype *)
| VObj (props : gmap string JsVal).

(** The property names every plain object inherits from
    [Object.prototype]. *)
Definition objectPrototypeKeys : list string :=
  [ "constructor"; "hasOwnProperty"; "isPrototypeOf"; "propertyIsEnumerable";
    "toLocaleString"; "toString"; "valueOf"; "__proto__";
    "__defineGetter__"; "__defineSetter__"; "__lookupGetter__";
    "__lookupSetter__" ].

Definition inherited (key : string) : bool :=
  bool_decide (key ∈ objectPrototypeKeys).

Module Js.

(** [x === null] *)
Definition isNull (v : JsVal) : bool :=
  match v with VNull => true | _ => false end.

(** [x === undefined] *)
Definition isUndefined (v : JsVal) : bool :=
  match v with VUndefined => true | _ => false end.

(** [ToBoolean(x)] *)
Definition truthy (v : JsVal) : bool :=
  match v with
  | VUndefined | VNull => false
  | VBool b => b
  | VNum z | VBigInt z => negb (z =? 0)%Z
  | VStr s => Str.nonEmpty s
  | VDate _ | VBlob _ | VNative _ | VObj _ => true
  end.

(** The own enumerable properties, which [{...x}] copies; [null],
    [undefined] and the primitives modelled here contribute none. *)
Definition ownProps (v : JsVal) : gmap string JsVal :=
  match v with
  | VObj m => m
  | _ => ∅
  end.

(** [o[key]] on a value that is neither [null] nor [undefined]: an own
    property, else what the prototype chain gives.  Own properties of
    primitives (the indices and [length] of a string) and the members
    of the prototypes other than [Object.prototype] are not
    modelled. *)
Definition get (v : JsVal) (key : string) : JsVal :=
  match ownProps v !! key with
  | Some x => x
  | None => if inherited key then VNative key else VUndefined
  end.

(** [o?.[key]] *)
Definition getOpt (v : JsVal) (key : string) : JsVal :=
  match v with
  | VUndefined | VNull => VUndefined
  | _ => get v key
  end.

(** [x ?? d] *)
Definition orElse (v d : JsVal) : JsVal :=
  match v with
  | VUndefined | VNull => d
  | _ => v
  end.

(** [Object.entries(x)] *)
Definition entries (v : JsVal) : list (string * JsVal) :=
  map_to_list (ownProps v).

(** The values whose type is Object. *)
Definition isObject (v : JsVal) : bool :=
  match v with
  | VDate _ | VBlob _ | VNative _ | VObj _ => true
  | _ => false
  end.

(** [Object.assign] met an own property "__proto__" that holds an object
    or [null]: the copy gets another prototype, for which the objects of
    this model have no place. *)
Definition prototypeAssigned : Error :=
  MkError "OutsideModel" "Object.assign sets the prototype of the copy".

(** [Object.assign({}, x)]: the own properties of [x] are assigned to a
    new object one by one.  The assignment to the key "__proto__" does
    not create a property, it calls the setter that [Object.prototype]
    has for this key: the setter ignores a primitive value other than
    [null], so that the key is dropped from the copy, and it makes an
    object or [null] the prototype of the copy. *)
Definition assign (v : JsVal) : Res (gmap string JsVal) :=
  match ownProps v !! "__proto__" with
  | None => Ok (ownProps v)
  | Some x =>
      if isObject x || isNull x then Fail prototypeAssigned
      else Ok (delete "__proto__" (ownProps v))
  end.

End Js.

(** [isEmptyObject] of util.ts: a [for .. in] loop that returns [false]
    at the first enumerable property. *)
Definition isEmptyObject (object : gmap string JsVal) : bool :=
  match map_to_list object with
  | [] => true
  | _ :: _ => false
  end.


(** ** The document store (an Earthstar replica)

    The replica belongs to the Earthstar library, not to this repository.
    It is modelled by the interface the code consumes of it, as section 6
    of the specification lists it: the latest document by path, queries
    by path prefix and suffix, [set], [wipeDocAtPath], [getAttachment]
    and the event stream. *)

(** Modelled from the spec: the document of the store (DocEs5), a path, a
    text payload and optionally one attachment; the code also reads its
    format. *)
Record Doc : Type := MkDoc {
  doc_path : string;
  doc_text : string;
  doc_format : string;
  doc_attachmentHash : option string
}.

(** Modelled from the spec: what the replica keeps for one path; a new
    write at the same path supersedes the prior one. *)
Record DocBody : Type := MkBody {
  body_text : string;
  body_format : string;
  body_attachmentHash : option string
}.

Definition toDoc (path : string) (b : DocBody) : Doc :=
  MkDoc path (body_text b) (body_format b) (body_attachmentHash b).

(** Modelled from the spec: the three outcomes of
    [replica.getAttachment(doc)], a handle, absent ([undefined]) or an
    error. *)
Inductive AttachmentResult : Type :=
| AttachmentFound (bytes : string)
| AttachmentAbsent
| AttachmentError (e : Error).

(** Modelled from the spec: a replica, given by the latest document of
    every path, its answer to [getAttachment] for every document, and its
    write policy (whether it accepts a write of an author at a path). *)
Record Replica : Type := MkReplica {
  docs : gmap string DocBody;
  attachments : Doc → AttachmentResult;
  accepts : string → string → bool
}.

Record QueryFilter : Type := MkFilter {
  pathStartsWith : option string;
  pathEndsWith : option string
}.

(** Modelled from the spec: the outcome of [replica.set], success or
    failure with a reason; the code looks at [kind === 'failure'] and at
    [err] and [reason]. *)
Inductive IngestEvent : Type :=
| IngestSuccess
| IngestFailure (reason : string).

Module Store.

Definition withDocs (r : Replica) (d : gmap string DocBody) : Replica :=
  MkReplica d (attachments r) (accepts r).

(** Modelled from the spec: [getLatestDocAtPath(path)], the document or
    absent. *)
Definition getLatestDocAtPath (r : Replica) (path : string) : option Doc :=
  toDoc path <$> docs r !! path.

(** Modelled from the spec: the filter of a query, by path prefix and
    path suffix. *)
Definition matches (f : QueryFilter) (path : string) : bool :=
  match pathStartsWith f with
  | Some p => Str.startsWith path p
  | None => true
  end &&
  match pathEndsWith f with
  | Some p => Str.endsWith path p
  | None => true
  end.

(** Modelled from the spec: [queryDocs], the matching documents in the
    replica's own order. *)
Definition queryDocs (r : Replica) (f : QueryFilter) : list Doc :=
  (λ kv, toDoc kv.1 kv.2) <$>
    filter (λ kv : string * DocBody, matches f kv.1) (map_to_list (docs r)).

(** Modelled from the spec: [queryPaths], the paths of the matching
    documents. *)
Definition queryPaths (r : Replica) (f : QueryFilter) : list string :=
  doc_path <$> queryDocs r f.

(** Modelled from the spec: [replica.set(author, { path, text,
    attachment })]; the document becomes the latest one of its path when
    the replica accepts the write, and a given attachment is then
    supplied for the documents that carry it. *)
Definition set (r : Replica) (author path text : string)
    (attachment : option string) : Replica * IngestEvent :=
  if accepts r author path then
    (MkReplica (<[path := MkBody text "es.5" attachment]> (docs r))
       (match attachment with
        | Some bytes => λ d,
            if bool_decide (doc_attachmentHash d = Some bytes)
            then AttachmentFound bytes else attachments r d
        | None => attachments r
        end)
       (accepts r),
     IngestSuccess)
  else (r, IngestFailure "write rejected").

(** Modelled from the spec: a wiped document keeps its path and has the
    empty text, the sentinel of the store for absent. *)
Definition wiped (b : DocBody) : DocBody :=
  MkBody "" (body_format b) None.

(** Modelled from the spec: [replica.wipeDocAtPath(author, path)]
    empties the document of that path if there is one and the write is
    accepted.  The code never looks at the outcome. *)
Definition wipeDocAtPath (r : Replica) (author path : string) : Replica :=
  if accepts r author path then withDocs r (alter wiped path (docs r))
  else r.

End Store.

(** ** Asynchronous store mutations

    A [write] runs against the replica and ends in one of three ways: its
    promise is fulfilled, its promise is rejected, or (for a function that
    is not [async]) it throws before returning a promise.  The replica is
    threaded through, so the mutations made before a failure stay. *)

Inductive Outcome : Type :=
| Fulfilled
| Rejected (e : Error)
| Thrown (e : Error).

Definition Write : Type := Replica → Replica * Outcome.

(** An [async] function never throws: what its body throws rejects the
    promise it returns. *)
Definition async (w : Write) : Write := λ r,
  match w r with
  | (r', Thrown e) => (r', Rejected e)
  | other => other
  end.

(** [requireWriteSuccess] of util.ts, with the thrown value
    [event.err ?? new Error(event.reason)]. *)
Definition requireWriteSuccess (event : IngestEvent) : Outcome :=
  match event with
  | IngestFailure reason => Thrown (MkError "Error" reason)
  | IngestSuccess => Fulfilled
  end.

(** [Promise.all(items.map(f))] awaited: the calls are made one after the
    other, in the order of the array.  A call that throws ends the [map]
    at once, so the later calls are never made; a rejected promise does
    not stop the later calls, and the first rejection is the result.  The
    operations started are applied in the order of the calls. *)
Fixpoint promiseAllMap {A : Type} (f : A → Write) (items : list A)
    (rejection : option Error) : Write := λ r,
  match items with
  | [] => (r, match rejection with Some e => Rejected e | None => Fulfilled end)
  | x :: rest =>
      match f x r with
      | (r', Thrown e) => (r', Thrown e)
      | (r', Rejected e) =>
          promiseAllMap f rest (match rejection with Some e0 => Some e0 | None => Some e end) r'
      | (r', Fulfilled) => promiseAllMap f rest rejection r'
      end
  end.

(** [wipeDocsUnderPath] of util.ts. *)
Definition wipeDocsUnderPath (author path : string) : Write := λ r,
  let subpaths := Store.queryPaths r (MkFilter (Some (path +:+ "/")) None) in
  (Store.wipeDocAtPath
     (foldl (λ r' p, Store.wipeDocAtPath r' author p) r subpaths)
     author path,
   Fulfilled).

(** ** Schema nodes: the abstract class [EsType] *)

Record ReduceProps : Type := MkReduceProps {
  rp_replica : Replica;
  rp_pathComponents : list string;
  rp_requestedPath : option string;
  rp_prev : JsVal;
  rp_doc : Doc
}.

Record WriteProps : Type := MkWriteProps {
  wp_author : string;
  wp_path : string;
  wp_data : JsVal
}.

(** A schema node is given by its two abstract methods; [getContentPrefix]
    is a method a subclass may override. *)
Record EsType : Type := MkEsType {
  reduce : ReduceProps → Res JsVal;
  write : WriteProps → Write;
  getContentPrefix : string → string
}.

(** [EsType.getContentPrefix] of the base class. *)
Definition baseContentPrefix (path : string) : string :=
  if Str.endsWith path "/" then path +:+ "/" else path.

(** The documents [read] folds: [[root, ...contents]] without the absent
    entries. *)
Definition readDocs (t : EsType) (r : Replica) (path : string) : list Doc :=
  let contentsPrefix := getContentPrefix t path in
  let root := Store.getLatestDocAtPath r (Str.stripTrailingSlash contentsPrefix) in
  let contents := Store.queryDocs r (MkFilter (Some contentsPrefix) None) in
  match root with
  | Some d => d :: contents
  | None => contents
  end.

(** One turn of the loop of [read]. *)
Definition readStep (t : EsType) (r : Replica) (path : string)
    (result : JsVal) (doc : Doc) : Res JsVal :=
  let contentsPrefix := getContentPrefix t path in
  reduce t
    (MkReduceProps r
       (splitPath (Str.substringFrom (String.length contentsPrefix) (doc_path doc)))
       (Some path) result doc).

Fixpoint foldRes {A B : Type} (f : A → B → Res A) (l : list B) (a : A) : Res A :=
  match l with
  | [] => Ok a
  | x :: rest => a' ← f a x; foldRes f rest a'
  end.

(** [EsType.read] *)
Definition read (t : EsType) (r : Replica) (path : string) : Res JsVal :=
  foldRes (readStep t r path) (readDocs t r path) VNull.


(** ** Atoms (atoms.ts) *)

(** The [encode]/[decode] pair of an atom.  Both are JavaScript functions
    and may throw. *)
Record Codec : Type := MkCodec {
  encode : JsVal → Res string;
  decode : string → Res JsVal
}.

Definition Atom_reduce (codec : Codec) (props : ReduceProps) : Res JsVal :=
  let doc := rp_doc props in
  if String.eqb (doc_text doc) "" then Ok VNull
  else decode codec (doc_text doc).

Definition Atom_write (codec : Codec) (props : WriteProps) : Write :=
  async (λ r,
    let text :=
      if Js.isNull (wp_data props) then Ok "" else encode codec (wp_data props) in
    match text with
    | Fail e => (r, Thrown e)
    | Ok text =>
        let '(r', event) := Store.set r (wp_author props) (wp_path props) text None in
        (r', requireWriteSuccess event)
    end).

(** [class Atom<T> extends EsType<T>] *)
Definition Atom (codec : Codec) : EsType :=
  MkEsType (Atom_reduce codec) (Atom_write codec) baseContentPrefix.

(** A codec is typed by TypeScript; a value of another type is outside
    the typed interface and is reported as such. *)
Definition illTyped : Error := MkError "OutsideModel" "value outside the static type".

(** Conversions the platform does outside the part modelled here. *)
Definition unmodelled (what : string) : Error := MkError "OutsideModel" what.

Module Decimal10.

Definition print (z : Z) : string := NilZero.string_of_int (Z.to_int z).

Definition parse (s : string) : option Z :=
  Z.of_int <$> NilZero.int_of_string s.

End Decimal10.

(** [Number.MAX_SAFE_INTEGER] *)
Definition MAX_SAFE_INTEGER : Z := 9007199254740991.

Definition isSafeInteger (z : Z) : bool :=
  (- MAX_SAFE_INTEGER <=? z)%Z && (z <=? MAX_SAFE_INTEGER)%Z.

(** [String(x)] for a number [x] that is a safe integer: its decimal
    digits, with a minus sign below zero. *)
Definition numberToString (v : JsVal) : Res string :=
  match v with
  | VNum z =>
      if isSafeInteger z then Ok (Decimal10.print z)
      else Fail (unmodelled "String of a number beyond the safe integers")
  | _ => Fail illTyped
  end.

(** [Number(text)] where the text is an optional minus sign and decimal
    digits standing for a safe integer; minus zero, fractions, exponents
    and the other literals are left out of the model. *)
Definition stringToNumber (text : string) : Res JsVal :=
  match Decimal10.parse text with
  | Some z =>
      if isSafeInteger z && negb ((z =? 0)%Z && Str.startsWith text "-")
      then Ok (VNum z)
      else Fail (unmodelled "Number of text that is not a safe integer")
  | None => Fail (unmodelled "Number of text that is not a decimal integer")
  end.

(** [String(x)] for a bigint [x]. *)
Definition bigintToString (v : JsVal) : Res string :=
  match v with
  | VBigInt z => Ok (Decimal10.print z)
  | _ => Fail illTyped
  end.

(** [BigInt(text)] for an optional minus sign and decimal digits; text
    that is no integer literal throws a SyntaxError.  (Surrounding white
    space, a plus sign and the literals of other bases are accepted by
    the platform and are not modelled.) *)
Definition stringToBigInt (text : string) : Res JsVal :=
  match Decimal10.parse text with
  | Some z => Ok (VBigInt z)
  | None => Fail (MkError "SyntaxError" "Cannot convert text to a BigInt")
  end.

(** [export const string]: [encode: x => x], [decode: x => x]. *)
Definition es_string : EsType :=
  Atom (MkCodec
    (λ x, match x with VStr s => Ok s | _ => Fail illTyped end)
    (λ x, Ok (VStr x))).

(** [export const number]: [encode: String], [decode: Number]. *)
Definition es_number : EsType :=
  Atom (MkCodec numberToString stringToNumber).

(** [export const bigint]: [encode: String], [decode: BigInt]. *)
Definition es_bigint : EsType :=
  Atom (MkCodec bigintToString stringToBigInt).

(** [export const boolean]: [encode: x => x ? '1' : '0'],
    [decode: x => x === '1']. *)
Definition es_boolean : EsType :=
  Atom (MkCodec
    (λ x, Ok (if Js.truthy x then "1" else "0"))
    (λ x, Ok (VBool (String.eqb x "1")))).

(** ** Date-times

    [Date.prototype.toISOString] and [new Date(text)] of the platform, as
    ECMA-262 defines them (section 21.4.1), on time values in
    milliseconds since the epoch. *)

Module DateTime.

#[local] Open Scope Z_scope.

Definition msPerDay : Z := 86400000.
Definition msPerHour : Z := 3600000.
Definition msPerMinute : Z := 60000.
Definition msPerSecond : Z := 1000.

(** The largest time value a Date holds: 8.64e15. *)
Definition maxTime : Z := 8640000000000000.

Definition inRange (t : Z) : bool := (- maxTime <=? t) && (t <=? maxTime).

Definition Day (t : Z) : Z := t / msPerDay.
Definition TimeWithinDay (t : Z) : Z := t mod msPerDay.

Definition DaysInYear (y : Z) : Z :=
  if negb (y mod 4 =? 0) then 365
  else if negb (y mod 100 =? 0) then 366
  else if negb (y mod 400 =? 0) then 365
  else 366.

Definition DayFromYear (y : Z) : Z :=
  365 * (y - 1970) + (y - 1969) / 4 - (y - 1901) / 100 + (y - 1601) / 400.

(** [YearFromTime]: the largest [y] with [DayFromYear y <= Day t],
    computed from an estimate that is off by one year at most. *)
Definition YearFromDay (d : Z) : Z :=
  let y := 1970 + (400 * d) / 146097 in
  if DayFromYear (y + 1) <=? d then y + 1
  else if DayFromYear y <=? d then y
  else y - 1.

Definition YearFromTime (t : Z) : Z := YearFromDay (Day t).

Definition InLeapYear (y : Z) : Z := if DaysInYear y =? 366 then 1 else 0.

Definition DayWithinYear (t : Z) : Z := Day t - DayFromYear (YearFromTime t).

(** The day of the year a month starts at; months count from 0. *)
Definition monthStart (leap m : Z) : Z :=
  if m <=? 0 then 0
  else if m =? 1 then 31
  else if m =? 2 then 59 + leap
  else if m =? 3 then 90 + leap
  else if m =? 4 then 120 + leap
  else if m =? 5 then 151 + leap
  else if m =? 6 then 181 + leap
  else if m =? 7 then 212 + leap
  else if m =? 8 then 243 + leap
  else if m =? 9 then 273 + leap
  else if m =? 10 then 304 + leap
  else if m =? 11 then 334 + leap
  else 365 + leap.

Definition monthOfDay (leap d : Z) : Z :=
  if d <? 31 then 0
  else if d <? 59 + leap then 1
  else if d <? 90 + leap then 2
  else if d <? 120 + leap then 3
  else if d <? 151 + leap then 4
  else if d <? 181 + leap then 5
  else if d <? 212 + leap then 6
  else if d <? 243 + leap then 7
  else if d <? 273 + leap then 8
  else if d <? 304 + leap then 9
  else if d <? 334 + leap then 10
  else 11.

Definition MonthFromTime (t : Z) : Z :=
  monthOfDay (InLeapYear (YearFromTime t)) (DayWithinYear t).

Definition DateFromTime (t : Z) : Z :=
  DayWithinYear t - monthStart (InLeapYear (YearFromTime t)) (MonthFromTime t) + 1.

Definition HourFromTime (t : Z) : Z := (t / msPerHour) mod 24.
Definition MinFromTime (t : Z) : Z := (t / msPerMinute) mod 60.
Definition SecFromTime (t : Z) : Z := (t / msPerSecond) mod 60.
Definition msFromTime (t : Z) : Z := t mod msPerSecond.

Definition MakeTime (hour min sec ms : Z) : Z :=
  hour * msPerHour + min * msPerMinute + sec * msPerSecond + ms.

(** [MakeDay] for a month in 0..11: the day the month starts at, plus the
    date. *)
Definition MakeDay (year month date : Z) : Z :=
  DayFromYear year + monthStart (InLeapYear year) month + date - 1.

Definition MakeDate (day time : Z) : Z := day * msPerDay + time.

(** [TimeClip] *)
Definition TimeClip (t : Z) : option Z := if inRange t then Some t else None.

Definition digitChar (d : Z) : ascii := ascii_of_nat (48 + Z.to_nat d).

Definition digitValue (c : ascii) : option Z :=
  if Uri.inRange "0" "9" c then Some (Z.of_nat (nat_of_ascii c) - 48) else None.

(** The last [width] decimal digits of [n], the most significant first. *)
Fixpoint digits (width : nat) (n : Z) : string :=
  match width with
  | O => EmptyString
  | S w => String (digitChar ((n / 10 ^ Z.of_nat w) mod 10)) (digits w n)
  end.

(** The year of the date-time string format: four digits from 0 to 9999,
    else a sign and six digits. *)
Definition yearString (y : Z) : string :=
  if (0 <=? y) && (y <=? 9999) then digits 4 y
  else String (if 0 <=? y then "+"%char else "-"%char) (digits 6 (Z.abs y)).

(** [toISOString] of a time value: YYYY-MM-DDTHH:mm:ss.sssZ *)
Definition isoString (t : Z) : string :=
  yearString (YearFromTime t) +:+ "-" +:+ digits 2 (MonthFromTime t + 1) +:+ "-" +:+
  digits 2 (DateFromTime t) +:+ "T" +:+ digits 2 (HourFromTime t) +:+ ":" +:+
  digits 2 (MinFromTime t) +:+ ":" +:+ digits 2 (SecFromTime t) +:+ "." +:+
  digits 3 (msFromTime t) +:+ "Z".

(** [x.toISOString()]: a RangeError for an invalid date. *)
Definition toISOString (v : JsVal) : Res string :=
  match v with
  | VDate (Some t) => if inRange t then Ok (isoString t) else Fail illTyped
  | VDate None => Fail (MkError "RangeError" "Invalid time value")
  | _ => Fail illTyped
  end.

Fixpoint takeDigits (n : nat) (acc : Z) (s : string) : option (Z * string) :=
  match n with
  | O => Some (acc, s)
  | S n' =>
      match s with
      | String c s' => d ← digitValue c; takeDigits n' (10 * acc + d) s'
      | EmptyString => None
      end
  end.

Definition expect (c : ascii) (s : string) : option string :=
  match s with
  | String c' s' => if Ascii.eqb c c' then Some s' else None
  | EmptyString => None
  end.

Definition takeYear (s : string) : option (Z * string) :=
  match s with
  | String c s' =>
      if Ascii.eqb c "+" then takeDigits 6 0 s'
      else if Ascii.eqb c "-" then
        '(y, rest) ← takeDigits 6 0 s';
        if y =? 0 then None else Some (- y, rest)
      else takeDigits 4 0 s
  | EmptyString => None
  end.

Record Fields : Type := MkFields {
  f_year : Z; f_month : Z; f_date : Z;
  f_hour : Z; f_min : Z; f_sec : Z; f_ms : Z
}.

(** The fields of a complete date-time string in UTC. *)
Definition takeFields (s : string) : option Fields :=
  '(year, s) ← takeYear s;
  s ← expect "-" s;
  '(month, s) ← takeDigits 2 0 s;
  s ← expect "-" s;
  '(date, s) ← takeDigits 2 0 s;
  s ← expect "T" s;
  '(hour, s) ← takeDigits 2 0 s;
  s ← expect ":" s;
  '(min, s) ← takeDigits 2 0 s;
  s ← expect ":" s;
  '(sec, s) ← takeDigits 2 0 s;
  s ← expect "." s;
  '(ms, s) ← takeDigits 3 0 s;
  s ← expect "Z" s;
  if String.eqb s "" then Some (MkFields year month date hour min sec ms) else None.

Definition DaysInMonth (year month : Z) : Z :=
  monthStart (InLeapYear year) (month + 1) - monthStart (InLeapYear year) month.

Definition validFields (f : Fields) : bool :=
  (1 <=? f_month f) && (f_month f <=? 12) &&
  (1 <=? f_date f) && (f_date f <=? DaysInMonth (f_year f) (f_month f - 1)) &&
  (f_hour f <=? 23) && (f_min f <=? 59) && (f_sec f <=? 59).

(** [new Date(text)] for a complete date-time string in UTC with every
    field in its range.  Text of another form is parsed in a way each
    implementation chooses, which is not modelled. *)
Definition parse (text : string) : Res JsVal :=
  match takeFields text with
  | Some f =>
      if validFields f then
        Ok (VDate (TimeClip
              (MakeDate (MakeDay (f_year f) (f_month f - 1) (f_date f))
                        (MakeTime (f_hour f) (f_min f) (f_sec f) (f_ms f)))))
      else Fail (unmodelled "Date of text with a field out of range")
  | None => Fail (unmodelled "Date of text that is no complete UTC date-time")
  end.

End DateTime.

(** [export const datetime]: [encode: x => x.toISOString()],
    [decode: x => new Date(x)]. *)
Definition es_datetime : EsType :=
  Atom (MkCodec DateTime.toISOString DateTime.parse).

(** ** Objects (object.ts) *)

(** [const SELF_SIGIL = '@self'] *)
Definition SELF_SIGIL : string := "@self".

(** Calling [attrSchema.reduce] when [attrSchema] is a member of
    [Object.prototype], which has no [reduce]. *)
Definition notAFunction : Error :=
  MkError "TypeError" "attrSchema.reduce is not a function".

(** The shape of an object type: a plain object from field keys to schema
    nodes.  (A key declared with the value [undefined] behaves like an
    absent key in [reduce] and in [write], and is left out.) *)
Definition ObjectType_reduce (shape : gmap string EsType) (props : ReduceProps)
    : Res JsVal :=
  let attrKey := default SELF_SIGIL (head (rp_pathComponents props)) in
  let remainingPath := tail (rp_pathComponents props) in
  let prev := rp_prev props in
  (* [this.shape[attrKey]] follows the prototype chain of the shape *)
  match shape !! attrKey with
  | None => if inherited attrKey then Fail notAFunction else Ok prev
  | Some attrSchema =>
      val ← reduce attrSchema
              (MkReduceProps (rp_replica props) remainingPath None
                 (Js.getOpt prev attrKey) (rp_doc props));
      if Js.isNull val then
        copy ← Js.assign (Js.orElse prev (VObj ∅));
        let next := delete attrKey copy in
        if isEmptyObject next then Ok VNull else Ok (VObj next)
      else Ok (VObj (<[attrKey := val]> (Js.ownProps prev)))
  end.

(** The path a field is written at. *)
Definition nextPath (path key : string) : string :=
  if String.eqb key SELF_SIGIL then path else path +:+ "/" +:+ key.

(** The callback of [Object.entries(this.shape).map] in [write]. *)
Definition ObjectType_writeField (props : WriteProps) (entry : string * EsType)
    : Write :=
  let data := wp_data props in
  let key := entry.1 in
  if Js.truthy data && negb (Js.isUndefined (Js.get data key)) then
    write entry.2 (MkWriteProps (wp_author props) (nextPath (wp_path props) key)
                     (Js.get data key))
  else λ r, (r, Fulfilled).

Definition ObjectType_write (shape : gmap string EsType) (props : WriteProps)
    : Write :=
  async (
    if Js.isNull (wp_data props) then
      wipeDocsUnderPath (wp_author props) (wp_path props)
    else
      promiseAllMap (ObjectType_writeField props) (map_to_list shape) None).

(** [class ObjectType<T>], built by [object(shape)]. *)
Definition ObjectType (shape : gmap string EsType) : EsType :=
  MkEsType (ObjectType_reduce shape) (ObjectType_write shape) baseContentPrefix.

(** ** Collections (types/collection.ts) *)

(** The removal shared by the two branches of [CollectionType.reduce]. *)
Definition CollectionType_remove (prev : JsVal) (key : string) : Res JsVal :=
  copy ← Js.assign prev;
  let next := delete key copy in
  if isEmptyObject next then Ok VNull else Ok (VObj next).

Definition CollectionType_reduce (valueType : EsType) (props : ReduceProps)
    : Res JsVal :=
  let rawKey := head (rp_pathComponents props) in
  let remainingPath := tail (rp_pathComponents props) in
  let prev := rp_prev props in
  key ← Uri.decodeURIComponent rawKey;
  if negb (Str.nonEmpty (doc_text (rp_doc props))) then
    CollectionType_remove prev key
  else
    inner ← reduce valueType
              (MkReduceProps (rp_replica props) remainingPath None
                 (Js.orElse (Js.getOpt prev key) VNull) (rp_doc props));
    if Js.isNull inner then CollectionType_remove prev key
    else Ok (VObj (<[key := inner]> (Js.ownProps prev))).

Definition CollectionType_write (valueType : EsType) (props : WriteProps)
    : Write :=
  async (
    if negb (Js.truthy (wp_data props)) then
      wipeDocsUnderPath (wp_author props) (wp_path props)
    else
      promiseAllMap
        (λ entry : string * JsVal,
           write valueType
             (MkWriteProps (wp_author props)
                (wp_path props +:+ "/" +:+ Uri.encodeURIComponent entry.1)
                entry.2))
        (Js.entries (wp_data props)) None).

(** [class CollectionType<T>] *)
Definition CollectionType (valueType : EsType) : EsType :=
  MkEsType (CollectionType_reduce valueType) (CollectionType_write valueType)
    baseContentPrefix.

(** [export const set]: a collection of
    [new Atom<true>({ encode: x => x ? '1' : '', decode: () => true })]. *)
Definition es_set : EsType :=
  CollectionType (Atom (MkCodec
    (λ x, Ok (if Js.truthy x then "1" else ""))
    (λ _, Ok (VBool true)))).

(** [export function dict(valueSchema)] *)
Definition dict (valueSchema : EsType) : EsType := CollectionType valueSchema.

Record FindByCollectionKeyOpts : Type := MkFindOpts {
  opt_replica : Replica;
  collectionPrefix : option string;
  opt_filter : QueryFilter
}.

(** [x + '/'] for an optional string [x]: [undefined] is converted to
    ["undefined"]. *)
Definition stringOfOptional (x : option string) : string :=
  match x with
  | Some s => s
  | None => "undefined"
  end.

(** The [pathEnding] of [findByCollectionKey]. *)
Definition pathEnding (key : string) (opts : FindByCollectionKeyOpts) : string :=
  stringOfOptional (collectionPrefix opts) +:+ "/" +:+ Uri.encodeURIComponent key.

(** The filter [findByCollectionKey] queries with:
    [{ ...opts.filter, pathEndsWith: pathEnding }]. *)
Definition findFilter (key : string) (opts : FindByCollectionKeyOpts) : QueryFilter :=
  MkFilter (pathStartsWith (opt_filter opts)) (Some (pathEnding key opts)).

(** [export async function findByCollectionKey(key, opts)] *)
Definition findByCollectionKey (key : string) (opts : FindByCollectionKeyOpts)
    : list string :=
  let relationPaths := Store.queryPaths (opt_replica opts) (findFilter key opts) in
  (λ path, Str.sliceTo (String.length path - String.length (pathEnding key opts)) path)
    <$> relationPaths.

(** ** Attachments (types/attachment.ts) *)

Definition AttachmentType_reduce (props : ReduceProps) : Res JsVal :=
  let doc := rp_doc props in
  match attachments (rp_replica props) doc with
  | AttachmentError e => Fail e
  | AttachmentAbsent => Ok VNull
  | AttachmentFound bytes =>
      Ok (VObj (<["metadata" := VStr (doc_text doc)]>
                  (<["attachment" := VBlob bytes]> ∅)))
  end.

Definition AttachmentType_write (props : WriteProps) : Write :=
  async (λ r,
    let data := wp_data props in
    if negb (Js.truthy data) then
      (Store.wipeDocAtPath r (wp_author props) (wp_path props), Fulfilled)
    else
      match Js.get data "metadata", Js.get data "attachment" with
      | VStr metadata, VBlob bytes =>
          let '(r', event) :=
            Store.set r (wp_author props) (wp_path props) metadata (Some bytes) in
          (r', requireWriteSuccess event)
      | _, _ => (r, Thrown illTyped)
      end).

(** [class AttachmentType] and [export const attachment] *)
Definition AttachmentType : EsType :=
  MkEsType AttachmentType_reduce AttachmentType_write baseContentPrefix.

(** ** Read-only metadata (types/metadata.ts) *)

Definition readOnlyError : Error :=
  MkError "Error" "Attempted to write to a read-only metadata value".

(** [MetadataType.write]: not [async], so the error is thrown to the
    caller. *)
Definition MetadataType_write (props : WriteProps) : Write :=
  λ r, (r, Thrown readOnlyError).

(** [class MetadataType<T>]: [reduce] is the function given to the
    constructor. *)
Definition MetadataType (reduceFn : ReduceProps → Res JsVal) : EsType :=
  MkEsType reduceFn MetadataType_write baseContentPrefix.

(** [export const docSlug]: the last component of [doc.path.split('/')]. *)
Definition docSlug : EsType :=
  MetadataType (λ props, Ok (VStr (List.last (Str.split (doc_path (rp_doc props))) ""))).

(** [export const docPath] *)
Definition docPath : EsType :=
  MetadataType (λ props, Ok (VStr (doc_path (rp_doc props)))).

(** [export function metadata(shape)]: one property per key of the shape,
    each reduced from the same props.  (The source does not await the
    reducers; this is their value for the reducers that are not
    [async], the atoms and the metadata types.) *)
Definition metadata (shape : gmap string EsType) : EsType :=
  MetadataType (λ props,
    m ← foldRes
          (λ (acc : gmap string JsVal) (entry : string * EsType),
             v ← reduce entry.2 props; Ok (<[entry.1 := v]> acc))
          (map_to_list shape) ∅;
    Ok (VObj m)).

(** ** Live views (live.ts) *)

(** Modelled from the spec: the events of [getEventStream()], of kind
    success, expire or other, with their document. *)
Inductive EventKind : Type :=
| KindSuccess
| KindExpire
| KindOther.

Record ReplicaEvent : Type := MkEvent {
  ev_kind : EventKind;
  ev_doc : Doc
}.

(** What [await this.replicaEvents.read()] resolves to. *)
Inductive StreamRead : Type :=
| ReadDone
| ReadValue (event : ReplicaEvent).

(** The state of a [LiveQuery].  [lq_replicaEvents] tells whether the
    field [replicaEvents] holds a reader; [lq_running] tells whether the
    loop of [run] is still waiting for events; the observers are counted,
    and the values they were called with are logged, oldest first. *)
Record LiveQuery : Type := MkLiveQuery {
  lq_schema : EsType;
  lq_contentPrefix : string;
  lq_requestedPath : string;
  lq_rootPath : string;
  lq_value : JsVal;
  lq_replicaEvents : bool;
  lq_running : bool;
  lq_observers : nat;
  lq_notified : list JsVal
}.

Module Live.

Definition withRun (q : LiveQuery) (replicaEvents running : bool) : LiveQuery :=
  MkLiveQuery (lq_schema q) (lq_contentPrefix q) (lq_requestedPath q)
    (lq_rootPath q) (lq_value q) replicaEvents running (lq_observers q)
    (lq_notified q).

Definition withObservers (q : LiveQuery) (n : nat) : LiveQuery :=
  MkLiveQuery (lq_schema q) (lq_contentPrefix q) (lq_requestedPath q)
    (lq_rootPath q) (lq_value q) (lq_replicaEvents q) (lq_running q) n
    (lq_notified q).

(** [snapshot()] *)
Definition snapshot (q : LiveQuery) : JsVal := lq_value q.

(** [get isClosed()]: [!this.replicaEvents] *)
Definition isClosed (q : LiveQuery) : bool := negb (lq_replicaEvents q).

(** [handleDoc(doc)]; the replica is the one the view holds, in its state
    at the time of the event. *)
Definition handleDoc (replica : Replica) (q : LiveQuery) (doc : Doc) : Res LiveQuery :=
  if negb (String.eqb (doc_path doc) (lq_rootPath q)) &&
     negb (Str.startsWith (doc_path doc) (lq_contentPrefix q))
  then Ok q
  else
    value ← reduce (lq_schema q)
              (MkReduceProps replica
                 (splitPath (Str.substringFrom (String.length (lq_contentPrefix q))
                               (doc_path doc)))
                 (Some (lq_requestedPath q)) (lq_value q) doc);
    Ok (MkLiveQuery (lq_schema q) (lq_contentPrefix q) (lq_requestedPath q)
          (lq_rootPath q) value (lq_replicaEvents q) (lq_running q)
          (lq_observers q)
          (lq_notified q ++ replicate (lq_observers q) value)).

(** One turn of the loop of [run]: what the view does with the next
    message of the stream.  [return] leaves the loop and nothing else;
    an exception of [handleDoc] rejects the promise of [run], which
    leaves the loop too. *)
Definition runTurn (replica : Replica) (q : LiveQuery) (msg : StreamRead) : LiveQuery :=
  if negb (lq_running q) then q
  else
    match msg with
    | ReadDone => withRun q (lq_replicaEvents q) false
    | ReadValue event =>
        match ev_kind event with
        | KindSuccess | KindExpire =>
            if negb (String.eqb (doc_format (ev_doc event)) "es.5") then
              withRun q (lq_replicaEvents q) false
            else
              match handleDoc replica q (ev_doc event) with
              | Ok q' => q'
              | Fail _ => withRun q (lq_replicaEvents q) false
              end
        | KindOther => q
        end
    end.

(** The loop of [run] over the messages that arrive. *)
Definition runLoop (replica : Replica) (q : LiveQuery) (msgs : list StreamRead) : LiveQuery :=
  foldl (runTurn replica) q msgs.

(** [run()] up to its first [await]. *)
Definition run (q : LiveQuery) : Res LiveQuery :=
  if lq_replicaEvents q then
    Fail (MkError "Error" "Attempting to start liveQuery while already active")
  else Ok (withRun q true true).

(** [close()]: cancelling the reader ends a pending read, so the loop
    ends as well. *)
Definition close (q : LiveQuery) : LiveQuery :=
  withRun (withObservers q 0) false false.

(** [subscribe(onChange)] *)
Definition subscribe (q : LiveQuery) : LiveQuery :=
  let q' := withObservers q (S (lq_observers q)) in
  if isClosed q' then withRun q' true true else q'.

(** The function [subscribe] returns. *)
Definition unsubscribe (q : LiveQuery) : LiveQuery :=
  let q' := withObservers q (pred (lq_observers q)) in
  if (lq_observers q' =? 0)%nat then close q' else q'.

(** [new LiveQuery(schema, contentPrefix, requestedPath, replica, value)] *)
Definition create (schema : EsType) (contentPrefix requestedPath : string)
    (value : JsVal) : LiveQuery :=
  MkLiveQuery schema contentPrefix requestedPath
    (Str.stripTrailingSlash contentPrefix) value true true 0 [].

End Live.

(** [EsType.observe] *)
Definition observe (t : EsType) (r : Replica) (path : string) : Res LiveQuery :=
  let contentPrefix := getContentPrefix t path in
  initial ← read t r contentPrefix;
  Ok (Live.create t contentPrefix path initial).

(** ** Examples of replicas and schemas *)

(** A replica that accepts every write and holds no attachment. *)
Definition emptyReplica : Replica :=
  MkReplica ∅ (λ _, AttachmentAbsent) (λ _ _, true).

Definition replicaOf (l : list (string * string)) : Replica :=
  MkReplica (list_to_map (List.map (λ kv, (kv.1, MkBody kv.2 "es.5" None)) l))
    (λ _, AttachmentAbsent) (λ _ _, true).

(** The schemas of the test suite. *)
Definition titledShape : gmap string EsType :=
  <["@self" := es_string]> (<["title" := es_string]> ∅).

Definition titled : EsType := ObjectType titledShape.

Definition titleOnly : EsType := ObjectType (<["title" := es_string]> ∅).

(** A document of the current format without attachment. *)
Definition textDoc (path text : string) : Doc := MkDoc path text "es.5" None.

(** ** Notions used to state the properties *)




(** [q] is [path] itself or a path strictly under it. *)
Definition atOrUnder (path q : string) : bool :=
  String.eqb q path || Str.startsWith q (path +:+ "/").

(** The documents of a field of an object at [path]: for the self field
    the document at [path]; for another field the document at its subpath
    and the documents under it. *)
Definition fieldDocs (path key q : string) : bool :=
  if String.eqb key SELF_SIGIL then String.eqb q path
  else atOrUnder (path +:+ "/" +:+ key) q.

(** A write leaves the document of [q] as it was. *)
Definition preserves (w : Write) (q : string) : Prop :=
  ∀ r, docs (w r).1 !! q = docs r !! q.

(** A schema node whose write at a path touches that path and the paths
    under it only. *)
Definition Confined (t : EsType) : Prop :=
  ∀ props q, atOrUnder (wp_path props) q = false → preserves (write t props) q.

(** A schema node whose write at a path touches the document of that path
    only. *)
Definition SingleDoc (t : EsType) : Prop :=
  ∀ props q, q ≠ wp_path props → preserves (write t props) q.

(** The fields of a shape keep to their own documents: no key contains a
    slash, the self field writes the root document only, every other
    field writes at or under its subpath only. *)
Definition fieldsKeepToTheirDocs (shape : gmap string EsType) : Prop :=
  (∀ key t, shape !! key = Some t → Str.lacks "/" key = true) ∧
  (∀ key t, shape !! key = Some t → key ≠ SELF_SIGIL → Confined t) ∧
  (∀ t, shape !! SELF_SIGIL = Some t → SingleDoc t).

(** An object whose self field is itself an object. *)
Definition selfObjectShape : gmap string EsType :=
  <["@self" := ObjectType (<["note" := es_string]> ∅)]> (<["title" := es_string]> ∅).

(** An object with a field key that contains a slash. *)
Definition slashKeyShape : gmap string EsType :=
  <["tags" := dict es_string]> (<["tags/main" := es_string]> ∅).

(** The object of the test suite after its first write. *)
Definition someObject : Replica :=
  (write titled
     (MkWriteProps "me" "/someObject"
        (VObj (<["@self" := VStr "hello"]> (<["title" := VStr "SomeObject"]> ∅))))
     emptyReplica).1.

(** The values of the built-in atoms that the round trip is stated for:
    the strings other than the empty one, the numbers that are safe
    integers, the bigints, the booleans and the valid dates. *)
Inductive atomValue : EsType → JsVal → Prop :=
| StringValue (s : string) : s ≠ "" → atomValue es_string (VStr s)
| NumberValue (z : Z) : isSafeInteger z = true → atomValue es_number (VNum z)
| BigIntValue (z : Z) : atomValue es_bigint (VBigInt z)
| BooleanValue (b : bool) : atomValue es_boolean (VBool b)
| DateValue (t : Z) : DateTime.inRange t = true → atomValue es_datetime (VDate (Some t)).

(** No stored document other than the one at [path] has a path that
    starts with [path]. *)
Definition aloneAt (r : Replica) (path : string) : Prop :=
  ∀ q, is_Some (docs r !! q) → Str.startsWith q path = true → q = path.

(** ** The format wrapper (types/app-format.ts) *)

(** [Array.prototype.join('/')] *)
Fixpoint joinPath (segments : list string) : string :=
  match segments with
  | [] => ""
  | [s] => s
  | s :: rest => s +:+ "/" +:+ joinPath rest
  end.

(** [interface ApplicationFormat]; the two numbers are taken to be safe
    integers, which a template literal prints in decimal. *)
Record ApplicationFormat : Type := MkFormat {
  namespace : string;
  major : Z;
  minor : Z
}.

Definition isDigit (c : ascii) : bool := Uri.inRange "0" "9" c.

Fixpoint allDigits (s : string) : bool :=
  match s with
  | EmptyString => true
  | String c s' => isDigit c && allDigits s'
  end.

(** What [Number(x)] is for a path segment [x], or for [undefined], as far
    as the comparison with a safe integer needs it: not a number when [x]
    is [undefined] or begins with a letter other than "I"; the integer
    written when [x] consists of decimal digits (then the comparison with
    a safe integer is the one of the integers, however many digits there
    are); the other forms of numeric text are left out of the model. *)
Inductive SegmentNumber : Type :=
| SegNaN
| SegInt (z : Z)
| SegUnmodelled.

Definition numberOfSegment (x : option string) : SegmentNumber :=
  match x with
  | None => SegNaN
  | Some EmptyString => SegInt 0
  | Some (String c _ as s) =>
      if (Uri.inRange "a" "z" c || Uri.inRange "A" "Z" c) && negb (Ascii.eqb c "I")
      then SegNaN
      else if allDigits s then
        match Decimal10.parse s with
        | Some z => SegInt z
        | None => SegUnmodelled
        end
      else SegUnmodelled
  end.

(** The loop of [AppFormatType.reduce] over the components of the prefix:
    the rest of the path once every component of the prefix is found at
    its head, nothing when one is missing or differs. *)
Fixpoint stripComponents (prefix rest : list string) : option (list string) :=
  match prefix with
  | [] => Some rest
  | p :: prefix' =>
      match rest with
      | [] => None
      | x :: rest' => if String.eqb x p then stripComponents prefix' rest' else None
      end
  end.

Definition AppFormatType_reduce (schema : EsType) (format : ApplicationFormat)
    (prefix : string) (props : ReduceProps) : Res JsVal :=
  let minorVersionStr := head (rp_pathComponents props) in
  let restPath := tail (rp_pathComponents props) in
  newer ←
    match numberOfSegment minorVersionStr with
    | SegNaN => Ok false
    | SegInt z => Ok (minor format <? z)%Z
    | SegUnmodelled => Fail (unmodelled "Number of a path segment")
    end;
  if (newer : bool) then Ok (rp_prev props)
  else
    match stripComponents (splitPath prefix) restPath with
    | None => Ok (rp_prev props)
    | Some remaining =>
        reduce schema
          (MkReduceProps (rp_replica props) remaining (rp_requestedPath props)
             (rp_prev props) (rp_doc props))
    end.

(** [AppFormatType.getContentPrefix()]: the namespace and the major
    version, up to the dot. *)
Definition formatRoot (format : ApplicationFormat) : string :=
  "/" +:+ namespace format +:+ "/" +:+ Decimal10.print (major format) +:+ ".".

(** The path [AppFormatType.write] writes at. *)
Definition formatPath (format : ApplicationFormat) (prefix path : string) : string :=
  formatRoot format +:+ Decimal10.print (minor format) +:+ "/" +:+
  joinPath (splitPath prefix ++ splitPath path).

(** [AppFormatType.write]: not [async]; it hands over what the inner
    [write] returns or throws. *)
Definition AppFormatType_write (schema : EsType) (format : ApplicationFormat)
    (prefix : string) (props : WriteProps) : Write :=
  write schema
    (MkWriteProps (wp_author props) (formatPath format prefix (wp_path props))
       (wp_data props)).

(** [class AppFormatType], built by [appFormat(schema, { prefix, format })]
    (an absent prefix is the empty string). *)
Definition AppFormatType (schema : EsType) (format : ApplicationFormat)
    (prefix : string) : EsType :=
  MkEsType (AppFormatType_reduce schema format prefix)
    (AppFormatType_write schema format prefix)
    (λ _, formatRoot format).

(** ** Further notions used to state the properties *)

(** The schema nodes built from atoms, attachments, metadata nodes,
    collections and objects. *)
Inductive Standard : EsType → Prop :=
| StandardAtom (codec : Codec) : Standard (Atom codec)
| StandardAttachment : Standard AttachmentType
| StandardMetadata (reduceFn : ReduceProps → Res JsVal) :
    Standard (MetadataType reduceFn)
| StandardCollection (valueType : EsType) :
    Standard valueType → Standard (CollectionType valueType)
| StandardObject (shape : gmap string EsType) :
    (∀ key t, shape !! key = Some t → Standard t) → Standard (ObjectType shape).

(** A path segment: not empty and without slash. *)
Definition isSegment (s : string) : bool := Str.nonEmpty s && Str.lacks "/" s.

(** No stored path starts with [prefix]. *)
Definition nothingUnder (r : Replica) (prefix : string) : Prop :=
  ∀ q, is_Some (docs r !! q) → Str.startsWith q prefix = false.

(** ** Notions for objects of atoms *)

(** The text [Atom.write] hands to [replica.set] for a value. *)
Definition atomText (codec : Codec) (x : JsVal) : Res string :=
  if Js.isNull x then Ok "" else encode codec x.

(** The value comes back from its text: it is not [null], its text is not
    empty, and the text decodes to the value. *)
Definition roundTrips (codec : Codec) (x : JsVal) : Prop :=
  Js.isNull x = false ∧
  ∃ text, encode codec x = Ok text ∧ text ≠ "" ∧ decode codec text = Ok x.

(** The condition under which [ObjectType.write] writes a field:
    [data && data[key] !== undefined]. *)
Definition present (data : JsVal) (key : string) : bool :=
  Js.truthy data && negb (Js.isUndefined (Js.get data key)).

(** Every field of the shape is an atom. *)
Definition atomShape (shape : gmap string EsType) : Prop :=
  ∀ key t, shape !! key = Some t → ∃ codec, t = Atom codec.

(** The fields of [data] that an object keeps: the declared fields that
    are present and not [null]. *)
Definition storedFields (shape : gmap string EsType) (data : JsVal)
    : gmap string JsVal :=
  map_imap
    (λ key _, if present data key && negb (Js.isNull (Js.get data key))
              then Some (Js.get data key) else None)
    shape.

(** The value [reduce] gives for the properties [a]: [null] when there is
    none. *)
Definition objectOf (a : gmap string JsVal) : JsVal :=
  if isEmptyObject a then VNull else VObj a.

(** The document [d] holds the text of a present field of [data] in an
    object of atoms at [path]. *)
Definition isFieldDoc (shape : gmap string EsType) (data : JsVal) (path : string)
    (d : Doc) : Prop :=
  ∃ key codec text,
    shape !! key = Some (Atom codec) ∧ present data key = true ∧
    doc_path d = nextPath path key ∧
    atomText codec (Js.get data key) = Ok text ∧ doc_text d = text.

(** ** Notions for collections of atoms *)

(** The string holds bytes below 128 only. *)
Fixpoint isAscii (s : string) : bool :=
  match s with
  | EmptyString => true
  | String c s' => (nat_of_ascii c <? 128)%nat && isAscii s'
  end.

(** The path [CollectionType.write] writes the entry of [key] at. *)
Definition entryPath (path key : string) : string :=
  path +:+ "/" +:+ Uri.encodeURIComponent key.

(** The atom stores a text that is not empty for the value. *)
Definition keptText (codec : Codec) (x : JsVal) : bool :=
  match atomText codec x with
  | Ok text => Str.nonEmpty text
  | Fail _ => false
  end.

(** The entries that a collection of atoms keeps: those whose text is not
    empty. *)
Definition storedEntries (codec : Codec) (m : gmap string JsVal)
    : gmap string JsVal :=
  filter (λ kv, keptText codec kv.2 = true) m.

(** The document [d] holds the text of an entry of [m] in a collection of
    atoms at [path]. *)
Definition isEntryDoc (codec : Codec) (m : gmap string JsVal) (path : string)
    (d : Doc) : Prop :=
  ∃ key x text,
    m !! key = Some x ∧ doc_path d = entryPath path key ∧
    atomText codec x = Ok text ∧ doc_text d = text.

(** * Properties *)

(** ** Strings *)

Section StringFacts.

Implicit Types s t p : string.

Lemma append_cons c s t : String c s +:+ t = String c (s +:+ t).
Proof. reflexivity. Qed.

Lemma append_nil_l s : "" +:+ s = s.
Proof. reflexivity. Qed.

Lemma append_nil_r s : s +:+ "" = s.
Proof.
  induction s as [|c s IH]; [done |]. by rewrite append_cons, IH.
Qed.

Lemma append_assoc s t p : (s +:+ t) +:+ p = s +:+ (t +:+ p).
Proof.
  induction s as [|c s IH]; [done |]. by rewrite !append_cons, IH.
Qed.

Lemma length_append s t :
  String.length (s +:+ t) = (String.length s + String.length t)%nat.
Proof.
  induction s as [|c s IH]; [done |]. rewrite append_cons. simpl. by rewrite IH.
Qed.

Lemma append_inv_head s t p : s +:+ t = s +:+ p → t = p.
Proof.
  induction s as [|c s IH]; [done |]. rewrite !append_cons. intros [= H]. auto.
Qed.

Lemma prefix_spec p s : String.prefix p s = true ↔ ∃ t, s = p +:+ t.
Proof.
  revert s. induction p as [|c p IH]; intros s.
  - split; [intros _; by exists s | intros _; by destruct s].
  - destruct s as [|c' s]; simpl.
    + split; [done | intros [t Ht]; by rewrite append_cons in Ht].
    + destruct (ascii_dec c c') as [->|Hne].
      * rewrite IH. split; intros [t Ht]; exists t.
        -- by rewrite append_cons, Ht.
        -- rewrite append_cons in Ht. congruence.
      * split; [done | intros [t Ht]; rewrite append_cons in Ht; congruence].
Qed.

Lemma startsWith_spec s p : Str.startsWith s p = true ↔ ∃ t, s = p +:+ t.
Proof. apply prefix_spec. Qed.

Lemma startsWith_append p t : Str.startsWith (p +:+ t) p = true.
Proof. apply startsWith_spec. eauto. Qed.

Lemma substringFrom_append s t : Str.substringFrom (String.length s) (s +:+ t) = t.
Proof.
  induction s as [|c s IH]; [by destruct t |]. by rewrite append_cons.
Qed.

Lemma sliceTo_append s t : Str.sliceTo (String.length s) (s +:+ t) = s.
Proof.
  induction s as [|c s IH]; [by destruct t |].
  rewrite append_cons. simpl. by rewrite IH.
Qed.

Lemma slice_substring n s : Str.sliceTo n s +:+ Str.substringFrom n s = s.
Proof.
  revert s. induction n as [|n IH]; intros [|c s]; simpl; try done.
  by rewrite append_cons, IH.
Qed.

Lemma endsWith_spec s p : Str.endsWith s p = true ↔ ∃ t, s = t +:+ p.
Proof.
  unfold Str.endsWith. rewrite andb_true_iff, Nat.leb_le, String.eqb_eq. split.
  - intros [_ H]. exists (Str.sliceTo (String.length s - String.length p) s).
    rewrite <- (slice_substring (String.length s - String.length p) s) at 1.
    by rewrite H.
  - intros [t ->]. rewrite length_append. split; [lia |].
    replace (String.length t + String.length p - String.length p)%nat
      with (String.length t) by lia.
    apply substringFrom_append.
Qed.

Lemma endsWith_append t p : Str.endsWith (t +:+ p) p = true.
Proof. apply endsWith_spec. eauto. Qed.

Lemma stripTrailingSlash_slash s : Str.stripTrailingSlash (s +:+ "/") = s.
Proof.
  unfold Str.stripTrailingSlash. rewrite endsWith_append, length_append. simpl.
  replace (String.length s + 1 - 1)%nat with (String.length s) by lia.
  apply sliceTo_append.
Qed.

Lemma stripTrailingSlash_base path :
  Str.stripTrailingSlash (baseContentPrefix path) = path.
Proof.
  unfold baseContentPrefix. destruct (Str.endsWith path "/") eqn:E.
  - apply stripTrailingSlash_slash.
  - unfold Str.stripTrailingSlash. by rewrite E.
Qed.

End StringFacts.

(** ** The store *)

Section StoreFacts.

Implicit Types (r : Replica) (f : QueryFilter) (p q author : string).

Lemma elem_of_queryDocs r f d :
  d ∈ Store.queryDocs r f ↔
  ∃ b, docs r !! doc_path d = Some b ∧ d = toDoc (doc_path d) b ∧
       Store.matches f (doc_path d) = true.
Proof.
  unfold Store.queryDocs. rewrite list_elem_of_fmap. split.
  - intros [[k b] [-> H]]. apply list_elem_of_filter in H as [Hm Hin].
    apply elem_of_map_to_list in Hin. simpl in *.
    exists b. by rewrite Is_true_true in Hm.
  - intros (b & Hb & Hd & Hm). exists (doc_path d, b). split; [done |].
    apply list_elem_of_filter. split; [by apply Is_true_true |].
    by apply elem_of_map_to_list.
Qed.

Lemma elem_of_queryPaths r f p :
  p ∈ Store.queryPaths r f ↔ is_Some (docs r !! p) ∧ Store.matches f p = true.
Proof.
  unfold Store.queryPaths. rewrite list_elem_of_fmap. split.
  - intros [d [-> H]]. apply elem_of_queryDocs in H as (b & Hb & _ & Hm). eauto.
  - intros [[b Hb] Hm]. exists (toDoc p b). split; [done |].
    apply elem_of_queryDocs. exists b. done.
Qed.

Lemma wiped_idemp b : Store.wiped (Store.wiped b) = Store.wiped b.
Proof. done. Qed.

End StoreFacts.

(** ** Reading: which documents are folded *)

(** What [read] folds for a node that keeps the content prefix of the base
    class, at a path without trailing slash: the root document, then
    every document whose path starts with the characters of the path. *)
Lemma readDocs_base t r path :
  getContentPrefix t = baseContentPrefix →
  Str.endsWith path "/" = false →
  readDocs t r path =
    match Store.getLatestDocAtPath r path with
    | Some d => d :: Store.queryDocs r (MkFilter (Some path) None)
    | None => Store.queryDocs r (MkFilter (Some path) None)
    end.
Proof.
  intros Hp Hs. unfold readDocs. rewrite Hp. unfold baseContentPrefix.
  rewrite Hs. unfold Str.stripTrailingSlash. by rewrite Hs.
Qed.

(** C1 (evaluation of the code where it departs from the claim).
    Reading the string atom at "/posts/1": with a single stored document
    at the sibling path "/posts/10" the fold takes that document and the
    result is its text, although no document is at "/posts/1" or under
    "/posts/1/"; with a single stored document at "/posts/1" the fold
    takes it twice, as the root and as one of the contents. *)
Theorem read_folds_sibling_and_root_twice :
  readDocs es_string (replicaOf [("/posts/10", "ten")]) "/posts/1"
    = [textDoc "/posts/10" "ten"] ∧
  read es_string (replicaOf [("/posts/10", "ten")]) "/posts/1" = Ok (VStr "ten") ∧
  readDocs es_string (replicaOf [("/posts/1", "one")]) "/posts/1"
    = [textDoc "/posts/1" "one"; textDoc "/posts/1" "one"] ∧
  read titleOnly (replicaOf [("/posts/1title", "intruder")]) "/posts/1"
    = Ok (VObj (<["title" := VStr "intruder"]> ∅)).
Proof. repeat split; vm_compute; reflexivity. Qed.

(** ** Metadata nodes are read-only *)

Lemma promiseAllMap_throws {A : Type} (f : A → Write) (items : list A) x e :
  x ∈ items →
  (∀ r, f x r = (r, Thrown e)) →
  ∀ rejection r, ∃ r' e', promiseAllMap f items rejection r = (r', Thrown e').
Proof.
  intros Hin Hx. induction items as [|y items IH]; [by apply elem_of_nil in Hin |].
  intros rejection r. simpl.
  destruct (f y r) as [r1 [|e1|e1]] eqn:Hy.
  - apply elem_of_cons in Hin as [->|Hin]; [rewrite Hx in Hy; done | by apply IH].
  - apply elem_of_cons in Hin as [->|Hin]; [rewrite Hx in Hy; done | by apply IH].
  - eauto.
Qed.

(** C10.  Writing through a Metadata node throws the read-only error for
    every author, path and data ([null] included) and leaves the replica
    as it was; the error is not caught by an enclosing object: a write of
    an object with a metadata field present in its data is rejected. *)
Theorem metadata_write_always_throws :
  (∀ reduceFn props r,
     write (MetadataType reduceFn) props r = (r, Thrown readOnlyError)) ∧
  (∀ shape key reduceFn props r,
     shape !! key = Some (MetadataType reduceFn) →
     Js.truthy (wp_data props) = true →
     Js.isUndefined (Js.get (wp_data props) key) = false →
     ∃ r' e, write (ObjectType shape) props r = (r', Rejected e)).
Proof.
  split; [done |].
  intros shape key reduceFn props r Hkey Hdata Hpresent.
  simpl. unfold ObjectType_write, async.
  assert (Js.isNull (wp_data props) = false) as ->
    by (destruct (wp_data props); done).
  destruct (promiseAllMap_throws (ObjectType_writeField props) (map_to_list shape)
              (key, MetadataType reduceFn) readOnlyError) with (rejection := @None Error) (r := r)
    as (r' & e' & ->).
  - by apply elem_of_map_to_list.
  - intros r0. unfold ObjectType_writeField. simpl. by rewrite Hdata, Hpresent.
  - eauto.
Qed.

Lemma metadata_write_always_throws_witness :
  ∃ r' e,
    write (ObjectType (<["slug" := docSlug]> ∅))
      (MkWriteProps "me" "/o" (VObj (<["slug" := VStr "x"]> ∅))) emptyReplica
    = (r', Rejected e).
Proof.
  apply (proj2 metadata_write_always_throws _ "slug"
           (λ props, Ok (VStr (List.last (Str.split (doc_path (rp_doc props))) ""))));
    reflexivity.
Defined.

(** ** Inverse lookup *)

(** C9.  With [collectionPrefix] omitted, [findByCollectionKey] asks the
    replica for the paths that end with "undefined/" followed by the
    encoded key, and every path it returns is a stored path without that
    ending; on the three posts of the test suite, whose collection paths
    end with "/related/" and the encoded key, it returns nothing. *)
Theorem findByCollectionKey_without_prefix key r f :
  let ending := "undefined/" +:+ Uri.encodeURIComponent key in
  let opts := MkFindOpts r None f in
  findFilter key opts = MkFilter (pathStartsWith f) (Some ending) ∧
  findByCollectionKey key opts =
    ((λ path, Str.sliceTo (String.length path - String.length ending) path)
       <$> Store.queryPaths r (MkFilter (pathStartsWith f) (Some ending))) ∧
  Forall (λ p, is_Some (docs r !! (p +:+ ending))) (findByCollectionKey key opts) ∧
  findByCollectionKey "/posts/1"
    (MkFindOpts
       (replicaOf [("/posts/2/related/%2Fposts%2F1", "1");
                   ("/posts/3/related/%2Fposts%2F1", "1")])
       None (MkFilter (Some "/posts/") None)) = [].
Proof.
  intros ending opts.
  assert (pathEnding key opts = ending) as Hending by done.
  split; [done |]. split; [done |]. split; [| by vm_compute].
  unfold findByCollectionKey. rewrite Hending. apply Forall_forall.
  intros p Hp. apply list_elem_of_fmap in Hp as [path [-> Hpath]].
  apply elem_of_queryPaths in Hpath as [Hsome Hm].
  unfold Store.matches in Hm. apply andb_true_iff in Hm as [_ Hm]. simpl in Hm.
  rewrite Hending in Hm. apply endsWith_spec in Hm as [t ->]. cbv beta.
  rewrite length_append.
  replace (String.length t + String.length ending - String.length ending)%nat
    with (String.length t) by lia.
  by rewrite sliceTo_append.
Qed.

(** ** Attachments *)

(** C7 as stated fails: a replica that does not hold the attachment of a
    document answers [undefined], and [reduce] then returns [null]. *)
Lemma attachment_absent_reduces_to_null :
  ¬ (∀ props : ReduceProps,
       is_Some (doc_attachmentHash (rp_doc props)) →
       (∀ bytes, attachments (rp_replica props) (rp_doc props) ≠ AttachmentFound bytes) →
       ∃ e, reduce AttachmentType props = Fail e).
Proof.
  intros H.
  destruct (H (MkReduceProps emptyReplica [] (Some "/images/a.png") VNull
                 (MkDoc "/images/a.png" "image/png" "es.5" (Some "hash"))))
    as [e He]; [by eexists | done | done].
Qed.

(** C7, amended.  [reduce] of an attachment follows the answer of the
    replica: an error is thrown as it is, an absent attachment gives
    [null], an attachment gives the metadata and the attachment; and an
    error for the document at the path read makes [read] fail with it. *)
Theorem attachment_reduce_follows_store :
  (∀ props,
     reduce AttachmentType props =
       match attachments (rp_replica props) (rp_doc props) with
       | AttachmentError e => Fail e
       | AttachmentAbsent => Ok VNull
       | AttachmentFound bytes =>
           Ok (VObj (<["metadata" := VStr (doc_text (rp_doc props))]>
                       (<["attachment" := VBlob bytes]> ∅)))
       end) ∧
  (∀ r path body e,
     docs r !! path = Some body →
     attachments r (toDoc path body) = AttachmentError e →
     read AttachmentType r path = Fail e).
Proof.
  split; [done |].
  intros r path body e Hbody Herr. unfold read, readDocs. simpl.
  rewrite stripTrailingSlash_base. unfold Store.getLatestDocAtPath.
  rewrite Hbody. simpl. unfold readStep. simpl.
  unfold AttachmentType_reduce. simpl. by rewrite Herr.
Qed.

Lemma attachment_reduce_follows_store_witness :
  read AttachmentType
    (MkReplica (<["/a.png" := MkBody "image/png" "es.5" None]> ∅)
       (λ _, AttachmentError (MkError "ValidationError" "no attachment"))
       (λ _ _, true))
    "/a.png"
  = Fail (MkError "ValidationError" "no attachment").
Proof.
  apply (proj2 attachment_reduce_follows_store _ "/a.png"
           (MkBody "image/png" "es.5" None)); reflexivity.
Defined.

(** ** Objects: documents at undeclared keys *)

(** A document at a key that is neither declared in the shape nor a
    member of [Object.prototype] leaves the accumulated value as it
    is. *)
Lemma ObjectType_reduce_undeclared shape props :
  let attrKey := default SELF_SIGIL (head (rp_pathComponents props)) in
  shape !! attrKey = None →
  inherited attrKey = false →
  reduce (ObjectType shape) props = Ok (rp_prev props).
Proof.
  intros attrKey Hnone Hinh. simpl. unfold ObjectType_reduce.
  fold attrKey. by rewrite Hnone, Hinh.
Qed.

(** A document at an undeclared key that every object inherits makes
    [reduce] throw. *)
Lemma ObjectType_reduce_inherited shape props :
  let attrKey := default SELF_SIGIL (head (rp_pathComponents props)) in
  shape !! attrKey = None →
  inherited attrKey = true →
  reduce (ObjectType shape) props = Fail notAFunction.
Proof.
  intros attrKey Hnone Hinh. simpl. unfold ObjectType_reduce.
  fold attrKey. by rewrite Hnone, Hinh.
Qed.

(** C8 (evaluation of the code where it departs from the claim).  The
    object type with the single field "title" is given a document whose
    first path segment is "constructor", which is not a declared field
    key: [this.shape["constructor"]] is the inherited constructor of the
    shape, so the lookup is truthy and calling its [reduce] throws a
    TypeError; the accumulated value is not returned, and [read] at the
    object fails. *)
Theorem undeclared_inherited_key_throws :
  reduce titleOnly
    (MkReduceProps (replicaOf [("/o/constructor", "x")]) ["constructor"]
       (Some "/o") VNull (textDoc "/o/constructor" "x"))
    = Fail notAFunction ∧
  read titleOnly (replicaOf [("/o/constructor", "x")]) "/o" = Fail notAFunction.
Proof. split; vm_compute; reflexivity. Qed.

(** ** Live views *)

(** An event in a format other than es.5 ends the loop of [run]; the
    reader stays in [replicaEvents] and the value stays as it was. *)
Lemma runTurn_unsupported_format replica q kind doc :
  lq_running q = true →
  kind ≠ KindOther →
  doc_format doc ≠ "es.5" →
  let q' := Live.runTurn replica q (ReadValue (MkEvent kind doc)) in
  lq_running q' = false ∧
  lq_replicaEvents q' = lq_replicaEvents q ∧
  Live.snapshot q' = Live.snapshot q.
Proof.
  intros Hrun Hkind Hformat. unfold Live.runTurn. rewrite Hrun. simpl.
  apply String.eqb_neq in Hformat. rewrite Hformat.
  destruct kind; done.
Qed.

(** C6 (evaluation of the code where it departs from the claim).  A view
    on "/someObject" is open; a successful upsert of a document in format
    "es.4" arrives.  The loop of [run] ends and the snapshot is kept, but
    the reader is still held, so [isClosed] stays false; events that
    arrive afterwards are not processed, and [subscribe] finds the view
    not closed and does not start it again. *)
Theorem unsupported_format_leaves_view_open :
  let q := Live.create titled "/someObject" "/someObject"
             (VObj (<["title" := VStr "SomeObject"]> ∅)) in
  let foreign := MkEvent KindSuccess (MkDoc "/someObject/title" "changed" "es.4" None) in
  let next := MkEvent KindSuccess (textDoc "/someObject/title" "changed") in
  let q' := Live.runTurn emptyReplica q (ReadValue foreign) in
  Live.isClosed q = false ∧
  Live.isClosed q' = false ∧
  lq_running q' = false ∧
  Live.snapshot q' = Live.snapshot q ∧
  Live.runTurn emptyReplica q' (ReadValue next) = q' ∧
  lq_running (Live.subscribe q') = false ∧
  Live.snapshot (Live.runTurn emptyReplica q (ReadValue next))
    = VObj (<["title" := VStr "changed"]> ∅).
Proof. repeat split; vm_compute; reflexivity. Qed.

(** ** Collapse of emptied containers *)

Lemma isEmptyObject_spec (m : gmap string JsVal) : isEmptyObject m = true ↔ m = ∅.
Proof.
  unfold isEmptyObject. rewrite <- map_to_list_empty_iff.
  destruct (map_to_list m); split; done.
Qed.


(** What [Object.assign({}, v)] copies. *)
Lemma assign_lookup v copy k :
  Js.assign v = Ok copy → k ≠ "__proto__" → copy !! k = Js.ownProps v !! k.
Proof.
  unfold Js.assign. intros H Hk.
  destruct (Js.ownProps v !! "__proto__") as [x|]; [| by injection H as <-].
  destruct (Js.isObject x || Js.isNull x); [done |].
  injection H as <-. by rewrite lookup_delete_ne.
Qed.

Lemma assign_no_proto v :
  Js.ownProps v !! "__proto__" = None → Js.assign v = Ok (Js.ownProps v).
Proof. unfold Js.assign. by intros ->. Qed.


Lemma ownProps_orElse v : Js.ownProps (Js.orElse v (VObj ∅)) = Js.ownProps v.
Proof. by destruct v. Qed.








(** The removal of a key drops an own property "__proto__" with it: the
    copy that [Object.assign] makes does not hold it. *)
Example removal_drops_own_proto :
  reduce es_set
    (MkReduceProps emptyReplica ["a"] None
       (VObj (<["__proto__" := VBool true]> (<["a" := VBool true]> ∅)))
       (textDoc "/s/a" ""))
  = Ok VNull.
Proof. vm_compute. reflexivity. Qed.

(** The scenario of the test suite: a set with the single key "1", that
    key written as [null], reads back as [null]. *)
Example collection_collapse_scenario :
  let r1 := (write es_set (MkWriteProps "me" "/s" (VObj (<["1" := VBool true]> ∅)))
               emptyReplica).1 in
  let r2 := (write es_set (MkWriteProps "me" "/s" (VObj (<["1" := VNull]> ∅))) r1).1 in
  read es_set r1 "/s" = Ok (VObj (<["1" := VBool true]> ∅)) ∧
  read es_set r2 "/s" = Ok VNull.
Proof. split; vm_compute; reflexivity. Qed.


(** ** Deleting a subtree *)

Section Wipe.

Implicit Types (r : Replica) (p q author path : string).

Lemma wipeDocAtPath_accepts r author p :
  accepts (Store.wipeDocAtPath r author p) = accepts r.
Proof. unfold Store.wipeDocAtPath. by destruct (accepts r author p). Qed.

Lemma wipeDocAtPath_lookup r author p q :
  docs (Store.wipeDocAtPath r author p) !! q =
    if bool_decide (p = q) && accepts r author p
    then Store.wiped <$> docs r !! q else docs r !! q.
Proof.
  unfold Store.wipeDocAtPath.
  destruct (accepts r author p); simpl; [| by rewrite andb_false_r].
  rewrite lookup_alter, andb_true_r. by repeat case_decide; simplify_eq.
Qed.

Lemma wipeDocAtPath_lookup_ne r author p q :
  p ≠ q → docs (Store.wipeDocAtPath r author p) !! q = docs r !! q.
Proof.
  intros Hne. rewrite wipeDocAtPath_lookup.
  by rewrite bool_decide_eq_false_2.
Qed.

Lemma wipeDocAtPath_other r author p q :
  p ≠ q →
  docs (Store.wipeDocAtPath (Store.wipeDocAtPath r author p) author q) !! q
    = docs (Store.wipeDocAtPath r author q) !! q.
Proof.
  intros Hne. rewrite !wipeDocAtPath_lookup, wipeDocAtPath_accepts.
  rewrite bool_decide_eq_true_2 by done. simpl.
  rewrite (bool_decide_eq_false_2 (p = q)) by done. done.
Qed.

Lemma wipeDocAtPath_twice r author q :
  docs (Store.wipeDocAtPath (Store.wipeDocAtPath r author q) author q) !! q
    = docs (Store.wipeDocAtPath r author q) !! q.
Proof.
  rewrite !wipeDocAtPath_lookup, wipeDocAtPath_accepts.
  rewrite bool_decide_eq_true_2 by done. simpl.
  destruct (accepts r author q); [| done].
  by destruct (docs r !! q).
Qed.

(** Wiping a list of paths one after the other. *)
Lemma wipe_list_lookup author ps r q :
  docs (foldl (λ r' p, Store.wipeDocAtPath r' author p) r ps) !! q =
    if bool_decide (q ∈ ps) then docs (Store.wipeDocAtPath r author q) !! q
    else docs r !! q.
Proof.
  revert r. induction ps as [|p ps IH]; intros r; simpl; [done |].
  rewrite IH. destruct (decide (p = q)) as [->|Hne].
  - rewrite (bool_decide_eq_true_2 (q ∈ q :: ps)) by apply list_elem_of_here.
    case_bool_decide; [apply wipeDocAtPath_twice | done].
  - case_bool_decide as Hin.
    + rewrite bool_decide_eq_true_2 by (by apply list_elem_of_further).
      by apply wipeDocAtPath_other.
    + rewrite bool_decide_eq_false_2; [by apply wipeDocAtPath_lookup_ne |].
      intros [?|?]%elem_of_cons; done.
Qed.

Lemma wipe_list_accepts author ps r :
  accepts (foldl (λ r' p, Store.wipeDocAtPath r' author p) r ps) = accepts r.
Proof.
  revert r. induction ps as [|p ps IH]; intros r; simpl;
    [done | by rewrite IH, wipeDocAtPath_accepts].
Qed.

Lemma wipeDocAtPath_absent r author q :
  docs r !! q = None → docs (Store.wipeDocAtPath r author q) !! q = None.
Proof.
  intros H. rewrite wipeDocAtPath_lookup, H. by destruct (_ && _).
Qed.

(** The effect of [wipeDocsUnderPath] on every path: the paths at or
    under [path] are as [wipeDocAtPath] leaves them, the others are as
    they were. *)
Lemma wipeDocsUnderPath_lookup author path r q :
  docs (wipeDocsUnderPath author path r).1 !! q =
    if atOrUnder path q then docs (Store.wipeDocAtPath r author q) !! q
    else docs r !! q.
Proof.
  unfold wipeDocsUnderPath, atOrUnder. simpl.
  set (ps := Store.queryPaths r _).
  set (r1 := foldl _ r ps).
  assert (docs r1 !! q =
          if Str.startsWith q (path +:+ "/")
          then docs (Store.wipeDocAtPath r author q) !! q else docs r !! q) as H1.
  { subst r1. rewrite wipe_list_lookup. case_bool_decide as Hin.
    - apply elem_of_queryPaths in Hin as [_ Hm].
      unfold Store.matches in Hm. simpl in Hm. rewrite andb_true_r in Hm.
      by rewrite Hm.
    - destruct (Str.startsWith q (path +:+ "/")) eqn:Hs; [| done].
      destruct (docs r !! q) as [b|] eqn:Hq.
      + exfalso. apply Hin, elem_of_queryPaths. split; [by eexists |].
        unfold Store.matches. simpl. by rewrite Hs.
      + symmetry. by apply wipeDocAtPath_absent. }
  destruct (String.eqb q path) eqn:Heq; simpl.
  - apply String.eqb_eq in Heq as ->.
    rewrite wipeDocAtPath_lookup. rewrite bool_decide_eq_true_2 by done. simpl.
    assert (accepts r1 = accepts r) as -> by apply wipe_list_accepts.
    rewrite H1. rewrite wipeDocAtPath_lookup.
    rewrite bool_decide_eq_true_2 by done. simpl.
    destruct (Str.startsWith _ _), (accepts r author path); try done.
    by destruct (docs r !! path).
  - rewrite wipeDocAtPath_lookup_ne; [done |].
    intros ->. by rewrite String.eqb_refl in Heq.
Qed.

End Wipe.

(** C3.  Writing [null] to an object or to a collection at [path] wipes
    the document at [path] and every stored document whose path starts
    with [path + "/"]: where the replica accepts the author's write, the
    document is left wiped (its text emptied), as [wipeDocAtPath] does;
    the document of every other path is what it was. *)
Theorem null_write_wipes_subtree author path r :
  (∀ shape,
     let result := write (ObjectType shape) (MkWriteProps author path VNull) r in
     result.2 = Fulfilled ∧
     ∀ q, docs result.1 !! q =
          if atOrUnder path q && accepts r author q
          then Store.wiped <$> docs r !! q
          else docs r !! q) ∧
  (∀ valueType,
     let result := write (CollectionType valueType) (MkWriteProps author path VNull) r in
     result.2 = Fulfilled ∧
     ∀ q, docs result.1 !! q =
          if atOrUnder path q && accepts r author q
          then Store.wiped <$> docs r !! q
          else docs r !! q).
Proof.
  assert (∀ q, docs (wipeDocsUnderPath author path r).1 !! q =
               if atOrUnder path q && accepts r author q
               then Store.wiped <$> docs r !! q else docs r !! q) as H.
  { intros q. rewrite wipeDocsUnderPath_lookup.
    destruct (atOrUnder path q); [| done].
    rewrite wipeDocAtPath_lookup. by rewrite bool_decide_eq_true_2. }
  split; intros t; (split; [done | exact H]).
Qed.

(** ** Partial updates of objects *)

Section PartialUpdate.

Implicit Types (r : Replica) (p q path key : string) (t : EsType).

Lemma async_fst (w : Write) r : (async w r).1 = (w r).1.
Proof. unfold async. by destruct (w r) as [r' [| |]]. Qed.

Lemma preserves_async (w : Write) q : preserves w q → preserves (async w) q.
Proof. intros H r. by rewrite async_fst. Qed.

Lemma promiseAllMap_preserves {A : Type} (f : A → Write) (items : list A) q :
  (∀ x, x ∈ items → preserves (f x) q) →
  ∀ rejection, preserves (promiseAllMap f items rejection) q.
Proof.
  induction items as [|x items IH]; intros H rejection r; simpl; [done |].
  pose proof (H x (list_elem_of_here _ _) r) as Hx.
  assert (∀ y, y ∈ items → preserves (f y) q) as H'
    by (intros y Hy; apply H; by apply list_elem_of_further).
  destruct (f x r) as [r1 [|e|e]]; simpl in Hx.
  - by rewrite IH.
  - by rewrite IH.
  - done.
Qed.

Lemma atOrUnder_spec path q :
  atOrUnder path q = true ↔
  ∃ rest, q = path +:+ rest ∧ (rest = "" ∨ ∃ s, rest = "/" +:+ s).
Proof.
  unfold atOrUnder. rewrite orb_true_iff, String.eqb_eq, startsWith_spec. split.
  - intros [->|[s ->]].
    + exists "". rewrite append_nil_r. auto.
    + exists ("/" +:+ s). rewrite append_assoc. eauto.
  - intros (rest & -> & [->|[s ->]]).
    + left. apply append_nil_r.
    + right. exists s. by rewrite append_assoc.
Qed.

Lemma atOrUnder_self path : atOrUnder path path = true.
Proof. unfold atOrUnder. by rewrite String.eqb_refl. Qed.

(** What is at or under a subpath is under the path. *)
Lemma atOrUnder_subpath path segment q :
  atOrUnder (path +:+ "/" +:+ segment) q = true → atOrUnder path q = true.
Proof.
  rewrite !atOrUnder_spec. intros (rest & -> & _).
  exists ("/" +:+ segment +:+ rest). split; [| by eauto].
  by rewrite !append_assoc.
Qed.

Lemma not_atOrUnder_subpath path segment q :
  atOrUnder path q = false → atOrUnder (path +:+ "/" +:+ segment) q = false.
Proof.
  intros H. destruct (atOrUnder (path +:+ "/" +:+ segment) q) eqn:E; [| done].
  apply atOrUnder_subpath in E. congruence.
Qed.

Lemma atOrUnder_subpath_not_root path segment :
  atOrUnder (path +:+ "/" +:+ segment) path = false.
Proof.
  destruct (atOrUnder _ path) eqn:E; [| done].
  apply atOrUnder_spec in E as (rest & E & _).
  rewrite append_assoc in E. rewrite <- (append_nil_r path) in E at 1.
  by apply append_inv_head in E.
Qed.

Lemma lacks_append_inj k k' rest rest' :
  Str.lacks "/" k = true → Str.lacks "/" k' = true →
  (rest = "" ∨ ∃ s, rest = "/" +:+ s) →
  (rest' = "" ∨ ∃ s, rest' = "/" +:+ s) →
  k +:+ rest = k' +:+ rest' → k = k'.
Proof.
  revert k'. induction k as [|c k IH]; intros [|c' k'] Hk Hk' Hr Hr' Heq.
  - done.
  - exfalso. rewrite append_nil_l, append_cons in Heq. simpl in Hk'.
    apply andb_true_iff in Hk' as [Hc _].
    destruct Hr as [->|[s ->]]; [done |].
    injection Heq as <- _. done.
  - exfalso. rewrite append_nil_l, append_cons in Heq. simpl in Hk.
    apply andb_true_iff in Hk as [Hc _].
    destruct Hr' as [->|[s ->]]; [done |].
    injection Heq as -> _. done.
  - rewrite !append_cons in Heq. injection Heq as -> Heq.
    simpl in Hk, Hk'. apply andb_true_iff in Hk as [_ Hk].
    apply andb_true_iff in Hk' as [_ Hk'].
    f_equal. by eapply IH.
Qed.

(** Distinct fields have no document in common. *)
Lemma fieldDocs_disjoint path key key' q :
  key ≠ key' →
  Str.lacks "/" key = true → Str.lacks "/" key' = true →
  fieldDocs path key q = true → fieldDocs path key' q = false.
Proof.
  intros Hne Hk Hk'. unfold fieldDocs.
  destruct (String.eqb key SELF_SIGIL) eqn:E, (String.eqb key' SELF_SIGIL) eqn:E'.
  - apply String.eqb_eq in E, E'. congruence.
  - intros ->%String.eqb_eq. apply atOrUnder_subpath_not_root.
  - intros H. apply String.eqb_neq. intros ->.
    by rewrite atOrUnder_subpath_not_root in H.
  - intros H. destruct (atOrUnder (path +:+ "/" +:+ key') q) eqn:H'; [| done].
    exfalso. apply Hne.
    apply atOrUnder_spec in H as (rest & -> & Hrest).
    apply atOrUnder_spec in H' as (rest' & Heq & Hrest').
    rewrite !append_assoc in Heq.
    apply append_inv_head, append_inv_head in Heq.
    exact (lacks_append_inj _ _ _ _ Hk Hk' Hrest Hrest' Heq).
Qed.

(** *** The built-in nodes keep to their documents *)

Lemma SingleDoc_Confined t : SingleDoc t → Confined t.
Proof.
  intros H props q Hq. apply H. intros ->. by rewrite atOrUnder_self in Hq.
Qed.

Lemma set_preserves r author path text attachment q :
  q ≠ path → docs (Store.set r author path text attachment).1 !! q = docs r !! q.
Proof.
  intros Hne. unfold Store.set. destruct (accepts r author path); simpl; [| done].
  by rewrite lookup_insert_ne.
Qed.

Lemma Atom_SingleDoc codec : SingleDoc (Atom codec).
Proof.
  intros props q Hne. simpl. unfold Atom_write. apply preserves_async. intros r.
  destruct (if Js.isNull _ then _ else _) as [text|]; [| done].
  pose proof (set_preserves r (wp_author props) (wp_path props) text None q Hne) as H.
  by destruct (Store.set _ _ _ _ _).
Qed.

Lemma AttachmentType_SingleDoc : SingleDoc AttachmentType.
Proof.
  intros props q Hne. simpl. unfold AttachmentType_write. apply preserves_async.
  intros r. destruct (negb _); simpl.
  - by apply wipeDocAtPath_lookup_ne.
  - destruct (Js.get _ "metadata"); try done.
    destruct (Js.get _ "attachment"); try done.
    pose proof (set_preserves r (wp_author props) (wp_path props) s (Some bytes) q Hne) as H.
    by destruct (Store.set _ _ _ _ _).
Qed.

Lemma MetadataType_SingleDoc reduceFn : SingleDoc (MetadataType reduceFn).
Proof. by intros props q Hne r. Qed.

Lemma wipeDocsUnderPath_Confined author path q :
  atOrUnder path q = false → preserves (wipeDocsUnderPath author path) q.
Proof. intros Hq r. by rewrite wipeDocsUnderPath_lookup, Hq. Qed.

Lemma CollectionType_Confined valueType :
  Confined valueType → Confined (CollectionType valueType).
Proof.
  intros Hv props q Hq. simpl. unfold CollectionType_write.
  apply preserves_async. destruct (negb _).
  - by apply wipeDocsUnderPath_Confined.
  - apply promiseAllMap_preserves. intros entry _. apply Hv.
    by apply not_atOrUnder_subpath.
Qed.

Lemma ObjectType_Confined shape :
  (∀ key t, shape !! key = Some t → Confined t) → Confined (ObjectType shape).
Proof.
  intros Hs props q Hq. simpl. unfold ObjectType_write.
  apply preserves_async. destruct (Js.isNull _).
  - by apply wipeDocsUnderPath_Confined.
  - apply promiseAllMap_preserves. intros [key t] Hin.
    apply elem_of_map_to_list in Hin.
    unfold ObjectType_writeField. simpl. destruct (_ && _); [| done].
    apply (Hs key t Hin). unfold nextPath. cbn [wp_path].
    destruct (String.eqb key SELF_SIGIL); [done |].
    by apply not_atOrUnder_subpath.
Qed.

(** *** The frame of a write *)

(** A document outside the documents of every field present in the data
    is left as it was. *)
Lemma ObjectType_write_frame shape props r q :
  fieldsKeepToTheirDocs shape →
  Js.isNull (wp_data props) = false →
  (∀ key, is_Some (shape !! key) →
          Js.isUndefined (Js.get (wp_data props) key) = false →
          fieldDocs (wp_path props) key q = false) →
  docs (write (ObjectType shape) props r).1 !! q = docs r !! q.
Proof.
  intros (_ & Hconf & Hself) Hdata Hq. simpl. unfold ObjectType_write.
  rewrite Hdata. apply preserves_async, promiseAllMap_preserves.
  intros [key t] Hin. apply elem_of_map_to_list in Hin.
  unfold ObjectType_writeField. simpl.
  destruct (Js.truthy _); simpl; [| done].
  destruct (Js.isUndefined _) eqn:Hu; simpl; [done |].
  specialize (Hq key (ltac:(by eexists)) Hu). unfold fieldDocs in Hq.
  unfold nextPath. destruct (String.eqb key SELF_SIGIL) eqn:E.
  - apply String.eqb_eq in E as ->. apply (Hself t Hin). simpl.
    by apply String.eqb_neq.
  - apply (Hconf key t Hin); [| done]. intros ->.
    by rewrite String.eqb_refl in E.
Qed.

End PartialUpdate.

(** C4 as stated fails: when the self field of an object is itself an
    object, setting it to [null] wipes everything under the path, the
    document of the absent field "title" included. *)
Lemma self_field_write_touches_absent_field :
  ¬ (∀ shape props r key q,
       Js.isNull (wp_data props) = false →
       is_Some (shape !! key) →
       Js.get (wp_data props) key = VUndefined →
       fieldDocs (wp_path props) key q = true →
       docs (write (ObjectType shape) props r).1 !! q = docs r !! q).
Proof.
  intros H.
  specialize (H selfObjectShape
                (MkWriteProps "me" "/o" (VObj (<["@self" := VNull]> ∅)))
                (replicaOf [("/o/title", "T")]) "title" "/o/title").
  vm_compute in H. discriminate H; (reflexivity || by eexists).
Qed.

(** The same happens to the document of a field whose key contains a
    slash, when a collection beside it is written at the same path. *)
Lemma slash_key_write_touches_absent_field :
  let props :=
    MkWriteProps "me" "/o" (VObj (<["tags" := VObj (<["main" := VNull]> ∅)]> ∅)) in
  let r := replicaOf [("/o/tags/main", "T")] in
  Js.get (wp_data props) "tags/main" = VUndefined ∧
  fieldDocs "/o" "tags/main" "/o/tags/main" = true ∧
  docs (write (ObjectType slashKeyShape) props r).1 !! "/o/tags/main"
    ≠ docs r !! "/o/tags/main".
Proof. repeat split; vm_compute; congruence. Qed.

(** The scenarios of the test suite: a partial update keeps the fields
    that are not written, a field set to [null] is removed, and [null]
    removes the object. *)
Example partial_update_scenarios :
  read titled someObject "/someObject"
    = Ok (VObj (<["@self" := VStr "hello"]> (<["title" := VStr "SomeObject"]> ∅))) ∧
  read titled
    (write titled
       (MkWriteProps "me" "/someObject" (VObj (<["title" := VStr "changed"]> ∅)))
       someObject).1 "/someObject"
    = Ok (VObj (<["@self" := VStr "hello"]> (<["title" := VStr "changed"]> ∅))) ∧
  read titled
    (write titled
       (MkWriteProps "me" "/someObject" (VObj (<["@self" := VNull]> ∅)))
       someObject).1 "/someObject"
    = Ok (VObj (<["title" := VStr "SomeObject"]> ∅)) ∧
  read titled
    (write titled (MkWriteProps "me" "/someObject" VNull) someObject).1
    "/someObject"
    = Ok VNull.
Proof. repeat split; vm_compute; reflexivity. Qed.

(** C4, amended.  For an object whose fields keep to their own documents
    and a value that is not [null]: a document that belongs to no field
    present (not [undefined]) in the value is left as it was, and so is
    every document of a declared field that is absent from the value;
    a field set to [null], being present, mutates within its own
    documents only. *)
Theorem object_write_is_partial_update shape props r :
  fieldsKeepToTheirDocs shape →
  Js.isNull (wp_data props) = false →
  let r' := (write (ObjectType shape) props r).1 in
  (∀ q,
     (∀ key, is_Some (shape !! key) →
             Js.isUndefined (Js.get (wp_data props) key) = false →
             fieldDocs (wp_path props) key q = false) →
     docs r' !! q = docs r !! q) ∧
  (∀ key q,
     is_Some (shape !! key) →
     Js.get (wp_data props) key = VUndefined →
     fieldDocs (wp_path props) key q = true →
     docs r' !! q = docs r !! q).
Proof.
  intros Hshape Hdata r'. split.
  - intros q Hq. by apply ObjectType_write_frame.
  - intros key q [t Ht] Habsent Hq. apply ObjectType_write_frame; [done.. |].
    intros key' [t' Ht'] Hpresent.
    destruct Hshape as (Hlacks & _).
    apply (fieldDocs_disjoint _ key); eauto.
    intros ->. by rewrite Habsent in Hpresent.
Qed.

(** The documents of the test-suite object are kept to by its fields. *)
Lemma titledShape_keeps_to_docs : fieldsKeepToTheirDocs titledShape.
Proof.
  unfold titledShape. repeat split.
  - intros key t [[<- _]|[_ [[<- _]|[_ H]]%lookup_insert_Some]]%lookup_insert_Some;
      done.
  - intros key t [[<- <-]|[_ [[<- <-]|[_ H]]%lookup_insert_Some]]%lookup_insert_Some _;
      [apply SingleDoc_Confined, Atom_SingleDoc.. | done].
  - intros t [[_ <-]|[H _]]%lookup_insert_Some; [apply Atom_SingleDoc | done].
Qed.

Lemma object_write_is_partial_update_witness :
  let props := MkWriteProps "me" "/someObject" (VObj (<["title" := VStr "changed"]> ∅)) in
  let r := replicaOf [("/someObject", "hello"); ("/someObject/title", "SomeObject")] in
  docs (write titled props r).1 !! "/someObject" = docs r !! "/someObject".
Proof.
  intros props r.
  apply (proj2 (object_write_is_partial_update titledShape props r
                  titledShape_keeps_to_docs eq_refl) "@self" "/someObject").
  - by eexists.
  - reflexivity.
  - reflexivity.
Defined.

(** ** Date-times: [new Date(x.toISOString())] is [x] *)

Section DateTimeFacts.

Import DateTime.
#[local] Open Scope Z_scope.

Ltac zlia := Z.div_mod_to_equations; lia.

Lemma DayFromYear_step y : DayFromYear (y + 1) = DayFromYear y + DaysInYear y.
Proof.
  unfold DayFromYear, DaysInYear.
  destruct (Z.eqb_spec (y mod 4) 0); simpl; [| zlia].
  destruct (Z.eqb_spec (y mod 100) 0); simpl; [| zlia].
  destruct (Z.eqb_spec (y mod 400) 0); simpl; zlia.
Qed.

Lemma InLeapYear_spec y :
  0 <= InLeapYear y <= 1 ∧ DaysInYear y = 365 + InLeapYear y.
Proof.
  unfold InLeapYear, DaysInYear.
  repeat match goal with
         | |- context [negb ?b] => destruct b; simpl
         end; lia.
Qed.

(** [YearFromDay d] is the year the day [d] lies in. *)
Lemma YearFromDay_spec d :
  DayFromYear (YearFromDay d) <= d < DayFromYear (YearFromDay d + 1).
Proof.
  unfold YearFromDay. set (y := 1970 + 400 * d / 146097).
  assert (DayFromYear (y - 1) <= d < DayFromYear (y + 2)) as H
    by (subst y; unfold DayFromYear; zlia).
  destruct (Z.leb_spec (DayFromYear (y + 1)) d).
  - replace (y + 1 + 1) with (y + 2) by lia. lia.
  - destruct (Z.leb_spec (DayFromYear y) d).
    + lia.
    + replace (y - 1 + 1) with y by lia. lia.
Qed.

Lemma YearFromDay_range d :
  -100000000 <= d <= 100000000 → -271821 <= YearFromDay d <= 275760.
Proof.
  intros Hd. pose proof (YearFromDay_spec d) as H.
  unfold DayFromYear in H. zlia.
Qed.

Lemma DayWithinYear_range t :
  0 <= DayWithinYear t < 365 + InLeapYear (YearFromTime t).
Proof.
  unfold DayWithinYear, YearFromTime.
  pose proof (YearFromDay_spec (Day t)) as H.
  rewrite DayFromYear_step in H.
  pose proof (InLeapYear_spec (YearFromDay (Day t))) as [_ Hl]. lia.
Qed.

Lemma monthOfDay_spec leap d :
  0 <= leap <= 1 → 0 <= d < 365 + leap →
  let m := monthOfDay leap d in
  0 <= m <= 11 ∧
  monthStart leap m <= d < monthStart leap (m + 1) ∧
  monthStart leap (m + 1) - monthStart leap m <= 31.
Proof.
  intros Hl Hd. cbv zeta. unfold monthOfDay.
  repeat match goal with
         | |- context [?a <? ?b] => destruct (Z.ltb_spec a b)
         end; unfold monthStart;
    repeat match goal with
           | |- context [if ?c then _ else _] =>
               let v := eval vm_compute in c in change c with v; cbv iota
           end; lia.
Qed.

Lemma digitValue_digitChar d : 0 <= d <= 9 → digitValue (digitChar d) = Some d.
Proof.
  intros H.
  assert (d = 0 ∨ d = 1 ∨ d = 2 ∨ d = 3 ∨ d = 4 ∨ d = 5 ∨ d = 6 ∨ d = 7 ∨
          d = 8 ∨ d = 9) as Hd by lia.
  repeat destruct Hd as [->|Hd]; try subst d; reflexivity.
Qed.

Lemma digitChar_not_sign d :
  0 <= d <= 9 →
  Ascii.eqb (digitChar d) "+" = false ∧ Ascii.eqb (digitChar d) "-" = false.
Proof.
  intros H.
  assert (d = 0 ∨ d = 1 ∨ d = 2 ∨ d = 3 ∨ d = 4 ∨ d = 5 ∨ d = 6 ∨ d = 7 ∨
          d = 8 ∨ d = 9) as Hd by lia.
  repeat destruct Hd as [->|Hd]; try subst d; split; reflexivity.
Qed.

Lemma takeDigits_digits w n acc rest :
  takeDigits w acc (digits w n +:+ rest)
    = Some (acc * 10 ^ Z.of_nat w + n mod 10 ^ Z.of_nat w, rest).
Proof.
  revert acc. induction w as [|w IH]; intros acc.
  - simpl. rewrite append_nil_l. f_equal. f_equal. rewrite Z.mod_1_r. lia.
  - cbn [digits]. rewrite append_cons. cbn [takeDigits].
    rewrite digitValue_digitChar
      by (pose proof (Z.mod_pos_bound (n / 10 ^ Z.of_nat w) 10); lia).
    simpl mbind. rewrite IH. f_equal. f_equal.
    rewrite Nat2Z.inj_succ, Z.pow_succ_r by lia.
    rewrite (Z.mul_comm 10 (10 ^ Z.of_nat w)).
    rewrite Z.rem_mul_r by lia. lia.
Qed.

Lemma takeDigits_width w n rest :
  0 <= n < 10 ^ Z.of_nat w →
  takeDigits w 0 (digits w n +:+ rest) = Some (n, rest).
Proof.
  intros H. rewrite takeDigits_digits. f_equal. f_equal.
  rewrite Z.mod_small by done. lia.
Qed.

Lemma takeYear_yearString y rest :
  -999999 <= y <= 999999 → takeYear (yearString y +:+ rest) = Some (y, rest).
Proof.
  intros Hy. unfold yearString.
  destruct (Z.leb_spec 0 y); cbn [andb].
  - destruct (Z.leb_spec y 9999); cbv iota.
    + pose proof (takeDigits_width 4 y rest) as H4.
      change (10 ^ Z.of_nat 4) with 10000 in H4. specialize (H4 ltac:(lia)).
      cbn [digits] in *. rewrite append_cons in *.
      unfold takeYear.
      destruct (digitChar_not_sign ((y / 10 ^ Z.of_nat 3) mod 10)) as [-> ->];
        [pose proof (Z.mod_pos_bound (y / 10 ^ Z.of_nat 3) 10); lia | done].
    + rewrite append_cons. unfold takeYear.
      change (Ascii.eqb "+" "+") with true. cbv iota.
      rewrite Z.abs_eq by lia.
      apply takeDigits_width. change (10 ^ Z.of_nat 6) with 1000000. lia.
  - rewrite append_cons. unfold takeYear.
    change (Ascii.eqb "-" "+") with false. change (Ascii.eqb "-" "-") with true.
    cbv iota.
    rewrite takeDigits_width by (change (10 ^ Z.of_nat 6) with 1000000; lia).
    simpl mbind.
    destruct (Z.eqb_spec (Z.abs y) 0); [lia |]. f_equal. f_equal. lia.
Qed.

Lemma expect_cons c rest : expect c (String c rest) = Some rest.
Proof. unfold expect. by rewrite Ascii.eqb_refl. Qed.

Lemma takeFields_format year month date hour min sec ms :
  -999999 <= year <= 999999 → 0 <= month < 100 → 0 <= date < 100 →
  0 <= hour < 100 → 0 <= min < 100 → 0 <= sec < 100 → 0 <= ms < 1000 →
  takeFields
    (yearString year +:+ "-" +:+ digits 2 month +:+ "-" +:+ digits 2 date +:+
     "T" +:+ digits 2 hour +:+ ":" +:+ digits 2 min +:+ ":" +:+ digits 2 sec +:+
     "." +:+ digits 3 ms +:+ "Z")
  = Some (MkFields year month date hour min sec ms).
Proof.
  intros. unfold takeFields.
  rewrite takeYear_yearString by done. cbn [mbind option_bind].
  repeat (rewrite append_cons, append_nil_l, expect_cons; cbn [mbind option_bind];
          rewrite takeDigits_width
            by (change (10 ^ Z.of_nat 2) with 100;
                change (10 ^ Z.of_nat 3) with 1000; lia);
          cbn [mbind option_bind]).
  rewrite expect_cons. cbn [mbind option_bind]. done.
Qed.

Lemma isoString_fields t :
  inRange t = true →
  takeFields (isoString t) =
    Some (MkFields (YearFromTime t) (MonthFromTime t + 1) (DateFromTime t)
            (HourFromTime t) (MinFromTime t) (SecFromTime t) (msFromTime t)) ∧
  validFields (MkFields (YearFromTime t) (MonthFromTime t + 1) (DateFromTime t)
            (HourFromTime t) (MinFromTime t) (SecFromTime t) (msFromTime t)) = true.
Proof.
  intros Ht. unfold inRange, maxTime in Ht.
  apply andb_true_iff in Ht as [Hlo%Z.leb_le Hhi%Z.leb_le].
  assert (-100000000 <= Day t <= 100000000) as Hday
    by (unfold Day, msPerDay; zlia).
  pose proof (YearFromDay_range _ Hday) as Hyear. fold (YearFromTime t) in Hyear.
  pose proof (DayWithinYear_range t) as Hdwy.
  pose proof (InLeapYear_spec (YearFromTime t)) as [Hleap _].
  pose proof (monthOfDay_spec _ _ Hleap Hdwy) as (Hm & Hstart & Hlen).
  fold (MonthFromTime t) in Hm, Hstart, Hlen.
  assert (1 <= DateFromTime t <= 31) as Hdate by (unfold DateFromTime; lia).
  assert (0 <= HourFromTime t <= 23) as Hh by (unfold HourFromTime; zlia).
  assert (0 <= MinFromTime t <= 59) as Hmin by (unfold MinFromTime; zlia).
  assert (0 <= SecFromTime t <= 59) as Hs by (unfold SecFromTime; zlia).
  assert (0 <= msFromTime t <= 999) as Hms by (unfold msFromTime, msPerSecond; zlia).
  split.
  - unfold isoString. apply takeFields_format; lia.
  - unfold validFields, DaysInMonth. cbn [f_year f_month f_date f_hour f_min f_sec].
    replace (MonthFromTime t + 1 - 1) with (MonthFromTime t) by lia.
    repeat (apply andb_true_iff; split); apply Z.leb_le; try lia.
    unfold DateFromTime. lia.
Qed.

Lemma fields_recompose t :
  MakeDate (MakeDay (YearFromTime t) (MonthFromTime t + 1 - 1) (DateFromTime t))
    (MakeTime (HourFromTime t) (MinFromTime t) (SecFromTime t) (msFromTime t)) = t.
Proof.
  replace (MonthFromTime t + 1 - 1) with (MonthFromTime t) by lia.
  assert (MakeDay (YearFromTime t) (MonthFromTime t) (DateFromTime t) = Day t) as ->
    by (unfold MakeDay, DateFromTime, DayWithinYear; lia).
  unfold MakeDate, MakeTime, HourFromTime, MinFromTime, SecFromTime, msFromTime,
    Day, msPerDay, msPerHour, msPerMinute, msPerSecond.
  zlia.
Qed.

(** Parsing the ISO string of a time value gives the time value back. *)
Lemma parse_isoString t :
  inRange t = true → parse (isoString t) = Ok (VDate (Some t)).
Proof.
  intros Ht. unfold parse. destruct (isoString_fields t Ht) as [-> Hvalid].
  rewrite Hvalid. cbn [f_year f_month f_date f_hour f_min f_sec f_ms].
  rewrite fields_recompose. unfold TimeClip. by rewrite Ht.
Qed.

Lemma isoString_nonempty t : isoString t ≠ "".
Proof.
  unfold isoString, yearString.
  destruct (_ && _); cbn [digits]; by rewrite append_cons.
Qed.

End DateTimeFacts.

(** ** Round trip of the atoms *)

Section RoundTrip.

Implicit Types (r : Replica) (q path author : string).

Lemma foldRes_constant {A B : Type} (f : A → B → Res A) (l : list B) (a v : A) :
  l ≠ [] → (∀ a' x, x ∈ l → f a' x = Ok v) → foldRes f l a = Ok v.
Proof.
  revert a. induction l as [|x l IH]; intros a Hl Hf; [done |]. simpl.
  rewrite (Hf a x) by apply list_elem_of_here. simpl.
  destruct l as [|y l]; [done |].
  apply IH; [done |]. intros a' z Hz. apply Hf. by apply list_elem_of_further.
Qed.

Lemma startsWith_base q path :
  Str.startsWith q (baseContentPrefix path) = true → Str.startsWith q path = true.
Proof.
  unfold baseContentPrefix. destruct (Str.endsWith path "/"); [| done].
  rewrite !startsWith_spec. intros [s ->]. exists ("/" +:+ s).
  by rewrite append_assoc.
Qed.

(** After an accepted write of one document at [path] in a replica where
    no other path starts with [path], every document [read] folds is the
    one written. *)
Lemma readDocs_after_set t r author path text :
  getContentPrefix t = baseContentPrefix →
  accepts r author path = true →
  aloneAt r path →
  let r' := (Store.set r author path text None).1 in
  readDocs t r' path ≠ [] ∧
  ∀ d, d ∈ readDocs t r' path → d = MkDoc path text "es.5" None.
Proof.
  intros Hprefix Hacc Halone r'.
  assert (docs r' = <[path := MkBody text "es.5" None]> (docs r)) as Hdocs
    by (subst r'; unfold Store.set; by rewrite Hacc).
  unfold readDocs. rewrite Hprefix, stripTrailingSlash_base.
  unfold Store.getLatestDocAtPath. rewrite Hdocs, lookup_insert_eq. simpl.
  split; [done |]. intros d [->|Hd]%elem_of_cons; [done |].
  apply elem_of_queryDocs in Hd as (b & Hb & -> & Hm).
  unfold Store.matches in Hm. simpl in Hm. rewrite andb_true_r in Hm.
  apply startsWith_base in Hm. rewrite Hdocs in Hb.
  destruct (decide (path = doc_path d)) as [Heq|Hne].
  - rewrite <- Heq in *. rewrite lookup_insert_eq in Hb. by injection Hb as <-.
  - rewrite lookup_insert_ne in Hb by done.
    exfalso. apply Hne. symmetry. apply Halone; [by eexists | done].
Qed.

Lemma Atom_round_trip codec x text r author path :
  Js.isNull x = false →
  encode codec x = Ok text →
  text ≠ "" →
  decode codec text = Ok x →
  accepts r author path = true →
  aloneAt r path →
  let result := write (Atom codec) (MkWriteProps author path x) r in
  result.2 = Fulfilled ∧ read (Atom codec) result.1 path = Ok x.
Proof.
  intros Hnull Henc Htext Hdec Hacc Halone. simpl.
  unfold Atom_write, async. simpl. rewrite Hnull, Henc.
  pose proof (readDocs_after_set (Atom codec) r author path text eq_refl Hacc Halone)
    as [Hne Hall].
  destruct (Store.set r author path text None) as [r' event] eqn:Hset.
  assert (event = IngestSuccess) as ->
    by (unfold Store.set in Hset; rewrite Hacc in Hset; by injection Hset as _ <-).
  simpl in *. split; [done |].
  unfold read. apply foldRes_constant; [done |].
  intros a d Hd. rewrite (Hall d Hd). unfold readStep. simpl.
  unfold Atom_reduce. simpl.
  apply String.eqb_neq in Htext. by rewrite Htext.
Qed.

Lemma Decimal10_parse_print z : Decimal10.parse (Decimal10.print z) = Some z.
Proof.
  unfold Decimal10.parse, Decimal10.print.
  rewrite NilZero.isi.
  - simpl. by rewrite DecimalZ.of_to.
  - destruct z; simpl; [done | |];
      intros [= H]; by apply DecimalPos.Unsigned.to_uint_nonnil in H.
  - destruct z; simpl; [done | |];
      intros [= H]; by apply DecimalPos.Unsigned.to_uint_nonnil in H.
Qed.

Lemma Decimal10_print_nonempty z : Decimal10.print z ≠ "".
Proof.
  intros H. pose proof (Decimal10_parse_print z) as Hp. by rewrite H in Hp.
Qed.

Lemma stringToNumber_print z :
  isSafeInteger z = true → stringToNumber (Decimal10.print z) = Ok (VNum z).
Proof.
  intros Hz. unfold stringToNumber. rewrite Decimal10_parse_print, Hz.
  destruct (Z.eqb_spec z 0) as [->|]; done.
Qed.

End RoundTrip.

(** C2 as stated fails for the empty string: it is written as the empty
    text, which [reduce] takes for an absent document. *)
Lemma empty_string_reads_back_null :
  ¬ (∀ s : string,
       read es_string
         (write es_string (MkWriteProps "me" "/someObject" (VStr s)) emptyReplica).1
         "/someObject"
       = Ok (VStr s)).
Proof. intros H. specialize (H ""). vm_compute in H. discriminate H. Qed.

(** C2, amended.  For every built-in atom and every value of its type
    whose text is not empty (every string but the empty one, every safe
    integer, every bigint, both booleans, every valid date): a write at
    [path] that the replica accepts, where no other stored path starts
    with [path], is fulfilled, and the read at [path] that follows
    returns the value. *)
Theorem atom_write_then_read t x r author path :
  atomValue t x →
  accepts r author path = true →
  aloneAt r path →
  let result := write t (MkWriteProps author path x) r in
  result.2 = Fulfilled ∧ read t result.1 path = Ok x.
Proof.
  intros Hx Hacc Halone. destruct Hx as [s Hs|z Hz|z|b|t Ht].
  - by apply (Atom_round_trip _ (VStr s) s).
  - apply (Atom_round_trip _ (VNum z) (Decimal10.print z)); try done.
    + simpl. unfold numberToString. by rewrite Hz.
    + apply Decimal10_print_nonempty.
    + by apply stringToNumber_print.
  - apply (Atom_round_trip _ (VBigInt z) (Decimal10.print z)); try done.
    + apply Decimal10_print_nonempty.
    + simpl. unfold stringToBigInt. by rewrite Decimal10_parse_print.
  - apply (Atom_round_trip _ (VBool b) (if b then "1" else "0")); try done;
      by destruct b.
  - apply (Atom_round_trip _ (VDate (Some t)) (DateTime.isoString t)); try done.
    + simpl. by rewrite Ht.
    + apply isoString_nonempty.
    + by apply parse_isoString.
Qed.

(** The representative values of the test suite and the boundary values,
    written to a fresh replica and read back. *)
Example atoms_are_read_back :
  Forall
    (λ tx : EsType * JsVal,
       read tx.1 (write tx.1 (MkWriteProps "me" "/someObject" tx.2) emptyReplica).1
         "/someObject" = Ok tx.2)
    [ (es_string, VStr "hello");
      (es_number, VNum 12); (es_number, VNum 0); (es_number, VNum (-12));
      (es_bigint, VBigInt 1000000000000000000000000000);
      (es_boolean, VBool true); (es_boolean, VBool false);
      (es_datetime, VDate (Some 1793620800123%Z)) ].
Proof. repeat constructor; vm_compute; reflexivity. Qed.

Lemma atom_write_then_read_witness :
  let result :=
    write es_datetime (MkWriteProps "me" "/someObject" (VDate (Some 1793620800123%Z)))
      emptyReplica in
  result.2 = Fulfilled ∧
  read es_datetime result.1 "/someObject" = Ok (VDate (Some 1793620800123%Z)).
Proof.
  apply (atom_write_then_read es_datetime (VDate (Some 1793620800123%Z))
           emptyReplica "me" "/someObject").
  - apply DateValue. reflexivity.
  - reflexivity.
  - intros q [b Hb]. vm_compute in Hb. discriminate Hb.
Defined.

(** * Further properties of the code *)

(** ** Paths (util.ts) *)

Section PathFacts.

Implicit Types (s a b : string) (segments : list string).

Lemma split_nonempty s : Str.split s ≠ [].
Proof.
  destruct s as [|c s]; simpl; [done |].
  destruct (Ascii.eqb c "/"); [done |]. by destruct (Str.split s).
Qed.

Lemma split_lacks s : Forall (λ seg, Str.lacks "/" seg = true) (Str.split s).
Proof.
  induction s as [|c s IH]; simpl; [by repeat constructor |].
  destruct (Ascii.eqb c "/") eqn:E; [by constructor |].
  destruct (Str.split s) as [|seg segs]; simpl.
  - repeat constructor. simpl. by rewrite E.
  - inversion IH as [|? ? Hseg Hsegs]; subst. constructor; [| done].
    simpl. by rewrite E, Hseg.
Qed.

Lemma split_append a b :
  Str.split (a +:+ "/" +:+ b) = (Str.split a ++ Str.split b)%list.
Proof.
  induction a as [|c a IH].
  - by rewrite append_nil_l, append_cons, append_nil_l.
  - rewrite append_cons. simpl. rewrite IH.
    destruct (Ascii.eqb c "/"); [done |].
    pose proof (split_nonempty a) as Hne.
    by destruct (Str.split a).
Qed.

Lemma split_segment s : Str.lacks "/" s = true → Str.split s = [s].
Proof.
  induction s as [|c s IH]; simpl; [done |].
  intros [Hc Hs]%andb_true_iff. apply negb_true_iff in Hc. rewrite Hc.
  by rewrite IH.
Qed.

Lemma splitPath_append a b :
  splitPath (a +:+ "/" +:+ b) = (splitPath a ++ splitPath b)%list.
Proof. unfold splitPath. by rewrite split_append, List.filter_app. Qed.

Lemma splitPath_segment s : isSegment s = true → splitPath s = [s].
Proof.
  intros [Hne Hs]%andb_true_iff. unfold splitPath.
  rewrite split_segment by done. simpl. by rewrite Hne.
Qed.

Lemma splitPath_empty : splitPath "" = [].
Proof. reflexivity. Qed.

Lemma splitPath_leading_slash s : splitPath ("/" +:+ s) = splitPath s.
Proof.
  rewrite <- (append_nil_l ("/" +:+ s)). by rewrite splitPath_append.
Qed.

Lemma splitPath_joinPath_segments segments :
  Forall (λ seg, isSegment seg = true) segments →
  splitPath (joinPath segments) = segments.
Proof.
  intros Hsegs. induction Hsegs as [|seg rest Hseg Hrest IH]; [done |].
  destruct rest as [|seg' rest].
  - by apply splitPath_segment.
  - change (joinPath (seg :: seg' :: rest))
      with (seg +:+ "/" +:+ joinPath (seg' :: rest)).
    by rewrite splitPath_append, IH, splitPath_segment.
Qed.

Lemma splitPath_segments path : Forall (λ seg, isSegment seg = true) (splitPath path).
Proof.
  unfold splitPath. apply Forall_forall. intros seg Hin.
  apply list_elem_of_In, List.filter_In in Hin as [Hin Hne].
  unfold isSegment. rewrite Hne. simpl.
  pose proof (split_lacks path) as H. rewrite Forall_forall in H.
  apply H. by apply list_elem_of_In.
Qed.

End PathFacts.

(** X1.  Every component [splitPath] returns is a path segment: it is not
    empty and holds no slash, whatever the path. *)
Theorem splitPath_yields_segments path :
  Forall (λ seg, isSegment seg = true) (splitPath path).
Proof. apply splitPath_segments. Qed.

(** X2.  Splitting undoes joining: the segments joined with slashes, with
    or without a leading slash, split into the same segments; and a slash
    between two paths splits into the components of the one followed by
    those of the other, so that repeated, leading and trailing slashes
    are ignored. *)
Theorem splitPath_joinPath segments :
  Forall (λ seg, isSegment seg = true) segments →
  splitPath (joinPath segments) = segments ∧
  splitPath ("/" +:+ joinPath segments) = segments ∧
  ∀ a b, splitPath (a +:+ "/" +:+ b) = (splitPath a ++ splitPath b)%list.
Proof.
  intros Hsegs. pose proof (splitPath_joinPath_segments segments Hsegs) as H.
  split; [done |]. split; [| apply splitPath_append].
  by rewrite splitPath_leading_slash.
Qed.

Lemma splitPath_joinPath_witness :
  splitPath (joinPath ["posts"; "1"; "title"]) = ["posts"; "1"; "title"].
Proof.
  apply (splitPath_joinPath ["posts"; "1"; "title"]).
  repeat constructor.
Defined.

(** ** Reading and observing (type.ts) *)

(** X3.  Where no stored path starts with the path read, [read] returns
    [null], for every schema node that keeps the content prefix of the
    base class. *)
Theorem read_of_nothing_is_null t r path :
  getContentPrefix t = baseContentPrefix →
  nothingUnder r path →
  read t r path = Ok VNull.
Proof.
  intros Hprefix Hnothing. unfold read, readDocs.
  rewrite Hprefix, stripTrailingSlash_base. unfold Store.getLatestDocAtPath.
  destruct (docs r !! path) as [b|] eqn:Hroot.
  - specialize (Hnothing path ltac:(by eexists)).
    rewrite <- (append_nil_r path) in Hnothing at 1.
    by rewrite startsWith_append in Hnothing.
  - simpl. destruct (Store.queryDocs r _) as [|d l] eqn:Hq; [done |].
    assert (d ∈ Store.queryDocs r (MkFilter (Some (baseContentPrefix path)) None))
      as Hd by (rewrite Hq; apply list_elem_of_here).
    apply elem_of_queryDocs in Hd as (b & Hb & _ & Hm).
    unfold Store.matches in Hm. simpl in Hm. rewrite andb_true_r in Hm.
    apply startsWith_base in Hm.
    by rewrite (Hnothing (doc_path d) ltac:(by eexists)) in Hm.
Qed.

Lemma read_of_nothing_is_null_witness :
  read titled (replicaOf [("/other", "x")]) "/someObject" = Ok VNull.
Proof.
  apply read_of_nothing_is_null; [reflexivity |].
  intros q [b Hb]. destruct (decide (q = "/other")) as [->|Hne]; [reflexivity |].
  exfalso. unfold replicaOf in Hb. simpl in Hb.
  rewrite lookup_insert_ne in Hb by done. by rewrite lookup_empty in Hb.
Defined.

(** X4.  At a path without trailing slash, [observe] of a node that keeps
    the content prefix of the base class gives an open view without
    observers whose snapshot is what [read] returns at that path, and it
    fails as [read] fails. *)
Theorem observe_starts_from_read t r path :
  getContentPrefix t = baseContentPrefix →
  Str.endsWith path "/" = false →
  match read t r path with
  | Ok v =>
      ∃ q, observe t r path = Ok q ∧
           Live.snapshot q = v ∧ Live.isClosed q = false ∧
           lq_running q = true ∧ lq_observers q = 0 ∧
           lq_contentPrefix q = path ∧ lq_rootPath q = path
  | Fail e => observe t r path = Fail e
  end.
Proof.
  intros Hprefix Hslash. unfold observe. rewrite Hprefix.
  assert (baseContentPrefix path = path) as ->
    by (unfold baseContentPrefix; by rewrite Hslash).
  destruct (read t r path) as [v|e]; simpl; [| done].
  eexists. split; [done |]. repeat split.
  simpl. unfold Str.stripTrailingSlash. by rewrite Hslash.
Qed.

Lemma observe_starts_from_read_witness :
  ∃ q, observe titled someObject "/someObject" = Ok q ∧
       Live.snapshot q
         = VObj (<["@self" := VStr "hello"]> (<["title" := VStr "SomeObject"]> ∅)) ∧
       Live.isClosed q = false ∧ lq_running q = true ∧ lq_observers q = 0 ∧
       lq_contentPrefix q = "/someObject" ∧ lq_rootPath q = "/someObject".
Proof.
  exact (observe_starts_from_read titled someObject "/someObject" eq_refl eq_refl).
Defined.

(** ** Live views (live.ts) *)

Section LiveFacts.

Implicit Types (q : LiveQuery) (replica : Replica).

Lemma runLoop_not_running replica q msgs :
  lq_running q = false → Live.runLoop replica q msgs = q.
Proof.
  intros Hq. unfold Live.runLoop. induction msgs as [|msg msgs IH]; [done |].
  simpl. unfold Live.runTurn at 2. by rewrite Hq.
Qed.

Lemma subscribe_iter_observers n q :
  lq_observers (Nat.iter n Live.subscribe q) = (n + lq_observers q)%nat.
Proof.
  induction n as [|n IH]; [done |]. simpl. rewrite <- IH.
  generalize (Nat.iter n Live.subscribe q). intros q0.
  unfold Live.subscribe. cbv zeta.
  by destruct (Live.isClosed (Live.withObservers q0 (S (lq_observers q0)))).
Qed.

Lemma subscribe_iter_open n q :
  (0 < n)%nat → Live.isClosed (Nat.iter n Live.subscribe q) = false.
Proof.
  destruct n as [|n]; [lia |]. intros _. simpl.
  generalize (Nat.iter n Live.subscribe q). intros q0.
  unfold Live.subscribe. cbv zeta.
  destruct (Live.isClosed (Live.withObservers q0 (S (lq_observers q0)))) eqn:E;
    done.
Qed.

Lemma unsubscribe_not_last q :
  (1 < lq_observers q)%nat →
  Live.isClosed (Live.unsubscribe q) = Live.isClosed q ∧
  lq_observers (Live.unsubscribe q) = pred (lq_observers q).
Proof.
  intros H. unfold Live.unsubscribe. simpl.
  destruct (lq_observers q) as [|[|n]]; [lia.. |]. done.
Qed.

Lemma unsubscribe_last q :
  lq_observers q = 1%nat → Live.isClosed (Live.unsubscribe q) = true.
Proof. intros H. unfold Live.unsubscribe. simpl. by rewrite H. Qed.

Lemma unsubscribe_iter k q :
  (k < lq_observers q)%nat →
  Live.isClosed (Nat.iter k Live.unsubscribe q) = Live.isClosed q ∧
  lq_observers (Nat.iter k Live.unsubscribe q) = (lq_observers q - k)%nat.
Proof.
  induction k as [|k IH]; intros Hk; simpl; [split; [done | lia] |].
  destruct IH as [IHc IHo]; [lia |].
  destruct (unsubscribe_not_last (Nat.iter k Live.unsubscribe q)) as [Hc Ho];
    [lia |].
  rewrite Hc, Ho, IHc, IHo. split; [done | lia].
Qed.

End LiveFacts.

(** X5.  An event of a document in format es.5 whose path is neither the
    root path of the view nor under its content prefix leaves the view
    exactly as it was: the snapshot is kept and no observer is called.
    So does an event of a kind other than success and expire. *)
Theorem irrelevant_event_is_ignored replica q kind doc :
  doc_format doc = "es.5" →
  doc_path doc ≠ lq_rootPath q →
  Str.startsWith (doc_path doc) (lq_contentPrefix q) = false →
  Live.runTurn replica q (ReadValue (MkEvent kind doc)) = q ∧
  ∀ doc', Live.runTurn replica q (ReadValue (MkEvent KindOther doc')) = q.
Proof.
  intros Hformat Hroot Hprefix. split.
  - unfold Live.runTurn. destruct (lq_running q); simpl; [| done].
    rewrite Hformat. simpl. unfold Live.handleDoc.
    apply String.eqb_neq in Hroot. rewrite Hroot, Hprefix. simpl.
    by destruct kind.
  - intros doc'. unfold Live.runTurn. by destruct (lq_running q).
Qed.

Lemma irrelevant_event_is_ignored_witness :
  let q := Live.create titled "/someObject" "/someObject" VNull in
  Live.runTurn emptyReplica q
    (ReadValue (MkEvent KindSuccess (textDoc "/other/title" "x"))) = q ∧
  ∀ doc', Live.runTurn emptyReplica q (ReadValue (MkEvent KindOther doc')) = q.
Proof.
  exact (irrelevant_event_is_ignored emptyReplica
           (Live.create titled "/someObject" "/someObject" VNull) KindSuccess
           (textDoc "/other/title" "x") eq_refl ltac:(discriminate) eq_refl).
Defined.

(** X6.  While the loop of [run] waits, a success or expire event of a
    document in format es.5 at the root path or under the content prefix
    replaces the snapshot by what [reduce] returns for that document and
    the old snapshot, with the path components past the content prefix,
    and calls every observer exactly once with the new snapshot; the view
    stays open. *)
Theorem relevant_event_updates_and_notifies replica q kind doc v :
  lq_running q = true →
  kind ≠ KindOther →
  doc_format doc = "es.5" →
  doc_path doc = lq_rootPath q ∨
    Str.startsWith (doc_path doc) (lq_contentPrefix q) = true →
  reduce (lq_schema q)
    (MkReduceProps replica
       (splitPath (Str.substringFrom (String.length (lq_contentPrefix q)) (doc_path doc)))
       (Some (lq_requestedPath q)) (Live.snapshot q) doc) = Ok v →
  let q' := Live.runTurn replica q (ReadValue (MkEvent kind doc)) in
  Live.snapshot q' = v ∧
  lq_notified q' = (lq_notified q ++ replicate (lq_observers q) v)%list ∧
  lq_observers q' = lq_observers q ∧
  lq_running q' = true ∧
  Live.isClosed q' = Live.isClosed q.
Proof.
  intros Hrun Hkind Hformat Hrel Hv. unfold Live.runTurn. rewrite Hrun. simpl.
  rewrite Hformat. simpl. unfold Live.handleDoc.
  assert (negb (String.eqb (doc_path doc) (lq_rootPath q)) &&
          negb (Str.startsWith (doc_path doc) (lq_contentPrefix q)) = false) as ->.
  { destruct Hrel as [->| ->]; [by rewrite String.eqb_refl |].
    by rewrite andb_false_r. }
  unfold Live.snapshot in Hv. rewrite Hv. simpl.
  destruct kind; done.
Qed.

Lemma relevant_event_updates_and_notifies_witness :
  let q := Live.subscribe (Live.create titled "/someObject" "/someObject"
                             (VObj (<["@self" := VStr "hello"]> ∅))) in
  let q' := Live.runTurn emptyReplica q
              (ReadValue (MkEvent KindSuccess (textDoc "/someObject/title" "changed"))) in
  let v := VObj (<["title" := VStr "changed"]> (<["@self" := VStr "hello"]> ∅)) in
  Live.snapshot q' = v ∧
  lq_notified q' = (lq_notified q ++ replicate (lq_observers q) v)%list ∧
  lq_observers q' = lq_observers q ∧
  lq_running q' = true ∧
  Live.isClosed q' = Live.isClosed q.
Proof.
  intros q q' v.
  apply (relevant_event_updates_and_notifies emptyReplica q KindSuccess
           (textDoc "/someObject/title" "changed") v);
    [reflexivity | discriminate | reflexivity | by right | reflexivity].
Defined.

(** X7.  When [reduce] throws for a relevant event, the loop of [run]
    ends: the snapshot is kept, no observer is called, the reader stays
    in place (so [isClosed] does not change), and no later message of the
    stream is processed. *)
Theorem failing_reduce_ends_the_loop replica q kind doc e :
  lq_running q = true →
  kind ≠ KindOther →
  doc_format doc = "es.5" →
  doc_path doc = lq_rootPath q ∨
    Str.startsWith (doc_path doc) (lq_contentPrefix q) = true →
  reduce (lq_schema q)
    (MkReduceProps replica
       (splitPath (Str.substringFrom (String.length (lq_contentPrefix q)) (doc_path doc)))
       (Some (lq_requestedPath q)) (Live.snapshot q) doc) = Fail e →
  let q' := Live.runTurn replica q (ReadValue (MkEvent kind doc)) in
  Live.snapshot q' = Live.snapshot q ∧
  lq_notified q' = lq_notified q ∧
  Live.isClosed q' = Live.isClosed q ∧
  lq_running q' = false ∧
  ∀ replica' msgs, Live.runLoop replica' q' msgs = q'.
Proof.
  intros Hrun Hkind Hformat Hrel He.
  assert (Live.runTurn replica q (ReadValue (MkEvent kind doc))
          = Live.withRun q (lq_replicaEvents q) false) as ->.
  { unfold Live.runTurn. rewrite Hrun. simpl. rewrite Hformat. simpl.
    unfold Live.handleDoc.
    assert (negb (String.eqb (doc_path doc) (lq_rootPath q)) &&
            negb (Str.startsWith (doc_path doc) (lq_contentPrefix q)) = false) as ->.
    { destruct Hrel as [->| ->]; [by rewrite String.eqb_refl |].
      by rewrite andb_false_r. }
    unfold Live.snapshot in He. rewrite He. simpl. by destruct kind. }
  repeat split. intros replica' msgs. by apply runLoop_not_running.
Qed.

Lemma failing_reduce_ends_the_loop_witness :
  let q := Live.create titleOnly "/o" "/o" VNull in
  let q' := Live.runTurn emptyReplica q
              (ReadValue (MkEvent KindSuccess (textDoc "/o/toString" "x"))) in
  Live.snapshot q' = Live.snapshot q ∧
  lq_notified q' = lq_notified q ∧
  Live.isClosed q' = Live.isClosed q ∧
  lq_running q' = false ∧
  ∀ replica' msgs, Live.runLoop replica' q' msgs = q'.
Proof.
  intros q q'.
  apply (failing_reduce_ends_the_loop emptyReplica q KindSuccess
           (textDoc "/o/toString" "x") notAFunction);
    [reflexivity | discriminate | reflexivity | by right | reflexivity].
Defined.

(** X8.  The end of the stream ends the loop of [run] without closing the
    view: the reader stays in place, so [isClosed] does not change, and
    from then on neither events nor new subscriptions change the
    snapshot or start the loop again. *)
Theorem end_of_stream_leaves_view_stuck replica q :
  lq_running q = true →
  lq_replicaEvents q = true →
  let q' := Live.runTurn replica q ReadDone in
  Live.isClosed q' = false ∧
  Live.snapshot q' = Live.snapshot q ∧
  (∀ replica' msgs, Live.runLoop replica' q' msgs = q') ∧
  (∀ n replica' msgs,
     let q'' := Live.runLoop replica' (Nat.iter n Live.subscribe q') msgs in
     lq_running q'' = false ∧ Live.snapshot q'' = Live.snapshot q) ∧
  Live.run q' = Fail (MkError "Error" "Attempting to start liveQuery while already active").
Proof.
  intros Hrun Hreader.
  assert (Live.runTurn replica q ReadDone = Live.withRun q true false) as ->
    by (unfold Live.runTurn; by rewrite Hrun, Hreader).
  split; [done |]. split; [done |]. split.
  { intros. by apply runLoop_not_running. }
  split; [| done].
  intros n replica' msgs.
  assert (lq_running (Nat.iter n Live.subscribe (Live.withRun q true false)) = false ∧
          lq_replicaEvents (Nat.iter n Live.subscribe (Live.withRun q true false)) = true ∧
          lq_value (Nat.iter n Live.subscribe (Live.withRun q true false)) = lq_value q)
    as (Hr & Hre & Hv).
  { induction n as [|n (IHr & IHre & IHv)]; [done |]. simpl.
    unfold Live.subscribe at 1 3 5. unfold Live.isClosed. simpl. rewrite IHre. done. }
  simpl. rewrite runLoop_not_running by done. done.
Qed.

Lemma end_of_stream_leaves_view_stuck_witness :
  let q := Live.create titled "/someObject" "/someObject" VNull in
  let q' := Live.runTurn emptyReplica q ReadDone in
  Live.isClosed q' = false ∧
  Live.snapshot q' = Live.snapshot q ∧
  (∀ replica' msgs, Live.runLoop replica' q' msgs = q') ∧
  (∀ n replica' msgs,
     let q'' := Live.runLoop replica' (Nat.iter n Live.subscribe q') msgs in
     lq_running q'' = false ∧ Live.snapshot q'' = Live.snapshot q) ∧
  Live.run q' = Fail (MkError "Error" "Attempting to start liveQuery while already active").
Proof.
  exact (end_of_stream_leaves_view_stuck emptyReplica
           (Live.create titled "/someObject" "/someObject" VNull) eq_refl eq_refl).
Defined.

(** X9.  [close] closes the view, clears the observers and keeps the
    snapshot; it is idempotent, and a closed view processes no
    message. *)
Theorem close_is_idempotent q :
  Live.isClosed (Live.close q) = true ∧
  lq_observers (Live.close q) = 0%nat ∧
  Live.snapshot (Live.close q) = Live.snapshot q ∧
  Live.close (Live.close q) = Live.close q ∧
  ∀ replica msgs, Live.runLoop replica (Live.close q) msgs = Live.close q.
Proof.
  repeat split. intros replica msgs. by apply runLoop_not_running.
Qed.

(** X10.  A subscription to a closed view opens it again and starts the
    loop, with the snapshot the view had when it was closed: no read is
    made, so what was written in between is not in the snapshot. *)
Theorem subscribe_reopens_with_stale_snapshot q :
  Live.isClosed q = true →
  let q' := Live.subscribe q in
  Live.isClosed q' = false ∧
  lq_running q' = true ∧
  Live.snapshot q' = Live.snapshot q ∧
  lq_observers q' = S (lq_observers q).
Proof.
  intros Hclosed. unfold Live.subscribe.
  assert (Live.isClosed (Live.withObservers q (S (lq_observers q))) = true) as ->
    by done.
  done.
Qed.

Lemma subscribe_reopens_with_stale_snapshot_witness :
  let q := Live.close (Live.create titled "/someObject" "/someObject"
                         (VObj (<["title" := VStr "SomeObject"]> ∅))) in
  let q' := Live.subscribe q in
  Live.isClosed q' = false ∧
  lq_running q' = true ∧
  Live.snapshot q' = Live.snapshot q ∧
  lq_observers q' = S (lq_observers q).
Proof.
  exact (subscribe_reopens_with_stale_snapshot
           (Live.close (Live.create titled "/someObject" "/someObject"
                          (VObj (<["title" := VStr "SomeObject"]> ∅)))) eq_refl).
Defined.

(** X11.  Of [n] subscriptions to a view without observers, each ended
    once: the view stays open while one of them is left, and ending the
    last one closes it. *)
Theorem last_unsubscribe_closes q n k :
  lq_observers q = 0%nat →
  (k < n)%nat →
  Live.isClosed (Nat.iter k Live.unsubscribe (Nat.iter n Live.subscribe q)) = false ∧
  Live.isClosed (Nat.iter n Live.unsubscribe (Nat.iter n Live.subscribe q)) = true.
Proof.
  intros Hq Hk.
  pose proof (subscribe_iter_observers n q) as Ho. rewrite Hq, Nat.add_0_r in Ho.
  pose proof (subscribe_iter_open n q ltac:(lia)) as Hopen.
  split.
  - destruct (unsubscribe_iter k (Nat.iter n Live.subscribe q)) as [Hc _]; [lia |].
    by rewrite Hc.
  - destruct n as [|n]; [lia |].
    change (Nat.iter (S n) Live.unsubscribe ?x)
      with (Live.unsubscribe (Nat.iter n Live.unsubscribe x)).
    destruct (unsubscribe_iter n (Nat.iter (S n) Live.subscribe q)) as [_ Hn]; [lia |].
    apply unsubscribe_last. rewrite Hn, Ho. lia.
Qed.

Lemma last_unsubscribe_closes_witness :
  let q := Live.create titled "/someObject" "/someObject" VNull in
  Live.isClosed (Nat.iter 1 Live.unsubscribe (Nat.iter 2 Live.subscribe q)) = false ∧
  Live.isClosed (Nat.iter 2 Live.unsubscribe (Nat.iter 2 Live.subscribe q)) = true.
Proof.
  exact (last_unsubscribe_closes
           (Live.create titled "/someObject" "/someObject" VNull) 2 1 eq_refl
           ltac:(lia)).
Defined.

(** ** Atoms (atoms.ts) *)

Section AtomFacts.

Implicit Types (r : Replica) (codec : Codec) (props : WriteProps).

(** What an atom writes when its text is computed and the replica accepts
    the write. *)
Lemma Atom_write_accepted codec props r text :
  (if Js.isNull (wp_data props) then Ok "" else encode codec (wp_data props)) = Ok text →
  accepts r (wp_author props) (wp_path props) = true →
  write (Atom codec) props r =
    (MkReplica (<[wp_path props := MkBody text "es.5" None]> (docs r))
       (attachments r) (accepts r), Fulfilled).
Proof.
  intros Htext Hacc. simpl. unfold Atom_write, async. rewrite Htext.
  unfold Store.set. by rewrite Hacc.
Qed.

Lemma Atom_write_not_thrown codec props r e :
  (write (Atom codec) props r).2 ≠ Thrown e.
Proof.
  simpl. unfold Atom_write, async.
  destruct (if Js.isNull _ then _ else _) as [text|]; [| done].
  destruct (Store.set _ _ _ _ _) as [r' [|reason]]; done.
Qed.

End AtomFacts.

(** X12.  An atom write that fails, because the replica does not accept
    it or because [encode] throws, is rejected and leaves the replica as
    it was. *)
Theorem failed_atom_write_changes_nothing codec props r :
  accepts r (wp_author props) (wp_path props) = false ∨
    (Js.isNull (wp_data props) = false ∧ ∃ e, encode codec (wp_data props) = Fail e) →
  ∃ e, write (Atom codec) props r = (r, Rejected e).
Proof.
  intros H. simpl. unfold Atom_write, async.
  destruct (if Js.isNull _ then _ else _) as [text|e] eqn:Htext.
  - destruct H as [Hacc|[Hnull [e He]]].
    + unfold Store.set. rewrite Hacc. simpl. eauto.
    + rewrite Hnull, He in Htext. done.
  - eauto.
Qed.

Lemma failed_atom_write_changes_nothing_witness :
  ∃ e, write es_datetime (MkWriteProps "me" "/someObject" (VDate None)) someObject
       = (someObject, Rejected e).
Proof.
  apply (failed_atom_write_changes_nothing
           (MkCodec DateTime.toISOString DateTime.parse)
           (MkWriteProps "me" "/someObject" (VDate None))).
  right. split; [reflexivity |]. by eexists.
Defined.

(** X13.  Writing [null] through an atom deletes the value: where the
    replica accepts the write and no other stored path starts with the
    path, the document is left with the empty text and the read that
    follows returns [null], whatever was stored at the path before. *)
Theorem atom_null_write_deletes codec r author path :
  accepts r author path = true →
  aloneAt r path →
  let result := write (Atom codec) (MkWriteProps author path VNull) r in
  result.2 = Fulfilled ∧
  docs result.1 !! path = Some (MkBody "" "es.5" None) ∧
  read (Atom codec) result.1 path = Ok VNull.
Proof.
  intros Hacc Halone.
  pose proof (readDocs_after_set (Atom codec) r author path "" eq_refl Hacc Halone)
    as [Hne Hall].
  rewrite (Atom_write_accepted codec (MkWriteProps author path VNull) r "")
    by done.
  unfold Store.set in Hne, Hall. rewrite Hacc in Hne, Hall. simpl in *.
  split; [done |]. split; [by rewrite lookup_insert_eq |].
  unfold read. apply foldRes_constant; [done |].
  intros a d Hd. by rewrite (Hall d Hd).
Qed.

Lemma atom_null_write_deletes_witness :
  let r := replicaOf [("/n", "12")] in
  let result := write es_number (MkWriteProps "me" "/n" VNull) r in
  result.2 = Fulfilled ∧
  docs result.1 !! "/n" = Some (MkBody "" "es.5" None) ∧
  read es_number result.1 "/n" = Ok VNull.
Proof.
  apply (atom_null_write_deletes (MkCodec numberToString stringToNumber)
           (replicaOf [("/n", "12")]) "me" "/n"); [reflexivity |].
  intros q [b Hb] _. destruct (decide (q = "/n")) as [->|Hne]; [done |].
  exfalso. unfold replicaOf in Hb. simpl in Hb.
  rewrite lookup_insert_ne in Hb by done. by rewrite lookup_empty in Hb.
Defined.

(** X14.  In a set, a key written with a falsy value ([false],
    [undefined], 0 or the empty string) is written as with [null]: both
    leave the same replica and the same outcome. *)
Theorem set_falsy_value_is_null author path key v r :
  Js.truthy v = false →
  write es_set (MkWriteProps author path (VObj {[ key := v ]})) r =
  write es_set (MkWriteProps author path (VObj {[ key := VNull ]})) r.
Proof.
  intros Hv. simpl. unfold CollectionType_write. simpl.
  unfold Js.entries. simpl. rewrite !map_to_list_singleton. simpl.
  unfold Atom_write. simpl. rewrite Hv.
  by destruct (Js.isNull v).
Qed.

Lemma set_falsy_value_is_null_witness :
  write es_set (MkWriteProps "me" "/s" (VObj {[ "1" := VBool false ]})) emptyReplica =
  write es_set (MkWriteProps "me" "/s" (VObj {[ "1" := VNull ]})) emptyReplica.
Proof.
  exact (set_falsy_value_is_null "me" "/s" "1" (VBool false) emptyReplica eq_refl).
Defined.

(** ** Objects and collections: what a document changes *)

(** X15.  [reduce] of an object changes the accumulated value at the key
    of the document only, and [reduce] of a collection at the decoded key
    only: every other own property of the result, the property
    "__proto__" apart, is the own property of the accumulated value.
    (The property "__proto__" is left out because [Object.assign], which
    copies the accumulated value when a key is removed, does not copy
    it.) *)
Theorem reduce_changes_one_key props v k :
  k ≠ "__proto__" →
  (∀ shape,
     reduce (ObjectType shape) props = Ok v →
     k ≠ default SELF_SIGIL (head (rp_pathComponents props)) →
     Js.ownProps v !! k = Js.ownProps (rp_prev props) !! k) ∧
  (∀ valueType key,
     reduce (CollectionType valueType) props = Ok v →
     Uri.decodeURIComponent (head (rp_pathComponents props)) = Ok key →
     k ≠ key →
     Js.ownProps v !! k = Js.ownProps (rp_prev props) !! k).
Proof.
  intros Hproto.
  assert (∀ prev key copy v',
            Js.assign prev = Ok copy → k ≠ key →
            (if isEmptyObject (delete key copy) then Ok VNull
             else Ok (VObj (delete key copy))) = Ok v' →
            Js.ownProps v' !! k = Js.ownProps prev !! k) as Hremove.
  { intros prev key copy v' Hcopy Hk Hv'.
    rewrite <- (assign_lookup prev copy k Hcopy Hproto).
    rewrite <- (lookup_delete_ne copy key k) by done.
    destruct (isEmptyObject _) eqn:E; injection Hv' as <-; [| done].
    apply isEmptyObject_spec in E. by rewrite E. }
  split.
  - intros shape Hv Hk. simpl in Hv. unfold ObjectType_reduce in Hv.
    destruct (shape !! _) as [attr|].
    + destruct (reduce attr _) as [val|]; simpl in Hv; [| done].
      destruct (Js.isNull val).
      * destruct (Js.assign _) as [copy|] eqn:Hcopy; simpl in Hv; [| done].
        rewrite <- (ownProps_orElse (rp_prev props)).
        exact (Hremove _ _ copy v Hcopy Hk Hv).
      * injection Hv as <-. simpl. by rewrite lookup_insert_ne.
    + destruct (inherited _); [done |]. by injection Hv as <-.
  - intros valueType key Hv Hkey Hk. simpl in Hv. unfold CollectionType_reduce in Hv.
    rewrite Hkey in Hv. simpl in Hv.
    assert (∀ v', CollectionType_remove (rp_prev props) key = Ok v' →
                  Js.ownProps v' !! k = Js.ownProps (rp_prev props) !! k) as Hcase.
    { intros v'. unfold CollectionType_remove.
      destruct (Js.assign _) as [copy|] eqn:Hcopy; simpl; [| done].
      exact (Hremove _ _ copy v' Hcopy Hk). }
    destruct (negb _); [by apply Hcase |].
    destruct (reduce valueType _) as [inner|]; simpl in Hv; [| done].
    destruct (Js.isNull inner); [by apply Hcase |].
    injection Hv as <-. simpl. by rewrite lookup_insert_ne.
Qed.

Lemma reduce_changes_one_key_witness :
  let prev := VObj (<["@self" := VStr "hello"]> (<["title" := VStr "SomeObject"]> ∅)) in
  let v := VObj (<["@self" := VStr "hello"]> ∅) in
  Js.ownProps v !! "@self" = Js.ownProps prev !! "@self".
Proof.
  intros prev v.
  apply (proj1 (reduce_changes_one_key
                  (MkReduceProps emptyReplica ["title"] None prev
                     (textDoc "/someObject/title" ""))
                  v "@self" ltac:(discriminate)) titledShape);
    [reflexivity | discriminate].
Defined.

(** ** Objects and collections: writes *)

Section WriteFacts.

Lemma promiseAllMap_noop {A : Type} (f : A → Write) (items : list A) r :
  (∀ x, x ∈ items → f x r = (r, Fulfilled)) →
  promiseAllMap f items None r = (r, Fulfilled).
Proof.
  induction items as [|x items IH]; intros H; simpl; [done |].
  rewrite (H x) by apply list_elem_of_here.
  apply IH. intros y Hy. apply H. by apply list_elem_of_further.
Qed.

Lemma Standard_Confined t : Standard t → Confined t.
Proof.
  induction 1 as [codec| |reduceFn|valueType _ IH|shape _ IH].
  - apply SingleDoc_Confined, Atom_SingleDoc.
  - apply SingleDoc_Confined, AttachmentType_SingleDoc.
  - apply SingleDoc_Confined, MetadataType_SingleDoc.
  - by apply CollectionType_Confined.
  - by apply ObjectType_Confined.
Qed.

End WriteFacts.

(** X16.  An object write whose value has no declared field present
    writes nothing and is fulfilled: so for the empty object (when no
    declared key is a name every object inherits) and for a value that
    is falsy but not [null], such as [undefined]. *)
Theorem object_write_without_fields_is_noop shape props r :
  Js.isNull (wp_data props) = false →
  Js.truthy (wp_data props) = false ∨
    (∀ key, is_Some (shape !! key) → Js.get (wp_data props) key = VUndefined) →
  write (ObjectType shape) props r = (r, Fulfilled).
Proof.
  intros Hnull H. simpl. unfold ObjectType_write, async. rewrite Hnull.
  rewrite promiseAllMap_noop; [done |].
  intros [key t] Hin. apply elem_of_map_to_list in Hin.
  unfold ObjectType_writeField. simpl.
  destruct H as [->|H]; [done |].
  rewrite (H key) by (by eexists). simpl. by rewrite andb_false_r.
Qed.

Lemma object_write_without_fields_is_noop_witness :
  write (ObjectType (<["title" := es_string]> (<["related" := es_set]> ∅)))
    (MkWriteProps "me" "/posts/1" (VObj ∅)) someObject
  = (someObject, Fulfilled).
Proof.
  apply object_write_without_fields_is_noop; [reflexivity |].
  right. intros key [t Ht].
  apply lookup_insert_Some in Ht as [[<- _]|[_ Ht]]; [reflexivity |].
  apply lookup_insert_Some in Ht as [[<- _]|[_ Ht]]; [reflexivity |].
  by rewrite lookup_empty in Ht.
Defined.

(** X17.  A collection write with a falsy value ([undefined], [false], 0
    or the empty string as well as [null]) deletes the subtree: the
    document at the path and every stored document under it are wiped
    where the replica accepts the write, and no other document
    changes. *)
Theorem collection_falsy_write_wipes_subtree valueType props r :
  Js.truthy (wp_data props) = false →
  let result := write (CollectionType valueType) props r in
  result.2 = Fulfilled ∧
  ∀ q, docs result.1 !! q =
       if atOrUnder (wp_path props) q && accepts r (wp_author props) q
       then Store.wiped <$> docs r !! q
       else docs r !! q.
Proof.
  intros Hdata.
  assert (write (CollectionType valueType) props r =
          wipeDocsUnderPath (wp_author props) (wp_path props) r) as ->.
  { change (write (CollectionType valueType) props r)
      with (CollectionType_write valueType props r).
    unfold CollectionType_write, async. by rewrite Hdata. }
  split; [done |]. intros q.
  rewrite wipeDocsUnderPath_lookup.
  destruct (atOrUnder _ q); [| done].
  rewrite wipeDocAtPath_lookup. by rewrite bool_decide_eq_true_2.
Qed.

Lemma collection_falsy_write_wipes_subtree_witness :
  let props := MkWriteProps "me" "/s" VUndefined in
  let r := replicaOf [("/s/1", "1")] in
  let result := write es_set props r in
  result.2 = Fulfilled ∧
  ∀ q, docs result.1 !! q =
       if atOrUnder "/s" q && accepts r "me" q
       then Store.wiped <$> docs r !! q
       else docs r !! q.
Proof.
  exact (collection_falsy_write_wipes_subtree
           (Atom (MkCodec (λ x, Ok (if Js.truthy x then "1" else ""))
                          (λ _, Ok (VBool true))))
           (MkWriteProps "me" "/s" VUndefined) (replicaOf [("/s/1", "1")]) eq_refl).
Defined.

(** X18.  A write through a schema node built from atoms, attachments,
    metadata nodes, collections and objects changes no document outside
    the path it is given and the paths under it, whatever the value and
    whether the write succeeds or fails. *)
Theorem standard_write_stays_under_path t props r q :
  Standard t →
  atOrUnder (wp_path props) q = false →
  docs (write t props r).1 !! q = docs r !! q.
Proof. intros Ht Hq. by apply Standard_Confined. Qed.

Lemma standard_write_stays_under_path_witness :
  let props :=
    MkWriteProps "me" "/posts/2"
      (VObj (<["related" := VObj (<["/posts/1" := VBool true]> ∅)]> ∅)) in
  docs (write (ObjectType (<["title" := es_string]> (<["related" := es_set]> ∅)))
          props someObject).1 !! "/someObject"
  = docs someObject !! "/someObject".
Proof.
  intros props. apply standard_write_stays_under_path; [| reflexivity].
  apply StandardObject. intros key t Ht.
  apply lookup_insert_Some in Ht as [[_ <-]|[_ Ht]]; [apply StandardAtom |].
  apply lookup_insert_Some in Ht as [[_ <-]|[_ Ht]];
    [apply StandardCollection, StandardAtom |].
  by rewrite lookup_empty in Ht.
Defined.

(** ** Collections (types/collection.ts) *)

Section ReadFailure.

Lemma foldRes_fails {A B : Type} (f : A → B → Res A) (l : list B) (a : A) x :
  x ∈ l → (∀ a', ∃ e, f a' x = Fail e) → ∃ e, foldRes f l a = Fail e.
Proof.
  intros Hin Hx. revert a. induction l as [|y l IH]; intros a;
    [by apply elem_of_nil in Hin |].
  simpl. apply elem_of_cons in Hin as [->|Hin].
  - destruct (Hx a) as [e ->]. by eexists.
  - destruct (f a y) as [a'|e]; simpl; [by apply IH | by eexists].
Qed.

End ReadFailure.

(** X19.  A stored key that is not well-formed percent-encoding makes
    the read of the collection fail.  Let the replica store a path that
    consists of the path read, a slash, a segment (not empty and without
    slash) that [decodeURIComponent] rejects, and then nothing more or a
    slash and more.  Then the read of a collection at the path read
    fails, whatever the type of its values and whatever else is
    stored. *)
Theorem malformed_key_fails_collection_read valueType r path segment rest e :
  isSegment segment = true →
  Uri.decode segment = Fail e →
  is_Some (docs r !! (path +:+ "/" +:+ segment +:+ rest)) →
  rest = "" ∨ (∃ s, rest = "/" +:+ s) →
  ∃ e', read (CollectionType valueType) r path = Fail e'.
Proof.
  intros Hseg Hdec [b Hb] Hrest. unfold read.
  set (q := path +:+ "/" +:+ segment +:+ rest) in *.
  assert (head (splitPath (segment +:+ rest)) = Some segment) as Hhead.
  { destruct Hrest as [->|[s ->]].
    - by rewrite append_nil_r, splitPath_segment.
    - by rewrite splitPath_append, splitPath_segment. }
  apply (foldRes_fails _ _ _ (toDoc q b)).
  - unfold readDocs. cbn [getContentPrefix CollectionType].
    assert (toDoc q b
              ∈ Store.queryDocs r (MkFilter (Some (baseContentPrefix path)) None))
      as Hin.
    { apply elem_of_queryDocs. exists b. simpl. split; [done |]. split; [done |].
      unfold Store.matches. simpl. rewrite andb_true_r.
      unfold baseContentPrefix, q. destruct (Str.endsWith path "/").
      - rewrite <- append_assoc. apply startsWith_append.
      - apply startsWith_append. }
    destruct (Store.getLatestDocAtPath r _); [by apply list_elem_of_further | done].
  - intros a. exists e.
    assert (head (splitPath (Str.substringFrom (String.length (baseContentPrefix path)) q))
            = Some segment) as Hkey.
    { unfold baseContentPrefix, q. destruct (Str.endsWith path "/").
      - by rewrite <- append_assoc, substringFrom_append.
      - by rewrite substringFrom_append, splitPath_leading_slash. }
    unfold readStep. cbn [getContentPrefix CollectionType].
    change (doc_path (toDoc q b)) with q.
    cbn [reduce CollectionType]. unfold CollectionType_reduce. cbn [rp_pathComponents].
    rewrite Hkey. cbn [Uri.decodeURIComponent mbind Res_bind]. by rewrite Hdec.
Qed.

Lemma malformed_key_fails_collection_read_witness :
  ∃ e', read es_set (replicaOf [("/s/1", "1"); ("/s/100%", "1")]) "/s" = Fail e'.
Proof.
  apply (malformed_key_fails_collection_read _ _ "/s" "100%" "" Uri.URIError);
    [reflexivity | reflexivity | by eexists | by left].
Defined.

Section FindFacts.

(** [findByCollectionKey] with a collection prefix. *)
Lemma elem_of_findByCollectionKey key r prefix f owner :
  let ending := prefix +:+ "/" +:+ Uri.encodeURIComponent key in
  owner ∈ findByCollectionKey key (MkFindOpts r (Some prefix) f) ↔
  is_Some (docs r !! (owner +:+ ending)) ∧
  match pathStartsWith f with
  | Some start => Str.startsWith (owner +:+ ending) start = true
  | None => True
  end.
Proof.
  intros ending. unfold findByCollectionKey, findFilter.
  change (pathEnding key (MkFindOpts r (Some prefix) f)) with ending.
  cbn [opt_replica opt_filter].
  rewrite list_elem_of_fmap. split.
  - intros [stored [-> Hstored]].
    apply elem_of_queryPaths in Hstored as [Hsome Hm].
    unfold Store.matches in Hm. simpl in Hm.
    apply andb_true_iff in Hm as [Hstart Hend].
    apply endsWith_spec in Hend as [o ->]. cbv beta.
    rewrite length_append.
    replace (String.length o + String.length ending - String.length ending)%nat
      with (String.length o) by lia.
    rewrite sliceTo_append. split; [done |].
    by destruct (pathStartsWith f).
  - intros [Hsome Hstart]. exists (owner +:+ ending). split.
    + cbv beta. rewrite length_append.
      replace (String.length owner + String.length ending - String.length ending)%nat
        with (String.length owner) by lia.
      by rewrite sliceTo_append.
    + apply elem_of_queryPaths. split; [done |].
      unfold Store.matches. simpl. rewrite endsWith_append, andb_true_r.
      by destruct (pathStartsWith f).
Qed.

End FindFacts.

(** X20.  With a collection prefix, [findByCollectionKey] returns exactly
    the owners of the key: a path is returned if and only if the path
    extended by the prefix, a slash and the encoded key is stored and
    passes the filter on the start of the path. *)
Theorem findByCollectionKey_finds_owners key r prefix f owner :
  let ending := prefix +:+ "/" +:+ Uri.encodeURIComponent key in
  owner ∈ findByCollectionKey key (MkFindOpts r (Some prefix) f) ↔
  is_Some (docs r !! (owner +:+ ending)) ∧
  match pathStartsWith f with
  | Some start => Str.startsWith (owner +:+ ending) start = true
  | None => True
  end.
Proof. apply elem_of_findByCollectionKey. Qed.

(** ** Objects of atoms (object.ts, atoms.ts) *)

Section ObjectOfAtoms.

Implicit Types (r : Replica) (l : list (string * EsType)) (codec : Codec).
Implicit Types (shape : gmap string EsType) (a : gmap string JsVal).

Lemma nextPath_inj path key key' : nextPath path key = nextPath path key' → key = key'.
Proof.
  unfold nextPath.
  destruct (String.eqb key SELF_SIGIL) eqn:E, (String.eqb key' SELF_SIGIL) eqn:E'.
  - apply String.eqb_eq in E, E'. congruence.
  - intros H. rewrite <- (append_nil_r path) in H at 1. by apply append_inv_head in H.
  - intros H. symmetry in H. rewrite <- (append_nil_r path) in H at 1.
    by apply append_inv_head in H.
  - intros H. apply append_inv_head in H. by apply append_inv_head in H.
Qed.

Lemma substringFrom_beyond n s : (String.length s ≤ n)%nat → Str.substringFrom n s = "".
Proof.
  revert s. induction n as [|n IH]; intros [|c s] H; simpl in *; try done; try lia.
  apply IH. lia.
Qed.

(** The path components [read] hands to [reduce] for the document of a
    field. *)
Lemma field_components path key :
  isSegment key = true →
  splitPath (Str.substringFrom (String.length (baseContentPrefix path))
               (nextPath path key))
  = if String.eqb key SELF_SIGIL then [] else [key].
Proof.
  intros Hkey. unfold baseContentPrefix, nextPath.
  destruct (Str.endsWith path "/"), (String.eqb key SELF_SIGIL).
  - rewrite substringFrom_beyond; [done |]. rewrite length_append. lia.
  - rewrite <- append_assoc, substringFrom_append. by apply splitPath_segment.
  - rewrite <- (append_nil_r path) at 2. by rewrite substringFrom_append.
  - rewrite substringFrom_append, splitPath_leading_slash. by apply splitPath_segment.
Qed.

Lemma isEmptyObject_empty : isEmptyObject ∅ = true.
Proof. by apply isEmptyObject_spec. Qed.

Lemma isEmptyObject_insert a key v : isEmptyObject (<[key := v]> a) = false.
Proof.
  destruct (isEmptyObject _) eqn:E; [| done].
  apply isEmptyObject_spec in E. by apply insert_non_empty in E.
Qed.

Lemma ownProps_objectOf a : Js.ownProps (objectOf a) = a.
Proof.
  unfold objectOf. destruct (isEmptyObject a) eqn:E; [| done].
  by apply isEmptyObject_spec in E as ->.
Qed.

Lemma ownProps_orElse_objectOf a : Js.ownProps (Js.orElse (objectOf a) (VObj ∅)) = a.
Proof.
  unfold objectOf. destruct (isEmptyObject a) eqn:E; [| done].
  by apply isEmptyObject_spec in E as ->.
Qed.

Lemma objectOf_insert a key v : objectOf (<[key := v]> a) = VObj (<[key := v]> a).
Proof. unfold objectOf. by rewrite isEmptyObject_insert. Qed.

Lemma lookup_storedFields shape data key x :
  storedFields shape data !! key = Some x ↔
  is_Some (shape !! key) ∧ present data key = true ∧
  Js.isNull (Js.get data key) = false ∧ x = Js.get data key.
Proof.
  unfold storedFields. rewrite map_lookup_imap.
  destruct (shape !! key) as [t|]; simpl.
  - destruct (present data key); simpl.
    + destruct (Js.isNull (Js.get data key)); simpl; split.
      * done.
      * by intros (_ & _ & ? & _).
      * intros [= <-]. eauto.
      * by intros (_ & _ & _ & ->).
    + split; [done | by intros (_ & ? & _)].
  - split; [done | by intros ([? ?] & _)].
Qed.

(** One step of [reduce] on the document of an atom field. *)
Lemma ObjectType_reduce_atom shape r comps requested a d key codec :
  default SELF_SIGIL (head comps) = key →
  shape !! key = Some (Atom codec) →
  a !! "__proto__" = None →
  reduce (ObjectType shape) (MkReduceProps r comps requested (objectOf a) d) =
    if String.eqb (doc_text d) "" then Ok (objectOf (delete key a))
    else v ← decode codec (doc_text d);
         if Js.isNull v then Ok (objectOf (delete key a))
         else Ok (VObj (<[key := v]> a)).
Proof.
  intros Hkey Hcodec Hproto. simpl. unfold ObjectType_reduce.
  cbn [rp_pathComponents rp_prev].
  rewrite Hkey, Hcodec. cbn [reduce Atom rp_doc rp_replica]. unfold Atom_reduce.
  cbn [rp_doc].
  rewrite (assign_no_proto (Js.orElse (objectOf a) (VObj ∅)))
    by (by rewrite ownProps_orElse_objectOf).
  rewrite ownProps_orElse_objectOf, ownProps_objectOf.
  assert (∀ m : gmap string JsVal,
            (if isEmptyObject m then Ok VNull else Ok (VObj m)) = Ok (objectOf m)) as Hobj
    by (intros m; unfold objectOf; by destruct (isEmptyObject m)).
  destruct (String.eqb (doc_text d) ""); simpl; [by rewrite Hobj |].
  destruct (decode codec (doc_text d)) as [v|e]; simpl; [| done].
  destruct (Js.isNull v); [by rewrite Hobj | done].
Qed.

(** Folding the documents of fields, in any order and with repetitions,
    gathers the stored fields they stand for. *)
Lemma fold_field_docs shape data path r ds :
  (∀ key, is_Some (shape !! key) → isSegment key = true) →
  shape !! "__proto__" = None →
  (∀ key codec, shape !! key = Some (Atom codec) → present data key = true →
     Js.isNull (Js.get data key) = true ∨ roundTrips codec (Js.get data key)) →
  Forall (isFieldDoc shape data path) ds →
  ∀ a, a ⊆ storedFields shape data →
  ∃ a', foldRes (readStep (ObjectType shape) r path) ds (objectOf a) = Ok (objectOf a') ∧
        a ⊆ a' ∧ a' ⊆ storedFields shape data ∧
        ∀ d key, d ∈ ds → doc_path d = nextPath path key →
                 is_Some (storedFields shape data !! key) → is_Some (a' !! key).
Proof.
  intros Hseg Hproto Hgood Hds.
  induction Hds as [|d ds (key & codec & text & Hshape & Hpresent & Hpath & Htext & Hdoc) _ IH];
    intros a Ha.
  { exists a. repeat split; [done.. |]. intros d key Hd. by apply elem_of_nil in Hd. }
  assert (a !! "__proto__" = None) as Hnoproto.
  { destruct (a !! "__proto__") as [x|] eqn:E; [| done].
    apply (lookup_weaken _ _ _ _ E) in Ha.
    apply lookup_storedFields in Ha as ([t Ht] & _). congruence. }
  assert (readStep (ObjectType shape) r path (objectOf a) d =
          reduce (ObjectType shape)
            (MkReduceProps r (if String.eqb key SELF_SIGIL then [] else [key])
               (Some path) (objectOf a) d)) as Hstep.
  { unfold readStep. cbn [getContentPrefix ObjectType].
    rewrite Hpath, field_components; [done |]. apply Hseg. by eexists. }
  assert (default SELF_SIGIL (head (if String.eqb key SELF_SIGIL then [] else [key])) = key)
    as Hhead.
  { destruct (String.eqb key SELF_SIGIL) eqn:E; [| done].
    by apply String.eqb_eq in E. }
  cbn [foldRes].
  rewrite Hstep, (ObjectType_reduce_atom _ _ _ _ _ _ key codec Hhead Hshape Hnoproto).
  destruct (Hgood key codec Hshape Hpresent) as [Hnull|(Hnull & text' & Henc & Hne & Hdec)].
  - (* the field is [null]: its text is empty and the key is removed *)
    unfold atomText in Htext. rewrite Hnull in Htext. injection Htext as <-.
    rewrite Hdoc. simpl.
    assert (storedFields shape data !! key = None) as Hnone.
    { destruct (storedFields shape data !! key) as [x|] eqn:E; [| done].
      apply lookup_storedFields in E as (_ & _ & E & _). congruence. }
    assert (a !! key = None) as Hakey.
    { destruct (a !! key) as [x|] eqn:E; [| done].
      apply (lookup_weaken _ _ _ _ E) in Ha. congruence. }
    rewrite delete_id by done.
    destruct (IH a Ha) as (a' & Hfold & Haa' & Ha' & Hkeys).
    exists a'. repeat split; [done.. |].
    intros d0 key0 [->|Hd0]%elem_of_cons Hpath0 Hsome; [| by eapply Hkeys].
    rewrite Hpath in Hpath0. apply nextPath_inj in Hpath0 as <-.
    rewrite Hnone in Hsome. by destruct Hsome.
  - (* the field has a value: its text decodes to it and the key is set *)
    unfold atomText in Htext. rewrite Hnull, Henc in Htext. injection Htext as <-.
    rewrite Hdoc. apply String.eqb_neq in Hne. rewrite Hne, Hdec. simpl.
    rewrite Hnull, <- objectOf_insert.
    assert (storedFields shape data !! key = Some (Js.get data key)) as Hstored.
    { apply lookup_storedFields. repeat split; [by eexists | done..]. }
    assert (a ⊆ <[key := Js.get data key]> a) as Hins.
    { apply map_subseteq_spec. intros i v Hi.
      destruct (decide (i = key)) as [->|Hi'].
      - apply (lookup_weaken _ _ _ _ Hi) in Ha. rewrite Hstored in Ha.
        injection Ha as <-. by rewrite lookup_insert_eq.
      - by rewrite lookup_insert_ne. }
    destruct (IH (<[key := Js.get data key]> a)) as (a' & Hfold & Haa' & Ha' & Hkeys).
    { by apply insert_subseteq_l. }
    exists a'. repeat split; [done | by etrans | done |].
    intros d0 key0 [->|Hd0]%elem_of_cons Hpath0 Hsome; [| by eapply Hkeys].
    rewrite Hpath in Hpath0. apply nextPath_inj in Hpath0 as <-.
    exists (Js.get data key). apply (lookup_weaken _ _ _ _ (lookup_insert_eq _ _ _) Haa').
Qed.

(** What the write of one atom does. *)
Lemma Atom_write_cases codec props r :
  let result := write (Atom codec) props r in
  accepts result.1 = accepts r ∧
  ((∃ text, atomText codec (wp_data props) = Ok text ∧
            accepts r (wp_author props) (wp_path props) = true ∧
            docs result.1 = <[wp_path props := MkBody text "es.5" None]> (docs r) ∧
            result.2 = Fulfilled) ∨
   (((∃ e, atomText codec (wp_data props) = Fail e) ∨
     accepts r (wp_author props) (wp_path props) = false) ∧
    result.1 = r ∧ ∃ e, result.2 = Rejected e)).
Proof.
  simpl. unfold Atom_write, async, atomText.
  destruct (if Js.isNull _ then _ else _) as [text|e]; simpl.
  - unfold Store.set. destruct (accepts r _ _) eqn:Hacc; simpl.
    + split; [done |]. left. by exists text.
    + split; [done |]. right. split; [by right |]. split; [done | by eexists].
  - split; [done |]. right. split; [left; by eexists |]. split; [done | by eexists].
Qed.

Lemma writeField_atom props key codec r :
  ObjectType_writeField props (key, Atom codec) r =
    if present (wp_data props) key
    then write (Atom codec)
           (MkWriteProps (wp_author props) (nextPath (wp_path props) key)
              (Js.get (wp_data props) key)) r
    else (r, Fulfilled).
Proof.
  unfold ObjectType_writeField, present. cbn [fst snd].
  by destruct (Js.truthy _ && negb _).
Qed.

(** What the write of one field of an object of atoms does. *)
Lemma writeField_cases props key codec r :
  let result := ObjectType_writeField props (key, Atom codec) r in
  let x := Js.get (wp_data props) key in
  let p := nextPath (wp_path props) key in
  accepts result.1 = accepts r ∧
  ((present (wp_data props) key = false ∧ result = (r, Fulfilled)) ∨
   (present (wp_data props) key = true ∧
    ∃ text, atomText codec x = Ok text ∧ accepts r (wp_author props) p = true ∧
            docs result.1 = <[p := MkBody text "es.5" None]> (docs r) ∧
            result.2 = Fulfilled) ∨
   (present (wp_data props) key = true ∧
    ((∃ e, atomText codec x = Fail e) ∨ accepts r (wp_author props) p = false) ∧
    result.1 = r ∧ ∃ e, result.2 = Rejected e)).
Proof.
  intros result x p. subst result. rewrite writeField_atom.
  destruct (present (wp_data props) key) eqn:Hpresent.
  - destruct (Atom_write_cases codec
                (MkWriteProps (wp_author props) p x) r) as [Hacc [H|H]];
      (split; [done |]); right; [left | right]; by split.
  - split; [done |]. by left.
Qed.

(** A present field whose text is computed and whose write the replica
    accepts is stored, whatever happens to the other fields. *)
Lemma atomFields_store props l key codec text :
  (∀ k t, (k, t) ∈ l → ∃ c, t = Atom c) →
  NoDup l.*1 →
  (key, Atom codec) ∈ l →
  present (wp_data props) key = true →
  atomText codec (Js.get (wp_data props) key) = Ok text →
  ∀ rejection r,
    accepts r (wp_author props) (nextPath (wp_path props) key) = true →
    docs (promiseAllMap (ObjectType_writeField props) l rejection r).1
      !! nextPath (wp_path props) key
    = Some (MkBody text "es.5" None).
Proof.
  intros Hatoms Hnodup Hin Hpresent Htext.
  induction l as [|[k t] l IH]; [by apply elem_of_nil in Hin |].
  intros rejection r Hacc.
  apply NoDup_cons in Hnodup as [Hk Hnodup]. cbn [promiseAllMap].
  assert (∀ k' t', (k', t') ∈ l → ∃ c, t' = Atom c) as Hatoms'
    by (intros k' t' H; apply (Hatoms k' t'); by apply list_elem_of_further).
  apply elem_of_cons in Hin as [[= <- <-]|Hin].
  - (* the field itself: stored now, and kept by the fields after it *)
    destruct (writeField_cases props key codec r)
      as [_ [[H _]|[(_ & text' & Htext' & _ & Hdocs & Hout)|(_ & [[e He]|H] & _)]]];
      [congruence | | congruence..].
    rewrite Htext in Htext'. injection Htext' as <-.
    destruct (ObjectType_writeField props (key, Atom codec) r) as [r1 o].
    simpl in Hdocs, Hout. subst o.
    assert (preserves (promiseAllMap (ObjectType_writeField props) l rejection)
              (nextPath (wp_path props) key)) as Hkeep.
    { apply promiseAllMap_preserves. intros [k' t'] Hin' r0.
      destruct (Hatoms' k' t' Hin') as [c ->]. rewrite writeField_atom.
      destruct (present _ k'); [| done].
      apply (Atom_SingleDoc c). simpl. intros Heq%nextPath_inj. subst k'.
      apply Hk. apply list_elem_of_fmap. by exists (key, Atom c). }
    rewrite Hkeep, Hdocs. apply lookup_insert_eq.
  - (* another field first: it leaves what the replica accepts as it is *)
    destruct (Hatoms k t (list_elem_of_here _ _)) as [c ->].
    pose proof (writeField_cases props k c r) as [Hacc1 Hcases].
    destruct (ObjectType_writeField props (k, Atom c) r) as [r1 o].
    simpl in Hacc1.
    assert (accepts r1 (wp_author props) (nextPath (wp_path props) key) = true)
      as Hacc' by (by rewrite Hacc1).
    destruct Hcases as [[_ [= -> ->]]|[(_ & _ & _ & _ & _ & Hout)|(_ & _ & _ & e & Hout)]];
      try (simpl in Hout; subst o); by apply IH.
Qed.

(** Every document found after the write of the fields was there before
    or holds the text of a present field. *)
Lemma atomFields_only props l :
  (∀ k t, (k, t) ∈ l → ∃ c, t = Atom c) →
  ∀ rejection r q b,
    docs (promiseAllMap (ObjectType_writeField props) l rejection r).1 !! q = Some b →
    docs r !! q = Some b ∨
    ∃ key codec text,
      (key, Atom codec) ∈ l ∧ present (wp_data props) key = true ∧
      atomText codec (Js.get (wp_data props) key) = Ok text ∧
      q = nextPath (wp_path props) key ∧ b = MkBody text "es.5" None.
Proof.
  intros Hatoms. induction l as [|[k t] l IH]; intros rejection r q b; [by left |].
  cbn [promiseAllMap].
  assert (∀ k' t', (k', t') ∈ l → ∃ c, t' = Atom c) as Hatoms'
    by (intros k' t' H; apply (Hatoms k' t'); by apply list_elem_of_further).
  destruct (Hatoms k t (list_elem_of_here _ _)) as [c ->].
  pose proof (writeField_cases props k c r) as [_ Hcases].
  destruct (ObjectType_writeField props (k, Atom c) r) as [r1 o].
  assert (∀ rejection',
            docs (promiseAllMap (ObjectType_writeField props) l rejection' r1).1 !! q
              = Some b →
            docs r !! q = Some b ∨
            ∃ key codec text,
              (key, Atom codec) ∈ (k, Atom c) :: l ∧ present (wp_data props) key = true ∧
              atomText codec (Js.get (wp_data props) key) = Ok text ∧
              q = nextPath (wp_path props) key ∧ b = MkBody text "es.5" None) as Hrest.
  { intros rejection' H. apply (IH Hatoms') in H as [H|(key & codec & text & Hin & H)].
    - destruct Hcases as [[_ [= -> _]]|[(Hp & text & Htext & _ & Hdocs & _)|(_ & _ & Hr & _)]].
      + by left.
      + simpl in Hdocs. rewrite Hdocs in H.
        apply lookup_insert_Some in H as [[<- <-]|[_ H]]; [| by left].
        right. exists k, c, text. repeat split; [apply list_elem_of_here | done..].
      + simpl in Hr. subst r1. by left.
    - right. exists key, codec, text. split; [by apply list_elem_of_further | done]. }
  destruct Hcases as [[_ [= _ ->]]|[(_ & _ & _ & _ & _ & Hout)|(_ & _ & _ & e & Hout)]];
    try (simpl in Hout; subst o); apply Hrest.
Qed.

(** The atom determines the text it stores. *)
Lemma atomText_Atom_inj codec c x : Atom codec = Atom c → atomText codec x = atomText c x.
Proof.
  intros H.
  apply (f_equal (λ t, write t (MkWriteProps "" "" x) emptyReplica)) in H.
  simpl in H. unfold Atom_write, async, Store.set in H. simpl in H.
  unfold atomText.
  destruct (if Js.isNull x then Ok "" else encode codec x) as [text|e],
           (if Js.isNull x then Ok "" else encode c x) as [text'|e'];
    simpl in H; try discriminate H.
  - apply (f_equal (λ p : Replica * Outcome, docs p.1 !! "")) in H. simpl in H.
    rewrite !lookup_insert_eq in H. congruence.
  - congruence.
Qed.

(** The outcome of the write of the fields. *)
Lemma atomFields_outcome props l :
  (∀ k t, (k, t) ∈ l → ∃ c, t = Atom c) →
  ∀ rejection r,
    let result := promiseAllMap (ObjectType_writeField props) l rejection r in
    (∀ e, result.2 ≠ Thrown e) ∧
    (rejection = None →
     (∀ key codec, (key, Atom codec) ∈ l → present (wp_data props) key = true →
        (∃ text, atomText codec (Js.get (wp_data props) key) = Ok text) ∧
        accepts r (wp_author props) (nextPath (wp_path props) key) = true) →
     result.2 = Fulfilled) ∧
    (is_Some rejection ∨
     (∃ key codec, (key, Atom codec) ∈ l ∧ present (wp_data props) key = true ∧
        ((∃ e, atomText codec (Js.get (wp_data props) key) = Fail e) ∨
         accepts r (wp_author props) (nextPath (wp_path props) key) = false)) →
     ∃ e, result.2 = Rejected e).
Proof.
  intros Hatoms. induction l as [|[k t] l IH]; intros rejection r.
  { cbn [promiseAllMap snd]. repeat split.
    - by destruct rejection.
    - by intros ->.
    - intros [[e ->]|(key & codec & Hin & _)]; [by eexists |].
      by apply elem_of_nil in Hin. }
  assert (∀ k' t', (k', t') ∈ l → ∃ c, t' = Atom c) as Hatoms'
    by (intros k' t' H; apply (Hatoms k' t'); by apply list_elem_of_further).
  destruct (Hatoms k t (list_elem_of_here _ _)) as [c ->].
  cbn zeta. cbn [promiseAllMap].
  pose proof (writeField_cases props k c r) as [Hacc1 Hcases].
  destruct (ObjectType_writeField props (k, Atom c) r) as [r1 o]. simpl in Hacc1.
  destruct Hcases as [[Hp [= -> ->]]|[(Hp & text & Htext & Hacc & _ & Hout)|
                                     (Hp & Hfail & _ & e & Hout)]];
    try (simpl in Hout; subst o).
  - (* the field is absent *)
    destruct (IH Hatoms' rejection r) as (Hthrown & Hok & Hrej).
    split; [done |]. split.
    + intros Hnone Hall. apply Hok; [done |].
      intros key codec Hin. apply Hall. by apply list_elem_of_further.
    + intros [H|(key & codec & [Heq|Hin]%elem_of_cons & Hpk & H)].
      * apply Hrej. by left.
      * apply pair_equal_spec in Heq as [-> _]. congruence.
      * apply Hrej. right. by exists key, codec.
  - (* the field is stored *)
    destruct (IH Hatoms' rejection r1) as (Hthrown & Hok & Hrej).
    split; [done |]. split.
    + intros Hnone Hall. apply Hok; [done |].
      intros key codec Hin Hpk. rewrite Hacc1.
      apply Hall; [by apply list_elem_of_further | done].
    + intros [H|(key & codec & [Heq|Hin]%elem_of_cons & Hpk & H)].
      * apply Hrej. by left.
      * apply pair_equal_spec in Heq as [-> Heq].
        rewrite (atomText_Atom_inj _ _ _ Heq) in H.
        destruct H as [[e He]|H]; congruence.
      * apply Hrej. right. exists key, codec. by rewrite Hacc1.
  - (* the field fails *)
    destruct (IH Hatoms' (match rejection with Some e0 => Some e0 | None => Some e end) r1)
      as (Hthrown & _ & Hrej).
    split; [done |]. split.
    + intros Hnone Hall.
      destruct (Hall k c (list_elem_of_here _ _) Hp) as [[text Htext] Hacc].
      destruct Hfail as [[e' He']|Hfail]; congruence.
    + intros _. apply Hrej. left. by destruct rejection.
Qed.

End ObjectOfAtoms.

Section ObjectRoundTrip.

Implicit Types (r : Replica) (shape : gmap string EsType).

(** The documents [read] folds: the one at the path and those whose path
    starts with the contents prefix. *)
Lemma elem_of_readDocs t r path d :
  getContentPrefix t = baseContentPrefix →
  d ∈ readDocs t r path ↔
  ∃ b, docs r !! doc_path d = Some b ∧ d = toDoc (doc_path d) b ∧
       (doc_path d = path ∨ Str.startsWith (doc_path d) (baseContentPrefix path) = true).
Proof.
  intros Hprefix. unfold readDocs. rewrite Hprefix, stripTrailingSlash_base.
  unfold Store.getLatestDocAtPath.
  assert (d ∈ Store.queryDocs r (MkFilter (Some (baseContentPrefix path)) None) ↔
          ∃ b, docs r !! doc_path d = Some b ∧ d = toDoc (doc_path d) b ∧
               Str.startsWith (doc_path d) (baseContentPrefix path) = true) as Hq.
  { rewrite elem_of_queryDocs. unfold Store.matches. simpl.
    by setoid_rewrite andb_true_r. }
  destruct (docs r !! path) as [b0|] eqn:Hroot; simpl.
  - rewrite elem_of_cons, Hq. split.
    + intros [->|(b & Hb & Hd & Hs)]; [| by eauto 6].
      exists b0. simpl. eauto.
    + intros (b & Hb & Hd & [Hp|Hs]); [| right; by eauto].
      left. rewrite Hp in Hb, Hd. congruence.
  - rewrite Hq. split.
    + intros (b & Hb & Hd & Hs). eauto 6.
    + intros (b & Hb & Hd & [Hp|Hs]); [| by eauto]. rewrite Hp in Hb. congruence.
Qed.

Lemma startsWith_self s : Str.startsWith s s = true.
Proof. apply startsWith_spec. exists "". by rewrite append_nil_r. Qed.


Lemma async_fulfilled (w : Write) r : (w r).2 = Fulfilled → async w r = w r.
Proof. unfold async. destruct (w r) as [r' [| |]]; simpl; done. Qed.


Lemma ObjectType_write_fields shape props r :
  Js.isNull (wp_data props) = false →
  write (ObjectType shape) props r =
    async (promiseAllMap (ObjectType_writeField props) (map_to_list shape) None) r.
Proof. intros H. simpl. unfold ObjectType_write. by rewrite H. Qed.

Lemma atomShape_list shape :
  atomShape shape → ∀ k t, (k, t) ∈ map_to_list shape → ∃ c, t = Atom c.
Proof. intros H k t Hin. apply elem_of_map_to_list in Hin. eauto. Qed.

End ObjectRoundTrip.

(** X21.  An object of atoms is read back after it is written.  Let
    every field of the shape be an atom and every key of the shape a path
    segment (not empty and without slash) other than "__proto__"; let the
    value written be a plain object, and let every declared field that is
    present in it (not [undefined]) be [null] or a value that its codec
    gives back ([encode] gives a text that is not empty, from which
    [decode] gives the value); let the replica accept a document at the
    path of every declared field, and let it store no path that starts
    with the path written at.  Then the write is fulfilled; the read at
    the path that follows returns the object of the declared fields that
    are present and not [null], or [null] when there is none; and the
    fold of [read] gives this value for the same documents in every
    order, with or without repetitions. *)
Theorem object_of_atoms_write_then_read shape data r author path :
  atomShape shape →
  (∀ key, is_Some (shape !! key) → isSegment key = true) →
  shape !! "__proto__" = None →
  (∃ m, data = VObj m) →
  (∀ key codec, shape !! key = Some (Atom codec) → present data key = true →
     Js.isNull (Js.get data key) = true ∨ roundTrips codec (Js.get data key)) →
  (∀ key, is_Some (shape !! key) → accepts r author (nextPath path key) = true) →
  nothingUnder r path →
  let result := write (ObjectType shape) (MkWriteProps author path data) r in
  result.2 = Fulfilled ∧
  read (ObjectType shape) result.1 path = Ok (objectOf (storedFields shape data)) ∧
  ∀ ds, (∀ d, d ∈ ds ↔ d ∈ readDocs (ObjectType shape) result.1 path) →
        foldRes (readStep (ObjectType shape) result.1 path) ds VNull
        = Ok (objectOf (storedFields shape data)).
Proof.
  intros Hatoms Hseg Hproto Hobject Hgood Hacc Hnothing.
  assert (Js.isNull data = false) as Hnull by (by destruct Hobject as [m ->]).
  set (props := MkWriteProps author path data).
  assert (∀ key codec, shape !! key = Some (Atom codec) → present data key = true →
            ∃ text, atomText codec (Js.get data key) = Ok text) as Htexts.
  { intros key codec Hk Hp. unfold atomText.
    destruct (Hgood key codec Hk Hp) as [->|(-> & text & -> & _)]; eauto. }
  pose proof (atomFields_outcome props (map_to_list shape) (atomShape_list _ Hatoms) None r)
    as (_ & Hok & _).
  assert ((promiseAllMap (ObjectType_writeField props) (map_to_list shape) None r).2
          = Fulfilled) as Hout.
  { apply Hok; [done |]. intros key codec Hin%elem_of_map_to_list Hp. split.
    - by apply Htexts.
    - apply Hacc. by eexists. }
  cbv zeta. rewrite ObjectType_write_fields, async_fulfilled by done.
  split; [done |].
  set (r' := (promiseAllMap (ObjectType_writeField props) (map_to_list shape) None r).1).
  assert (∀ ds, (∀ d, d ∈ ds ↔ d ∈ readDocs (ObjectType shape) r' path) →
                foldRes (readStep (ObjectType shape) r' path) ds VNull
                = Ok (objectOf (storedFields shape data))) as Hany.
  { intros ds Hsame.
    (* the documents folded are those of the present fields *)
    assert (Forall (isFieldDoc shape data path) ds) as Hdocs.
    { apply Forall_forall. intros d Hd. apply Hsame in Hd.
      apply elem_of_readDocs in Hd as (b & Hb & Hd & Hwhere); [| done].
      assert (Str.startsWith (doc_path d) path = true) as Hunder.
      { destruct Hwhere as [->|Hs]; [apply startsWith_self | by apply startsWith_base]. }
      apply (atomFields_only props _ (atomShape_list _ Hatoms)) in Hb
        as [Hb|(key & codec & text & Hin%elem_of_map_to_list & Hp & Htext & Hq & ->)].
      - rewrite Hnothing in Hunder by (by eexists). done.
      - exists key, codec, text. repeat split; [done.. |]. by rewrite Hd. }
    destruct (fold_field_docs shape data path r' _ Hseg Hproto Hgood Hdocs ∅)
      as (a' & Hfold & _ & Ha' & Hkeys); [apply map_empty_subseteq |].
    change VNull with (objectOf ∅) at 1.
    rewrite Hfold. f_equal. f_equal.
    (* every stored field has its document among them *)
    apply (anti_symm (⊆)); [done |].
    apply map_subseteq_spec. intros key x Hx.
    assert (is_Some (a' !! key)) as [x' Hx'].
    { pose proof Hx as (Hsome & Hp & Hnn & _)%lookup_storedFields.
      destruct Hsome as [t Ht]. destruct (Hatoms key t Ht) as [codec ->].
      destruct (Htexts key codec Ht Hp) as [text Htext].
      pose proof (atomFields_store props (map_to_list shape) key codec text
                    (atomShape_list _ Hatoms) (NoDup_fst_map_to_list _)
                    (proj2 (elem_of_map_to_list _ _ _) Ht) Hp Htext None r
                    (Hacc key (ltac:(by eexists)))) as Hstored.
      fold r' in Hstored. simpl in Hstored.
      apply (Hkeys (toDoc (nextPath path key) (MkBody text "es.5" None)) key);
        [| done | by eexists].
      apply Hsame.
      apply elem_of_readDocs; [done |]. exists (MkBody text "es.5" None).
      split; [done |]. split; [done |]. simpl. unfold nextPath.
      destruct (String.eqb key SELF_SIGIL); [by left |]. right.
      unfold baseContentPrefix. destruct (Str.endsWith path "/").
      - rewrite <- append_assoc. apply startsWith_append.
      - apply startsWith_append. }
    rewrite Hx'. f_equal. apply (lookup_weaken _ _ _ _ Hx') in Ha'. congruence. }
  split; [| exact Hany].
  unfold read. by apply Hany.
Qed.

Lemma object_of_atoms_write_then_read_witness :
  let data := VObj (<["title" := VStr "T"]> (<["@self" := VNull]> (<["extra" := VStr "x"]> ∅))) in
  let result := write titled (MkWriteProps "me" "/posts/1" data) emptyReplica in
  result.2 = Fulfilled ∧
  read titled result.1 "/posts/1" = Ok (objectOf (storedFields titledShape data)) ∧
  ∀ ds, (∀ d, d ∈ ds ↔ d ∈ readDocs titled result.1 "/posts/1") →
        foldRes (readStep titled result.1 "/posts/1") ds VNull
        = Ok (objectOf (storedFields titledShape data)).
Proof.
  intros data.
  assert (∀ key t, titledShape !! key = Some t →
            (key = "@self" ∨ key = "title") ∧ t = es_string) as Hshape.
  { intros key t. unfold titledShape.
    intros [[<- <-]|[_ [[<- <-]|[_ H]]%lookup_insert_Some]]%lookup_insert_Some;
      [auto | auto | by rewrite lookup_empty in H]. }
  apply (object_of_atoms_write_then_read titledShape data emptyReplica "me" "/posts/1").
  - intros key t [_ ->]%Hshape. by eexists.
  - intros key [t [[->| ->] _]%Hshape]; reflexivity.
  - reflexivity.
  - by eexists.
  - intros key codec Ht Hp. destruct (Hshape _ _ Ht) as [[->| ->] Heq].
    + by left.
    + right. split; [reflexivity |]. exists "T".
      assert (atomText codec (VStr "T") = Ok "T") as Henc
        by (by rewrite (atomText_Atom_inj _ _ _ Heq)).
      assert (reduce (Atom codec)
                (MkReduceProps emptyReplica [] None VNull (MkDoc "" "T" "" None))
              = Ok (VStr "T")) as Hdec by (by rewrite Heq).
      split; [exact Henc |]. split; [done | exact Hdec].
  - reflexivity.
  - intros q [b Hb]. cbn in Hb. by rewrite lookup_empty in Hb.
Defined.



(** ** Keys of collections: percent-encoding *)

Section UriFacts.

Lemma hexValue_hexDigit n : (n < 16)%nat → Uri.hexValue (Uri.hexDigit n) = Some n.
Proof.
  intros H. do 16 (destruct n as [|n]; [reflexivity |]). lia.
Qed.

Lemma unreserved_not_percent c : Uri.unreserved c = true → Ascii.eqb c "%" = false.
Proof.
  intros H. destruct (Ascii.eqb c "%") eqn:E; [| done].
  apply Ascii.eqb_eq in E as ->. discriminate H.
Qed.

Lemma unreserved_not_slash c : Uri.unreserved c = true → Ascii.eqb c "/" = false.
Proof.
  intros H. destruct (Ascii.eqb c "/") eqn:E; [| done].
  apply Ascii.eqb_eq in E as ->. discriminate H.
Qed.

Lemma hexDigit_not_slash n : (n < 16)%nat → Ascii.eqb (Uri.hexDigit n) "/" = false.
Proof.
  intros H. do 16 (destruct n as [|n]; [reflexivity |]). lia.
Qed.

Lemma nat_of_ascii_bound c : (nat_of_ascii c < 256)%nat.
Proof. apply nat_ascii_bounded. Qed.

(** The escape of a byte is read back as the byte. *)
Lemma decode_escape c :
  let n := nat_of_ascii c in
  Uri.hexValue (Uri.hexDigit (n / 16)) = Some (n / 16)%nat ∧
  Uri.hexValue (Uri.hexDigit (n mod 16)) = Some (n mod 16)%nat ∧
  ascii_of_nat (16 * (n / 16) + n mod 16) = c.
Proof.
  intros n. pose proof (nat_of_ascii_bound c) as Hc. fold n in Hc.
  split; [| split].
  - apply hexValue_hexDigit. apply Nat.Div0.div_lt_upper_bound. lia.
  - apply hexValue_hexDigit. apply Nat.mod_upper_bound. lia.
  - rewrite <- (Nat.div_mod_eq n 16). apply ascii_nat_embedding.
Qed.

Lemma continuation_ascii n : (n < 128)%nat → Uri.continuation n = Some [].
Proof.
  intros H. unfold Uri.continuation. by rewrite (proj2 (Nat.ltb_lt _ _) H).
Qed.

Lemma decode_encodeURIComponent key :
  isAscii key = true → Uri.decode (Uri.encodeURIComponent key) = Ok key.
Proof.
  unfold Uri.decode. induction key as [|c key IH]; [done |].
  intros [Hc Hkey]%andb_true_iff. apply Nat.ltb_lt in Hc.
  cbn [Uri.encodeURIComponent]. destruct (Uri.unreserved c) eqn:Hu.
  - cbn [Uri.decodeFrom]. rewrite (unreserved_not_percent c Hu). by rewrite IH.
  - cbv zeta. cbn [Uri.decodeFrom].
    change (Ascii.eqb "%" "%") with true. cbv iota.
    destruct (decode_escape c) as (-> & -> & Hcode).
    assert (16 * (nat_of_ascii c / 16) + nat_of_ascii c mod 16 = nat_of_ascii c)%nat
      as Hbyte by (symmetry; apply Nat.div_mod_eq).
    cbv zeta. rewrite Hbyte, (continuation_ascii _ Hc), IH by done.
    by rewrite ascii_nat_embedding.
Qed.

Lemma encodeURIComponent_lacks_slash key :
  Str.lacks "/" (Uri.encodeURIComponent key) = true.
Proof.
  induction key as [|c key IH]; [done |].
  cbn [Uri.encodeURIComponent]. destruct (Uri.unreserved c) eqn:Hu.
  - cbn [Str.lacks]. by rewrite (unreserved_not_slash c Hu), IH.
  - cbv zeta. cbn [Str.lacks].
    pose proof (nat_of_ascii_bound c) as Hc.
    rewrite !hexDigit_not_slash, IH; [done | |].
    + apply Nat.mod_upper_bound. lia.
    + apply Nat.Div0.div_lt_upper_bound. lia.
Qed.

Lemma encodeURIComponent_nonEmpty key :
  Str.nonEmpty (Uri.encodeURIComponent key) = Str.nonEmpty key.
Proof.
  destruct key as [|c key]; [done |]. cbn [Uri.encodeURIComponent].
  by destruct (Uri.unreserved c).
Qed.

Lemma encodeURIComponent_segment key :
  key ≠ "" → isSegment (Uri.encodeURIComponent key) = true.
Proof.
  intros Hkey. unfold isSegment.
  rewrite encodeURIComponent_nonEmpty, encodeURIComponent_lacks_slash.
  by destruct key.
Qed.

Lemma escape_inj c c' :
  Uri.hexDigit (nat_of_ascii c / 16) = Uri.hexDigit (nat_of_ascii c' / 16) →
  Uri.hexDigit (nat_of_ascii c mod 16) = Uri.hexDigit (nat_of_ascii c' mod 16) →
  c = c'.
Proof.
  intros Hh Hl.
  destruct (decode_escape c) as (Hh1 & Hl1 & Hc).
  destruct (decode_escape c') as (Hh2 & Hl2 & Hc').
  rewrite Hh, Hh2 in Hh1. rewrite Hl, Hl2 in Hl1.
  assert (nat_of_ascii c / 16 = nat_of_ascii c' / 16)%nat as E1 by congruence.
  assert (nat_of_ascii c mod 16 = nat_of_ascii c' mod 16)%nat as E2 by congruence.
  rewrite <- Hc, <- Hc'. by rewrite E1, E2.
Qed.

(** Distinct keys have distinct encodings. *)
Lemma encodeURIComponent_inj key key' :
  Uri.encodeURIComponent key = Uri.encodeURIComponent key' → key = key'.
Proof.
  revert key'. induction key as [|c key IH]; intros [|c' key'].
  - done.
  - cbn [Uri.encodeURIComponent]. by destruct (Uri.unreserved c').
  - cbn [Uri.encodeURIComponent]. by destruct (Uri.unreserved c).
  - cbn [Uri.encodeURIComponent]. cbv zeta.
    destruct (Uri.unreserved c) eqn:Hu, (Uri.unreserved c') eqn:Hu'.
    + intros [= -> H]. f_equal. by apply IH.
    + intros [= -> _]. discriminate Hu.
    + intros [= <- _]. discriminate Hu'.
    + intros H. injection H as Hh Hl H. f_equal; [| by apply IH].
      apply escape_inj; [exact Hh | exact Hl].
Qed.

Lemma entryPath_inj path key key' : entryPath path key = entryPath path key' → key = key'.
Proof.
  unfold entryPath. intros H. apply append_inv_head, append_inv_head in H.
  by apply encodeURIComponent_inj.
Qed.

(** The path components [read] hands to [reduce] for the document of an
    entry. *)
Lemma entry_components path key :
  key ≠ "" →
  splitPath (Str.substringFrom (String.length (baseContentPrefix path))
               (entryPath path key))
  = [Uri.encodeURIComponent key].
Proof.
  intros Hkey. apply encodeURIComponent_segment in Hkey.
  unfold baseContentPrefix, entryPath. destruct (Str.endsWith path "/").
  - rewrite <- append_assoc, substringFrom_append. by apply splitPath_segment.
  - rewrite substringFrom_append, splitPath_leading_slash. by apply splitPath_segment.
Qed.

End UriFacts.

(** ** Collections of atoms (types/collection.ts, atoms.ts) *)

Section CollectionOfAtoms.

Implicit Types (r : Replica) (l : list (string * JsVal)) (codec : Codec).
Implicit Types (m a : gmap string JsVal).

(** The callback of [Object.entries(data).map] in [CollectionType.write],
    for a collection of atoms. *)
Lemma entryWrite_cases codec author path (entry : string * JsVal) r :
  let result :=
    write (Atom codec) (MkWriteProps author (entryPath path entry.1) entry.2) r in
  accepts result.1 = accepts r ∧
  ((∃ text, atomText codec entry.2 = Ok text ∧
            accepts r author (entryPath path entry.1) = true ∧
            docs result.1 = <[entryPath path entry.1 := MkBody text "es.5" None]> (docs r) ∧
            result.2 = Fulfilled) ∨
   (((∃ e, atomText codec entry.2 = Fail e) ∨
     accepts r author (entryPath path entry.1) = false) ∧
    result.1 = r ∧ ∃ e, result.2 = Rejected e)).
Proof.
  apply (Atom_write_cases codec (MkWriteProps author (entryPath path entry.1) entry.2)).
Qed.

(** An entry whose text is computed and whose write the replica accepts
    is stored, whatever happens to the other entries. *)
Lemma entries_store codec author path l key x text :
  NoDup l.*1 →
  (key, x) ∈ l →
  atomText codec x = Ok text →
  ∀ rejection r,
    accepts r author (entryPath path key) = true →
    docs (promiseAllMap
            (λ entry : string * JsVal,
               write (Atom codec) (MkWriteProps author (entryPath path entry.1) entry.2))
            l rejection r).1 !! entryPath path key
    = Some (MkBody text "es.5" None).
Proof.
  intros Hnodup Hin Htext.
  induction l as [|[k v] l IH]; [by apply elem_of_nil in Hin |].
  intros rejection r Hacc.
  apply NoDup_cons in Hnodup as [Hk Hnodup]. cbn [promiseAllMap].
  pose proof (entryWrite_cases codec author path (k, v) r) as [Hacc1 Hcases].
  cbn [fst snd] in *.
  apply elem_of_cons in Hin as [[= <- <-]|Hin].
  - destruct Hcases as [(text' & Htext' & _ & Hdocs & Hout)|([[e He]|H] & _)];
      [| congruence..].
    rewrite Htext in Htext'. injection Htext' as <-.
    destruct (write (Atom codec) _ r) as [r1 o]. simpl in Hdocs, Hout. subst o.
    match goal with
    | |- docs (promiseAllMap ?f l rejection r1).1 !! ?q = _ =>
        assert (preserves (promiseAllMap f l rejection) q) as Hkeep
    end.
    { apply promiseAllMap_preserves. intros [k' v'] Hin' r0.
      apply (Atom_SingleDoc codec). simpl. intros Heq%entryPath_inj. subst k'.
      apply Hk. apply list_elem_of_fmap. by exists (key, v'). }
    rewrite Hkeep, Hdocs. apply lookup_insert_eq.
  - destruct (write (Atom codec) _ r) as [r1 o]. simpl in Hacc1.
    assert (accepts r1 author (entryPath path key) = true) as Hacc'
      by (by rewrite Hacc1).
    destruct Hcases as [(_ & _ & _ & _ & Hout)|(_ & _ & e & Hout)];
      simpl in Hout; subst o; by apply IH.
Qed.

(** Every document found after the write of the entries was there before
    or holds the text of an entry. *)
Lemma entries_only codec author path l :
  ∀ rejection r q b,
    docs (promiseAllMap
            (λ entry : string * JsVal,
               write (Atom codec) (MkWriteProps author (entryPath path entry.1) entry.2))
            l rejection r).1 !! q = Some b →
    docs r !! q = Some b ∨
    ∃ key x text,
      (key, x) ∈ l ∧ atomText codec x = Ok text ∧
      q = entryPath path key ∧ b = MkBody text "es.5" None.
Proof.
  induction l as [|[k v] l IH]; intros rejection r q b; [by left |].
  cbn [promiseAllMap].
  pose proof (entryWrite_cases codec author path (k, v) r) as [_ Hcases].
  cbn [fst snd] in *.
  destruct (write (Atom codec) _ r) as [r1 o].
  assert (∀ rejection',
            docs (promiseAllMap
                    (λ entry : string * JsVal,
                       write (Atom codec)
                         (MkWriteProps author (entryPath path entry.1) entry.2))
                    l rejection' r1).1 !! q = Some b →
            docs r !! q = Some b ∨
            ∃ key x text,
              (key, x) ∈ (k, v) :: l ∧ atomText codec x = Ok text ∧
              q = entryPath path key ∧ b = MkBody text "es.5" None) as Hrest.
  { intros rejection' H. apply IH in H as [H|(key & x & text & Hin & H)].
    - destruct Hcases as [(text & Htext & _ & Hdocs & _)|(_ & Hr & _)].
      + simpl in Hdocs. rewrite Hdocs in H.
        apply lookup_insert_Some in H as [[<- <-]|[_ H]]; [| by left].
        right. exists k, v, text. repeat split; [apply list_elem_of_here | done].
      + simpl in Hr. subst r1. by left.
    - right. exists key, x, text. split; [by apply list_elem_of_further | done]. }
  destruct Hcases as [(_ & _ & _ & _ & Hout)|(_ & _ & e & Hout)];
    simpl in Hout; subst o; apply Hrest.
Qed.

(** When every entry is stored, the write of the entries is fulfilled. *)
Lemma entries_fulfilled codec author path l :
  ∀ r,
    (∀ key x, (key, x) ∈ l →
       (∃ text, atomText codec x = Ok text) ∧
       accepts r author (entryPath path key) = true) →
    (promiseAllMap
       (λ entry : string * JsVal,
          write (Atom codec) (MkWriteProps author (entryPath path entry.1) entry.2))
       l None r).2 = Fulfilled.
Proof.
  induction l as [|[k v] l IH]; intros r Hall; [done |].
  cbn [promiseAllMap].
  pose proof (entryWrite_cases codec author path (k, v) r) as [Hacc1 Hcases].
  cbn [fst snd] in *.
  destruct (Hall k v (list_elem_of_here _ _)) as [[text Htext] Hacc].
  destruct (write (Atom codec) _ r) as [r1 o]. simpl in Hacc1.
  destruct Hcases as [(_ & _ & _ & _ & Hout)|([[e He]|H] & _)]; [| congruence..].
  simpl in Hout. subst o. apply IH. intros key x Hin. rewrite Hacc1.
  apply Hall. by apply list_elem_of_further.
Qed.

Lemma CollectionType_write_entries codec author path m r :
  write (CollectionType (Atom codec)) (MkWriteProps author path (VObj m)) r =
    async (promiseAllMap
             (λ entry : string * JsVal,
                write (Atom codec) (MkWriteProps author (entryPath path entry.1) entry.2))
             (map_to_list m) None) r.
Proof. reflexivity. Qed.

Lemma lookup_storedEntries codec m key x :
  storedEntries codec m !! key = Some x ↔ m !! key = Some x ∧ keptText codec x = true.
Proof. unfold storedEntries. by rewrite map_lookup_filter_Some. Qed.

(** One step of [reduce] on the document of an entry. *)
Lemma CollectionType_reduce_atom codec r key rest requested a d :
  isAscii key = true →
  a !! "__proto__" = None →
  reduce (CollectionType (Atom codec))
    (MkReduceProps r (Uri.encodeURIComponent key :: rest) requested (objectOf a) d) =
    if String.eqb (doc_text d) "" then Ok (objectOf (delete key a))
    else v ← decode codec (doc_text d);
         if Js.isNull v then Ok (objectOf (delete key a))
         else Ok (VObj (<[key := v]> a)).
Proof.
  intros Hkey Hproto. cbn [reduce CollectionType]. unfold CollectionType_reduce.
  cbn [rp_pathComponents rp_prev rp_doc rp_replica head tail Uri.decodeURIComponent].
  rewrite (decode_encodeURIComponent key Hkey). cbn [mbind Res_bind].
  assert (CollectionType_remove (objectOf a) key = Ok (objectOf (delete key a)))
    as Hremove.
  { unfold CollectionType_remove.
    rewrite (assign_no_proto (objectOf a)) by (by rewrite ownProps_objectOf).
    rewrite ownProps_objectOf. cbn [mbind Res_bind]. unfold objectOf.
    by destruct (isEmptyObject (delete key a)). }
  rewrite Hremove, ownProps_objectOf.
  destruct (doc_text d) as [|c text] eqn:Htext; [done |].
  cbn [Str.nonEmpty negb reduce Atom]. unfold Atom_reduce. cbn [rp_doc].
  rewrite Htext.
  change (String.eqb (String c text) "") with false. cbv iota.
  destruct (decode codec (String c text)) as [v|e]; [| done].
  cbn [mbind Res_bind]. by destruct (Js.isNull v).
Qed.

(** Folding the documents of entries, in any order and with repetitions,
    gathers the stored entries they stand for. *)
Lemma fold_entry_docs codec m path r ds :
  (∀ key x, m !! key = Some x →
     key ≠ "" ∧ isAscii key = true ∧ (atomText codec x = Ok "" ∨ roundTrips codec x)) →
  m !! "__proto__" = None →
  Forall (isEntryDoc codec m path) ds →
  ∀ a, a ⊆ storedEntries codec m →
  ∃ a', foldRes (readStep (CollectionType (Atom codec)) r path) ds (objectOf a)
          = Ok (objectOf a') ∧
        a ⊆ a' ∧ a' ⊆ storedEntries codec m ∧
        ∀ d key, d ∈ ds → doc_path d = entryPath path key →
                 is_Some (storedEntries codec m !! key) → is_Some (a' !! key).
Proof.
  intros Hgood Hproto Hds.
  induction Hds as [|d ds (key & x & text & Hm & Hpath & Htext & Hdoc) _ IH];
    intros a Ha.
  { exists a. repeat split; [done.. |]. intros d key Hd. by apply elem_of_nil in Hd. }
  assert (a !! "__proto__" = None) as Hnoproto.
  { destruct (a !! "__proto__") as [x'|] eqn:E; [| done].
    apply (lookup_weaken _ _ _ _ E) in Ha.
    apply lookup_storedEntries in Ha as [Ha _]. congruence. }
  destruct (Hgood key x Hm) as (Hkey & Hascii & Hx).
  assert (readStep (CollectionType (Atom codec)) r path (objectOf a) d =
          reduce (CollectionType (Atom codec))
            (MkReduceProps r [Uri.encodeURIComponent key] (Some path) (objectOf a) d))
    as Hstep.
  { unfold readStep. cbn [getContentPrefix CollectionType].
    by rewrite Hpath, entry_components. }
  cbn [foldRes].
  rewrite Hstep, (CollectionType_reduce_atom _ _ _ _ _ _ _ Hascii Hnoproto).
  destruct Hx as [Hempty|(Hnull & text' & Henc & Hne & Hdec)].
  - (* the text is empty: the key is removed *)
    rewrite Hempty in Htext. injection Htext as <-. rewrite Hdoc. simpl.
    assert (storedEntries codec m !! key = None) as Hnone.
    { destruct (storedEntries codec m !! key) as [x'|] eqn:E; [| done].
      apply lookup_storedEntries in E as [E Hkept]. rewrite Hm in E.
      injection E as <-. unfold keptText in Hkept. by rewrite Hempty in Hkept. }
    assert (a !! key = None) as Hakey.
    { destruct (a !! key) as [x'|] eqn:E; [| done].
      apply (lookup_weaken _ _ _ _ E) in Ha. congruence. }
    rewrite delete_id by done.
    destruct (IH a Ha) as (a' & Hfold & Haa' & Ha' & Hkeys).
    exists a'. repeat split; [done.. |].
    intros d0 key0 [->|Hd0]%elem_of_cons Hpath0 Hsome; [| by eapply Hkeys].
    rewrite Hpath in Hpath0. apply entryPath_inj in Hpath0 as <-.
    rewrite Hnone in Hsome. by destruct Hsome.
  - (* the text decodes to the value: the key is set *)
    unfold atomText in Htext. rewrite Hnull, Henc in Htext. injection Htext as <-.
    rewrite Hdoc. apply String.eqb_neq in Hne. rewrite Hne, Hdec. simpl.
    rewrite Hnull, <- objectOf_insert.
    assert (storedEntries codec m !! key = Some x) as Hstored.
    { apply lookup_storedEntries. split; [done |]. unfold keptText, atomText.
      rewrite Hnull, Henc. apply String.eqb_neq in Hne. by destruct text'. }
    assert (a ⊆ <[key := x]> a) as Hins.
    { apply map_subseteq_spec. intros i v Hi.
      destruct (decide (i = key)) as [->|Hi'].
      - apply (lookup_weaken _ _ _ _ Hi) in Ha. rewrite Hstored in Ha.
        injection Ha as <-. by rewrite lookup_insert_eq.
      - by rewrite lookup_insert_ne. }
    destruct (IH (<[key := x]> a)) as (a' & Hfold & Haa' & Ha' & Hkeys).
    { by apply insert_subseteq_l. }
    exists a'. repeat split; [done | by etrans | done |].
    intros d0 key0 [->|Hd0]%elem_of_cons Hpath0 Hsome; [| by eapply Hkeys].
    rewrite Hpath in Hpath0. apply entryPath_inj in Hpath0 as <-.
    exists x. apply (lookup_weaken _ _ _ _ (lookup_insert_eq _ _ _) Haa').
Qed.

End CollectionOfAtoms.

(** X23.  A collection of atoms is read back after it is written.  Let
    the value written be an object whose keys are strings of bytes below
    128, not empty and other than "__proto__", and whose values are each
    a value for which the atom stores the empty text, or a value that the
    codec gives back ([encode] gives a text that is not empty, from which
    [decode] gives the value); let the replica accept a document at the
    path of every entry, and let it store no path that starts with the
    path written at.  Then the write is fulfilled; the read at the path
    that follows returns the object of the entries whose text is not
    empty, under the keys as they were given, or [null] when there is
    none; and the fold of [read] gives this value for the same documents
    in every order, with or without repetitions. *)
Theorem collection_of_atoms_write_then_read codec m r author path :
  (∀ key x, m !! key = Some x →
     key ≠ "" ∧ isAscii key = true ∧ (atomText codec x = Ok "" ∨ roundTrips codec x)) →
  m !! "__proto__" = None →
  (∀ key, is_Some (m !! key) → accepts r author (entryPath path key) = true) →
  nothingUnder r path →
  let result :=
    write (CollectionType (Atom codec)) (MkWriteProps author path (VObj m)) r in
  result.2 = Fulfilled ∧
  read (CollectionType (Atom codec)) result.1 path
  = Ok (objectOf (storedEntries codec m)) ∧
  ∀ ds, (∀ d, d ∈ ds ↔ d ∈ readDocs (CollectionType (Atom codec)) result.1 path) →
        foldRes (readStep (CollectionType (Atom codec)) result.1 path) ds VNull
        = Ok (objectOf (storedEntries codec m)).
Proof.
  intros Hgood Hproto Hacc Hnothing.
  assert (∀ key x, m !! key = Some x → ∃ text, atomText codec x = Ok text) as Htexts.
  { intros key x Hm. destruct (Hgood key x Hm) as (_ & _ & [H|(Hnull & text & H & _)]).
    - by eexists.
    - exists text. unfold atomText. by rewrite Hnull. }
  cbv zeta. rewrite CollectionType_write_entries.
  rewrite async_fulfilled.
  2:{ apply entries_fulfilled. intros key x Hin%elem_of_map_to_list. split.
      - by eapply Htexts.
      - apply Hacc. by eexists. }
  split.
  { apply entries_fulfilled. intros key x Hin%elem_of_map_to_list. split.
    - by eapply Htexts.
    - apply Hacc. by eexists. }
  match goal with
  | |- read _ ?r1 _ = _ ∧ _ => set (r' := r1)
  end.
  assert (∀ ds, (∀ d, d ∈ ds ↔ d ∈ readDocs (CollectionType (Atom codec)) r' path) →
                foldRes (readStep (CollectionType (Atom codec)) r' path) ds VNull
                = Ok (objectOf (storedEntries codec m))) as Hany.
  { intros ds Hsame.
    assert (Forall (isEntryDoc codec m path) ds) as Hdocs.
    { apply Forall_forall. intros d Hd. apply Hsame in Hd.
      apply elem_of_readDocs in Hd as (b & Hb & Hd & Hwhere); [| done].
      assert (Str.startsWith (doc_path d) path = true) as Hunder.
      { destruct Hwhere as [->|Hs]; [apply startsWith_self | by apply startsWith_base]. }
      apply entries_only in Hb
        as [Hb|(key & x & text & Hin%elem_of_map_to_list & Htext & Hq & ->)].
      - rewrite Hnothing in Hunder by (by eexists). done.
      - exists key, x, text. repeat split; [done.. |]. by rewrite Hd. }
    destruct (fold_entry_docs codec m path r' _ Hgood Hproto Hdocs ∅)
      as (a' & Hfold & _ & Ha' & Hkeys); [apply map_empty_subseteq |].
    change VNull with (objectOf ∅) at 1.
    rewrite Hfold. f_equal. f_equal.
    apply (anti_symm (⊆)); [done |].
    apply map_subseteq_spec. intros key x Hx.
    assert (is_Some (a' !! key)) as [x' Hx'].
    { pose proof Hx as [Hm Hkept]%lookup_storedEntries.
      destruct (Htexts key x Hm) as [text Htext].
      pose proof (entries_store codec author path (map_to_list m) key x text
                    (NoDup_fst_map_to_list _) (proj2 (elem_of_map_to_list _ _ _) Hm)
                    Htext None r (Hacc key (ltac:(by eexists)))) as Hstored.
      fold r' in Hstored.
      apply (Hkeys (toDoc (entryPath path key) (MkBody text "es.5" None)) key);
        [| done | by eexists].
      apply Hsame.
      apply elem_of_readDocs; [done |]. exists (MkBody text "es.5" None).
      split; [done |]. split; [done |]. right. simpl. unfold entryPath.
      unfold baseContentPrefix. destruct (Str.endsWith path "/").
      - rewrite <- append_assoc. apply startsWith_append.
      - apply startsWith_append. }
    rewrite Hx'. f_equal. apply (lookup_weaken _ _ _ _ Hx') in Ha'. congruence. }
  split; [| exact Hany].
  unfold read. by apply Hany.
Qed.

Lemma collection_of_atoms_write_then_read_witness :
  let codec :=
    MkCodec (λ x, Ok (if Js.truthy x then "1" else "")) (λ _, Ok (VBool true)) in
  let m : gmap string JsVal :=
    <["/posts/1" := VBool true]> (<["/posts/3" := VBool false]> ∅) in
  let result := write es_set (MkWriteProps "me" "/posts/2/related" (VObj m)) emptyReplica in
  result.2 = Fulfilled ∧
  read es_set result.1 "/posts/2/related" = Ok (objectOf (storedEntries codec m)) ∧
  ∀ ds, (∀ d, d ∈ ds ↔ d ∈ readDocs es_set result.1 "/posts/2/related") →
        foldRes (readStep es_set result.1 "/posts/2/related") ds VNull
        = Ok (objectOf (storedEntries codec m)).
Proof.
  intros codec m.
  apply (collection_of_atoms_write_then_read codec m emptyReplica "me" "/posts/2/related").
  - intros key x [[<- <-]|[_ [[<- <-]|[_ H]]%lookup_insert_Some]]%lookup_insert_Some.
    + split; [done |]. split; [reflexivity |]. right. split; [reflexivity |].
      exists "1". by repeat split.
    + split; [done |]. split; [reflexivity |]. by left.
    + by rewrite lookup_empty in H.
  - reflexivity.
  - reflexivity.
  - intros q [b Hb]. cbn in Hb. by rewrite lookup_empty in Hb.
Defined.

(** X24.  An entry written through a collection of atoms at the path of
    an owner extended by a prefix is found again: when the text of the
    entry is computed and not empty and the replica accepts its document,
    [findByCollectionKey] with that prefix returns the owner. *)
Theorem collection_write_then_find codec m r author owner prefix key x text :
  m !! key = Some x →
  atomText codec x = Ok text →
  text ≠ "" →
  accepts r author (entryPath (owner +:+ prefix) key) = true →
  let result :=
    write (CollectionType (Atom codec))
      (MkWriteProps author (owner +:+ prefix) (VObj m)) r in
  owner ∈ findByCollectionKey key
            (MkFindOpts result.1 (Some prefix) (MkFilter None None)).
Proof.
  intros Hm Htext _ Hacc. cbv zeta.
  apply elem_of_findByCollectionKey. split; [| done].
  rewrite CollectionType_write_entries, async_fst.
  pose proof (entries_store codec author (owner +:+ prefix) (map_to_list m) key x text
                (NoDup_fst_map_to_list _) (proj2 (elem_of_map_to_list _ _ _) Hm)
                Htext None r Hacc) as Hstored.
  unfold entryPath in Hstored. rewrite append_assoc in Hstored.
  by eexists.
Qed.

Lemma collection_write_then_find_witness :
  "/posts/2" ∈
    findByCollectionKey "/posts/1"
      (MkFindOpts
         (write es_set
            (MkWriteProps "me" ("/posts/2" +:+ "/related")
               (VObj (<["/posts/1" := VBool true]> ∅)))
            emptyReplica).1
         (Some "/related") (MkFilter None None)).
Proof.
  apply (collection_write_then_find
           (MkCodec (λ x, Ok (if Js.truthy x then "1" else "")) (λ _, Ok (VBool true)))
           (<["/posts/1" := VBool true]> ∅) emptyReplica "me" "/posts/2" "/related"
           "/posts/1" (VBool true) "1");
    [reflexivity | reflexivity | done | reflexivity].
Defined.

(** ** The format wrapper (types/app-format.ts) *)

Section FormatFacts.

Implicit Types (r : Replica) (format : ApplicationFormat).

Lemma last_char_inj t t' c c' :
  t +:+ String c "" = t' +:+ String c' "" → c = c'.
Proof.
  revert t'. induction t as [|a t IH]; intros [|a' t'].
  - by intros [= ->].
  - rewrite append_nil_l, append_cons. intros [= _ H]. by destruct t'.
  - rewrite append_nil_l, append_cons. intros [= _ H]. by destruct t.
  - rewrite !append_cons. intros [= _ H]. by apply IH in H.
Qed.

Lemma formatRoot_dot format :
  formatRoot format =
    ("/" +:+ namespace format +:+ "/" +:+ Decimal10.print (major format)) +:+ ".".
Proof. unfold formatRoot. by rewrite !append_assoc. Qed.

(** The content prefix of a format ends with a dot, so that stripping a
    trailing slash leaves it as it is. *)
Lemma stripTrailingSlash_formatRoot format :
  Str.stripTrailingSlash (formatRoot format) = formatRoot format.
Proof.
  unfold Str.stripTrailingSlash.
  destruct (Str.endsWith (formatRoot format) "/") eqn:E; [| done].
  apply endsWith_spec in E as [t E]. rewrite formatRoot_dot in E.
  by apply last_char_inj in E.
Qed.

Lemma digit_not_letter c :
  isDigit c = true →
  (Uri.inRange "a" "z" c || Uri.inRange "A" "Z" c) = false ∧ Ascii.eqb c "/" = false.
Proof.
  destruct c as [[] [] [] [] [] [] [] []]; intros H; vm_compute in H |- *;
    (discriminate H || done).
Qed.

Lemma allDigits_uint d : allDigits (NilEmpty.string_of_uint d) = true.
Proof. induction d; simpl; done. Qed.

Lemma allDigits_print n : (0 ≤ n)%Z → allDigits (Decimal10.print n) = true.
Proof.
  intros Hn. unfold Decimal10.print. destruct n as [|p|p]; [done | | lia].
  simpl. destruct (Pos.to_uint p); try done; apply allDigits_uint.
Qed.

Lemma allDigits_lacks_slash s : allDigits s = true → Str.lacks "/" s = true.
Proof.
  induction s as [|c s IH]; [done |]. simpl.
  intros [Hc Hs]%andb_true_iff. apply digit_not_letter in Hc as [_ ->]. by apply IH.
Qed.

Lemma print_segment n : (0 ≤ n)%Z → isSegment (Decimal10.print n) = true.
Proof.
  intros Hn. unfold isSegment.
  rewrite (allDigits_lacks_slash _ (allDigits_print n Hn)), andb_true_r.
  pose proof (Decimal10_print_nonempty n). by destruct (Decimal10.print n).
Qed.

(** [Number] of the decimal digits of a version is the version. *)
Lemma numberOfSegment_print n :
  (0 ≤ n)%Z → numberOfSegment (Some (Decimal10.print n)) = SegInt n.
Proof.
  intros Hn. pose proof (allDigits_print n Hn) as Hd.
  pose proof (Decimal10_parse_print n) as Hp.
  pose proof (Decimal10_print_nonempty n) as Hne.
  destruct (Decimal10.print n) as [|c s]; [done |]. unfold numberOfSegment.
  pose proof Hd as [Hc _]%andb_true_iff.
  apply digit_not_letter in Hc as [-> _]. cbn [andb]. by rewrite Hd, Hp.
Qed.

Lemma stripComponents_app prefix rest :
  stripComponents prefix (prefix ++ rest) = Some rest.
Proof. induction prefix as [|p prefix IH]; [done |]. simpl. by rewrite String.eqb_refl. Qed.

Lemma foldRes_id {A B : Type} (f : A → B → Res A) (l : list B) (a : A) :
  (∀ x, x ∈ l → f a x = Ok a) → foldRes f l a = Ok a.
Proof.
  induction l as [|x l IH]; intros Hf; [done |]. simpl.
  rewrite (Hf x) by apply list_elem_of_here. simpl.
  apply IH. intros y Hy. apply Hf. by apply list_elem_of_further.
Qed.

(** The path components [read] hands to [reduce] for a document written
    through a format. *)
Lemma format_components format prefix path :
  (0 ≤ minor format)%Z →
  splitPath (Str.substringFrom (String.length (formatRoot format))
               (formatPath format prefix path))
  = Decimal10.print (minor format) :: (splitPath prefix ++ splitPath path).
Proof.
  intros Hminor. unfold formatPath.
  rewrite substringFrom_append, splitPath_append.
  rewrite (splitPath_segment _ (print_segment _ Hminor)).
  rewrite splitPath_joinPath_segments; [done |].
  apply Forall_app. split; apply splitPath_segments.
Qed.

End FormatFacts.

(** X25.  The minor version of a format decides who reads a value.  Let
    an atom be wrapped in a writing format and in a reading format of the
    same namespace, the same major version and the same prefix, all
    versions being safe integers and the writer's minor version not
    negative; let the value written be one that the codec gives back
    ([encode] gives a text that is not empty, from which [decode] gives
    the value); let the replica accept a document at the path the writing
    wrapper writes at, and let it store no path that starts with the
    content prefix of the format, the namespace and the major version up
    to the dot.  Then the write is fulfilled, and the read through the
    reading wrapper, at whatever path it is asked, returns the value if
    the reader's minor version is not below the writer's, and [null] if
    it is below. *)
Theorem format_write_then_read
    codec x written reader prefix r author path anyPath :
  namespace reader = namespace written →
  major reader = major written →
  isSafeInteger (major written) = true →
  isSafeInteger (minor written) = true →
  isSafeInteger (minor reader) = true →
  (0 ≤ minor written)%Z →
  roundTrips codec x →
  accepts r author (formatPath written prefix path) = true →
  nothingUnder r (formatRoot written) →
  let result :=
    write (AppFormatType (Atom codec) written prefix) (MkWriteProps author path x) r in
  result.2 = Fulfilled ∧
  read (AppFormatType (Atom codec) reader prefix) result.1 anyPath =
    Ok (if (minor reader <? minor written)%Z then VNull else x).
Proof.
  intros Hns Hmajor _ _ _ Hminor (Hnull & text & Henc & Hne & Hdec) Hacc Hnothing.
  assert (formatRoot reader = formatRoot written) as Hroot
    by (unfold formatRoot; by rewrite Hns, Hmajor).
  set (W := formatPath written prefix path).
  cbv zeta. cbn [write AppFormatType]. unfold AppFormatType_write.
  cbn [wp_author wp_path wp_data]. fold W.
  rewrite (Atom_write_accepted codec (MkWriteProps author W x) r text);
    [| by cbn [wp_data]; rewrite Hnull | done].
  cbn [fst snd wp_path]. split; [done |].
  set (r' := MkReplica (<[W := MkBody text "es.5" None]> (docs r))
               (attachments r) (accepts r)).
  set (t := AppFormatType (Atom codec) reader prefix).
  (* every document folded is the one written, and there is one *)
  assert (∀ d, d ∈ readDocs t r' anyPath → d = MkDoc W text "es.5" None) as Hall.
  { intros d Hd. unfold readDocs in Hd. cbn [getContentPrefix t AppFormatType] in Hd.
    rewrite stripTrailingSlash_formatRoot, Hroot in Hd.
    assert (∀ q b, docs r' !! q = Some b → Str.startsWith q (formatRoot written) = true →
                   q = W ∧ b = MkBody text "es.5" None) as Honly.
    { intros q b Hb Hs. cbn [docs r'] in Hb.
      apply lookup_insert_Some in Hb as [[<- <-]|[_ Hb]]; [done |].
      rewrite Hnothing in Hs by (by eexists). done. }
    assert (d ∈ Store.queryDocs r' (MkFilter (Some (formatRoot written)) None) →
            d = MkDoc W text "es.5" None) as Hcontents.
    { intros (b & Hb & -> & Hm)%elem_of_queryDocs.
      unfold Store.matches in Hm. simpl in Hm. rewrite andb_true_r in Hm.
      by destruct (Honly _ _ Hb Hm) as [-> ->]. }
    unfold Store.getLatestDocAtPath in Hd.
    destruct (docs r' !! formatRoot written) as [b|] eqn:Hb; simpl in Hd.
    - apply elem_of_cons in Hd as [->|Hd]; [| by apply Hcontents].
      by destruct (Honly _ _ Hb (startsWith_self _)) as [-> ->].
    - by apply Hcontents. }
  assert (readDocs t r' anyPath ≠ []) as Hsome.
  { assert (MkDoc W text "es.5" None ∈ readDocs t r' anyPath) as Hin.
    { unfold readDocs. cbn [getContentPrefix t AppFormatType]. rewrite Hroot.
      assert (MkDoc W text "es.5" None
                ∈ Store.queryDocs r' (MkFilter (Some (formatRoot written)) None)) as Hin.
      { apply elem_of_queryDocs. exists (MkBody text "es.5" None).
        cbn [doc_path docs r']. rewrite lookup_insert_eq. split; [done |].
        split; [done |]. unfold Store.matches. simpl. rewrite andb_true_r.
        apply startsWith_append. }
      destruct (Store.getLatestDocAtPath r' _); [by apply list_elem_of_further | done]. }
    intros H. rewrite H in Hin. by apply elem_of_nil in Hin. }
  (* what [reduce] does with it *)
  assert (∀ a, readStep t r' anyPath a (MkDoc W text "es.5" None) =
               if (minor reader <? minor written)%Z then Ok a else Ok x) as Hstep.
  { intros a. unfold readStep. cbn [getContentPrefix t AppFormatType doc_path].
    rewrite Hroot. unfold W. rewrite (format_components written prefix path Hminor).
    unfold t. cbn [reduce AppFormatType]. unfold AppFormatType_reduce.
    cbn [rp_pathComponents rp_prev rp_replica rp_doc rp_requestedPath head tail].
    rewrite (numberOfSegment_print _ Hminor). cbn [mbind Res_bind].
    destruct (minor reader <? minor written)%Z; [done |].
    rewrite stripComponents_app. cbn [reduce Atom]. unfold Atom_reduce.
    cbn [rp_doc doc_text]. apply String.eqb_neq in Hne. by rewrite Hne. }
  unfold read. destruct (minor reader <? minor written)%Z.
  - apply foldRes_id. intros d Hd. by rewrite (Hall d Hd), Hstep.
  - apply foldRes_constant; [done |]. intros a d Hd. by rewrite (Hall d Hd), Hstep.
Qed.

Lemma format_write_then_read_witness :
  let written := MkFormat "notes" 1 2 in
  let reader := MkFormat "notes" 1 0 in
  let result :=
    write (AppFormatType es_string written "/posts")
      (MkWriteProps "me" "/1/title" (VStr "hello")) emptyReplica in
  result.2 = Fulfilled ∧
  read (AppFormatType es_string reader "/posts") result.1 "/elsewhere" =
    Ok (if (minor reader <? minor written)%Z then VNull else VStr "hello").
Proof.
  intros written reader.
  apply (format_write_then_read
           (MkCodec (λ x, match x with VStr s => Ok s | _ => Fail illTyped end)
                    (λ x, Ok (VStr x)))
           (VStr "hello") written reader "/posts" emptyReplica "me" "/1/title"
           "/elsewhere").
  - reflexivity.
  - reflexivity.
  - reflexivity.
  - reflexivity.
  - reflexivity.
  - done.
  - split; [reflexivity |]. exists "hello". by repeat split.
  - reflexivity.
  - intros q [b Hb]. cbn in Hb. by rewrite lookup_empty in Hb.
Defined.

(** ** Attachments (types/attachment.ts) *)

Section AttachmentFacts.

Implicit Types (r : Replica) (q path author : string).

(** After an accepted write of one document with an attachment at [path]
    in a replica where no other path starts with [path], every document
    [read] folds is the one written. *)
Lemma readDocs_after_set_attachment t r author path text bytes :
  getContentPrefix t = baseContentPrefix →
  accepts r author path = true →
  aloneAt r path →
  let r' := (Store.set r author path text (Some bytes)).1 in
  readDocs t r' path ≠ [] ∧
  ∀ d, d ∈ readDocs t r' path → d = MkDoc path text "es.5" (Some bytes).
Proof.
  intros Hprefix Hacc Halone r'.
  assert (docs r' = <[path := MkBody text "es.5" (Some bytes)]> (docs r)) as Hdocs
    by (subst r'; unfold Store.set; by rewrite Hacc).
  unfold readDocs. rewrite Hprefix, stripTrailingSlash_base.
  unfold Store.getLatestDocAtPath. rewrite Hdocs, lookup_insert_eq. simpl.
  split; [done |]. intros d [->|Hd]%elem_of_cons; [done |].
  apply elem_of_queryDocs in Hd as (b & Hb & -> & Hm).
  unfold Store.matches in Hm. simpl in Hm. rewrite andb_true_r in Hm.
  apply startsWith_base in Hm. rewrite Hdocs in Hb.
  destruct (decide (path = doc_path d)) as [Heq|Hne].
  - rewrite <- Heq in *. rewrite lookup_insert_eq in Hb. by injection Hb as <-.
  - rewrite lookup_insert_ne in Hb by done.
    exfalso. apply Hne. symmetry. apply Halone; [by eexists | done].
Qed.

End AttachmentFacts.

(** X26.  An attachment written with its metadata is read back: where the
    replica accepts the write and no other stored path starts with the
    path, the write is fulfilled and the read that follows returns the
    metadata and the attachment, and nothing else of the value
    written. *)
Theorem attachment_write_then_read data metadataText bytes r author path :
  Js.truthy data = true →
  Js.get data "metadata" = VStr metadataText →
  Js.get data "attachment" = VBlob bytes →
  accepts r author path = true →
  aloneAt r path →
  let result := write AttachmentType (MkWriteProps author path data) r in
  result.2 = Fulfilled ∧
  read AttachmentType result.1 path =
    Ok (VObj (<["metadata" := VStr metadataText]> (<["attachment" := VBlob bytes]> ∅))).
Proof.
  intros Hdata Hmeta Hbytes Hacc Halone. cbv zeta.
  cbn [write AttachmentType]. unfold AttachmentType_write, async.
  cbn [wp_data wp_author wp_path]. rewrite Hdata, Hmeta, Hbytes. cbn [negb].
  pose proof (readDocs_after_set_attachment AttachmentType r author path metadataText
                bytes eq_refl Hacc Halone) as [Hne Hall].
  assert (∀ d, doc_attachmentHash d = Some bytes →
               attachments (Store.set r author path metadataText (Some bytes)).1 d
               = AttachmentFound bytes) as Hfound.
  { intros d Hd. unfold Store.set. rewrite Hacc. simpl.
    by rewrite bool_decide_eq_true_2. }
  destruct (Store.set r author path metadataText (Some bytes)) as [r' event] eqn:Hset.
  assert (event = IngestSuccess) as ->
    by (unfold Store.set in Hset; rewrite Hacc in Hset; by injection Hset as _ <-).
  simpl in *. split; [done |].
  unfold read. apply foldRes_constant; [done |].
  intros a d Hd. rewrite (Hall d Hd). unfold readStep. simpl.
  unfold AttachmentType_reduce. simpl. by rewrite Hfound.
Qed.

Lemma attachment_write_then_read_witness :
  let data :=
    VObj (<["metadata" := VStr "image/png"]>
            (<["attachment" := VBlob "bytes"]> (<["note" := VStr "x"]> ∅))) in
  let result := write AttachmentType (MkWriteProps "me" "/images/a.png" data) emptyReplica in
  result.2 = Fulfilled ∧
  read AttachmentType result.1 "/images/a.png" =
    Ok (VObj (<["metadata" := VStr "image/png"]> (<["attachment" := VBlob "bytes"]> ∅))).
Proof.
  intros data.
  apply (attachment_write_then_read data "image/png" "bytes" emptyReplica "me"
           "/images/a.png"); try reflexivity.
  intros q [b Hb]. cbn in Hb. by rewrite lookup_empty in Hb.
Defined.

(** ** Read-only metadata (types/metadata.ts) *)

Section MetadataFacts.

Lemma foldRes_inserts (g : EsType → Res JsVal) (l : list (string * EsType)) :
  NoDup l.*1 →
  (∀ key t, (key, t) ∈ l → ∃ v, g t = Ok v) →
  ∀ acc, ∃ m,
    foldRes (λ (a : gmap string JsVal) (entry : string * EsType),
               v ← g entry.2; Ok (<[entry.1 := v]> a)) l acc = Ok m ∧
    ∀ key, m !! key =
           match list_to_map (M := gmap string EsType) l !! key with
           | Some t => match g t with Ok v => Some v | Fail _ => None end
           | None => acc !! key
           end.
Proof.
  induction l as [|[k t] l IH]; intros Hnodup Hok acc.
  { exists acc. split; [done |]. intros key.
    change (list_to_map []) with (∅ : gmap string EsType). by rewrite lookup_empty. }
  apply NoDup_cons in Hnodup as [Hk Hnodup].
  destruct (Hok k t (list_elem_of_here _ _)) as [v Hv].
  cbn [foldRes fst snd]. rewrite Hv. cbn [mbind Res_bind].
  destruct (IH Hnodup (λ key t' H, Hok key t' (list_elem_of_further _ _ _ H))
              (<[k := v]> acc)) as (m & Hm & Hlookup).
  exists m. split; [done |]. intros key. rewrite Hlookup, list_to_map_cons.
  destruct (decide (key = k)) as [->|Hne].
  - rewrite (not_elem_of_list_to_map_1 _ _ Hk), !lookup_insert_eq. by rewrite Hv.
  - by rewrite !lookup_insert_ne by done.
Qed.

End MetadataFacts.

(** X27.  [docSlug] gives what follows the last slash of the path of the
    document: the last segment, and the empty string for a path that ends
    with a slash. *)
Theorem docSlug_is_what_follows_last_slash props dir slug :
  doc_path (rp_doc props) = dir +:+ "/" +:+ slug →
  Str.lacks "/" slug = true →
  reduce docSlug props = Ok (VStr slug).
Proof.
  intros Hpath Hslug. cbn [reduce docSlug MetadataType].
  rewrite Hpath, split_append, (split_segment slug Hslug).
  by rewrite List.last_last.
Qed.

Lemma docSlug_is_what_follows_last_slash_witness :
  reduce docSlug
    (MkReduceProps emptyReplica [] None VNull (MkDoc "/posts/hello-world" "x" "es.5" None))
  = Ok (VStr "hello-world").
Proof.
  apply (docSlug_is_what_follows_last_slash _ "/posts" "hello-world"); reflexivity.
Defined.

(** X28.  [metadata(shape)] of atoms and metadata nodes, whose reducers
    are not [async], when they all succeed on the document, gives an
    object with exactly the keys of the shape, each holding what its
    reducer returns for the same document. *)
Theorem metadata_reduces_every_key shape props :
  (∀ key t, shape !! key = Some t →
     (∃ codec, t = Atom codec) ∨ (∃ reduceFn, t = MetadataType reduceFn)) →
  (∀ key t, shape !! key = Some t → ∃ v, reduce t props = Ok v) →
  ∃ m, reduce (metadata shape) props = Ok (VObj m) ∧
       ∀ key, m !! key =
              match shape !! key with
              | Some t => match reduce t props with Ok v => Some v | Fail _ => None end
              | None => None
              end.
Proof.
  intros _ Hok. cbn [reduce metadata MetadataType].
  destruct (foldRes_inserts (λ t, reduce t props) (map_to_list shape)
              (NoDup_fst_map_to_list _)
              (λ key t H, Hok key t (proj1 (elem_of_map_to_list _ _ _) H)) ∅)
    as (m & Hm & Hlookup).
  exists m. rewrite Hm. split; [done |]. intros key.
  rewrite Hlookup, list_to_map_to_list, lookup_empty. done.
Qed.

Lemma metadata_reduces_every_key_witness :
  ∃ m, reduce (metadata (<["slug" := docSlug]> (<["path" := docPath]> ∅)))
         (MkReduceProps emptyReplica [] None VNull (MkDoc "/posts/1" "x" "es.5" None))
       = Ok (VObj m) ∧
       ∀ key, m !! key =
              match (<["slug" := docSlug]> (<["path" := docPath]> ∅) : gmap string EsType)
                      !! key with
              | Some t =>
                  match reduce t (MkReduceProps emptyReplica [] None VNull
                                    (MkDoc "/posts/1" "x" "es.5" None)) with
                  | Ok v => Some v
                  | Fail _ => None
                  end
              | None => None
              end.
Proof.
  apply (metadata_reduces_every_key (<["slug" := docSlug]> (<["path" := docPath]> ∅))).
  - intros key t [[_ <-]|[_ [[_ <-]|[_ H]]%lookup_insert_Some]]%lookup_insert_Some;
      [right; by eexists | right; by eexists | by rewrite lookup_empty in H].
  - intros key t [[_ <-]|[_ [[_ <-]|[_ H]]%lookup_insert_Some]]%lookup_insert_Some;
      [by eexists | by eexists | by rewrite lookup_empty in H].
Defined.

(** ** A document at the path of a collection *)

Section CollectionRoot.


End CollectionRoot.



(** ** A live view and the read after a write *)


